(** * AV Scissors: frame activity detection (src/video/video_activity.cpp)

    A shallow embedding of [video_activity_c]: the two activity strips, the
    frame-difference predicate, the audio and the video scanner with their
    coalescing runs and cooperative cancellation, and the backward search
    for the start of an active segment.

    Conventions.
    - [uint] values are integers in [0, 2^32); every [uint] operation of
      the source is written with its wrap-around ([u32]).
    - [QVector::operator[]] and [QVector::at] carry a range assertion; an
      access outside the vector is the fault [IndexOutOfRange].
    - [k_assert] failures are faults as well; a faulted run keeps the state
      it had reached.
    - The loops whose counter is modified inside the body run on fuel; the
      entry points supply enough of it (see [frame_loop_rule]). *)

From Stdlib Require Import ZArith QArith Qabs Qround Lia Lqa List Bool.
From Stdlib Require PrimFloat FloatOps SpecFloat Uint63.
From stdpp Require Import base list.

Local Open Scope Z_scope.

(** ** Machine integers *)

Definition u32 (z : Z) : Z := z mod 2 ^ 32.

Definition i64 (z : Z) : Z := (z + 2 ^ 63) mod 2 ^ 64 - 2 ^ 63.

Definition saturate_u8 (z : Z) : Z :=
  if z <? 0 then 0 else if 255 <? z then 255 else z.

Definition zrange (n : Z) : list Z := map Z.of_nat (seq 0 (Z.to_nat n)).

(** static const uint TIME_GRANULARITY_DIVISOR = 50; *)
Definition TIME_GRANULARITY_DIVISOR : Z := 50.

(** ** Activity strips *)

Inductive activity_type_e : Set :=
| Uninitialized
| NoData
| Inactive
| Active.

#[global] Instance activity_type_e_eq_dec : EqDecision activity_type_e.
Proof. solve_decision. Defined.

Inductive fault_e : Set :=
| IndexOutOfRange (idx : Z)
| SampleOutOfRange (idx : Z)
| NoFrames
| UnknownTrack
| VideoNotOpened
| BadChannelCount
| ChannelMismatch
| UnexpectedFrameSize
| FrameTotalMismatch
| FrameSizeMismatch
| FramesSkipped.

Inductive res (A : Type) : Type :=
| Ok (a : A)
| Err (f : fault_e).
Arguments Ok {A} a.
Arguments Err {A} f.

Definition in_range (s : list activity_type_e) (i : Z) : bool :=
  (0 <=? i) && (i <? Z.of_nat (length s)).

(** [frameActivity.at(i)] *)
Definition strip_at (s : list activity_type_e) (i : Z) : option activity_type_e :=
  if in_range s i then s !! Z.to_nat i else None.

(** [frameActivity[i] = v] *)
Definition strip_set (s : list activity_type_e) (i : Z) (v : activity_type_e)
  : option (list activity_type_e) :=
  if in_range s i then Some (<[Z.to_nat i := v]> s) else None.

(** ** Frames

    [cv::Mat] holding [CV_8UC3] data, as [cv::VideoCapture] delivers it:
    [px y x] is [at<cv::Vec3b>(y, x)], three channel bytes. A default
    constructed (empty) matrix has no rows, no columns and one channel. *)

Record Vec3b : Set := mkVec3b { ch0 : Z; ch1 : Z; ch2 : Z }.

Record Mat : Type := mkMat {
  rows : Z;
  cols : Z;
  channels : Z;
  px : Z -> Z -> Vec3b
}.

Definition total (m : Mat) : Z := rows m * cols m.

Definition empty_Mat : Mat :=
  {| rows := 0; cols := 0; channels := 1; px := fun _ _ => mkVec3b 0 0 0 |}.

(** [frame1 - frame2] on 8-bit matrices is [cv::subtract]: each channel is
    [saturate_cast<uchar>(a - b)], so a negative difference becomes 0. *)
Definition vec_sub (a b : Vec3b) : Vec3b :=
  {| ch0 := saturate_u8 (ch0 a - ch0 b);
     ch1 := saturate_u8 (ch1 a - ch1 b);
     ch2 := saturate_u8 (ch2 a - ch2 b) |}.

Definition mat_sub (a b : Mat) : Mat :=
  {| rows := rows a; cols := cols a; channels := channels a;
     px := fun y x => vec_sub (px a y x) (px b y x) |}.

Definition pixel_exceeds (threshold : Z) (diffPixel : Vec3b) : bool :=
  (Z.abs (ch0 diffPixel) >? threshold)
  || (Z.abs (ch1 diffPixel) >? threshold)
  || (Z.abs (ch2 diffPixel) >? threshold).

(** video_activity_c::frames_differ. The nested loops return [true] at the
    first pixel that qualifies, which is what [existsb] does. *)
Definition frames_differ (frame1 frame2 : Mat) (threshold : Z) : res bool :=
  if (rows frame1 =? rows frame2) && (cols frame1 =? cols frame2) then
    let difference := mat_sub frame1 frame2 in
    Ok (existsb
          (fun y => existsb (fun x => pixel_exceeds threshold (px difference y x))
                            (zrange (cols frame1)))
          (zrange (rows frame1)))
  else Err FrameSizeMismatch.

(** A frame of one colour. *)
Definition solid (r c : Z) (v : Vec3b) : Mat :=
  {| rows := r; cols := c; channels := 3; px := fun _ _ => v |}.

Definition valid_pixel (v : Vec3b) : Prop :=
  (0 <= ch0 v <= 255) /\ (0 <= ch1 v <= 255) /\ (0 <= ch2 v <= 255).

(** ** Collaborators

    Only what the scanners use of the classes declared outside
    video_activity.cpp. *)

(** Modelled from the spec: [video_info_c] (src/video/video_info.h is not
    part of the sources at hand): a video with a known total frame count,
    width and height. *)
Record video_info_c : Set := mkVideoInfo {
  is_valid_video : bool;
  num_frames : Z;
  width : Z;
  height : Z
}.

(** Modelled from the spec: [audio_file_c] (src/audio/audio_file.h is not
    part of the sources at hand): a sample source with a total sample count
    and [sampleAt(index)] giving a signed amplitude. The audio is extracted
    as mono [pcm_s16le], so amplitudes are 16-bit; an index past the last
    sample is the fault [SampleOutOfRange]. *)
Record audio_file_c : Set := mkAudioFile {
  has_valid_audio_data : bool;
  samples : list Z
}.

Definition num_samples (a : audio_file_c) : Z := Z.of_nat (length (samples a)).

Definition sample_at (a : audio_file_c) (i : Z) : option Z :=
  if (0 <=? i) && (i <? num_samples a) then samples a !! Z.to_nat i else None.

(** [cv::VideoCapture]: frames are read in sequence from the current
    position, which [set(CV_CAP_PROP_POS_FRAMES, i)] moves; reading past
    the last frame yields an empty matrix. *)
Record VideoCapture : Type := mkCapture {
  isOpened : bool;
  cap_frames : list Mat;
  cap_pos : Z
}.

Definition cap_set_pos (v : VideoCapture) (i : Z) : VideoCapture :=
  {| isOpened := isOpened v; cap_frames := cap_frames v; cap_pos := i |}.

(** [video >> frame] *)
Definition cap_read (v : VideoCapture) : Mat * VideoCapture :=
  (match (if 0 <=? cap_pos v then cap_frames v !! Z.to_nat (cap_pos v) else None) with
   | Some f => f
   | None => empty_Mat
   end,
   cap_set_pos v (cap_pos v + 1)).

(** The arithmetic of the type [real] (a floating-point typedef of
    common.h, which is not part of the sources at hand), taken as a
    parameter: conversion from the integer types, [-], [*], [/], [fabs],
    [>], the conversion to [uint] and the literal [0.001]. *)
Class RealArith (real : Type) : Type := {
  of_int : Z -> real;
  rsub : real -> real -> real;
  rmul : real -> real -> real;
  rdiv : real -> real -> real;
  rabs : real -> real;
  rgt : real -> real -> bool;
  to_uint : real -> Z;
  milli : real
}.

(** Exact rational arithmetic: [real] without rounding error. The
    conversion to [uint] discards the fractional part, as the conversion of
    a floating-point value to an integer type does. *)
#[global] Instance exact_real : RealArith Q := {|
  of_int := inject_Z;
  rsub := Qminus;
  rmul := Qmult;
  rdiv := Qdiv;
  rabs := Qabs;
  rgt := fun a b => negb (Qle_bool a b);
  to_uint := fun q => Z.quot (Qnum q) (Zpos (Qden q));
  milli := Qmake 1 1000
|}.

(** IEEE 754 binary64 arithmetic: [real] when the typedef is [double].
    Conversions from the integer types are exact for the values that occur
    (below [2^53] in magnitude); the conversion to [uint] truncates toward
    zero; [0.001] is the double nearest to it, which is also what the
    correctly rounded division [1 / 1000] gives. *)
Definition f64_of_int (z : Z) : PrimFloat.float :=
  if z <? 0 then PrimFloat.opp (PrimFloat.of_uint63 (Uint63.of_Z (- z)))
  else PrimFloat.of_uint63 (Uint63.of_Z z).

Definition f64_to_uint (f : PrimFloat.float) : Z :=
  match FloatOps.Prim2SF f with
  | SpecFloat.S754_finite s m e =>
      let v := if 0 <=? e then Zpos m * 2 ^ e else Zpos m / 2 ^ (- e) in
      if s then - v else v
  | _ => 0
  end.

Definition binary64 : RealArith PrimFloat.float := {|
  of_int := f64_of_int;
  rsub := PrimFloat.sub;
  rmul := PrimFloat.mul;
  rdiv := PrimFloat.div;
  rabs := PrimFloat.abs;
  rgt := fun a b => PrimFloat.ltb b a;
  to_uint := f64_to_uint;
  milli := PrimFloat.div (f64_of_int 1) (f64_of_int 1000)
|}.

(** The rational number a binary64 value stands for (0 for the infinities
    and NaN, which do not occur below). *)
Definition f64_val (f : PrimFloat.float) : Q :=
  match FloatOps.Prim2SF f with
  | SpecFloat.S754_finite s m e =>
      let v := if 0 <=? e then Qmake (Zpos m * 2 ^ e) 1
               else Qmake (Zpos m) (Z.to_pos (2 ^ (- e))) in
      if s then Qopp v else v
  | _ => 0%Q
  end.

(** The unit roundoff of binary64. *)
Definition f64_u : Q := Qmake 1 (2 ^ 53).

(** Rounding to the nearest integer (halves away from zero on the
    non-negative side), for comparison with the conversion above. *)
Definition round_nearest (q : Q) : Z := Qfloor (Qplus q (Qmake 1 2)).

(** Truncation toward zero, the conversion of a floating-point value to an
    integer type. *)
Definition Qtrunc (q : Q) : Z := Z.quot (Qnum q) (Zpos (Qden q)).

(** [r] is [x] up to the relative error [u]: what an operation of a
    floating-point type with unit roundoff [u] returns when its exact
    result is [x] (and what exact arithmetic returns, with [u = 0]). *)
Definition rounds_to (u r x : Q) : Prop := (Qabs (r - x) <= u * Qabs x)%Q.

(** ** The activity object *)

Record video_activity_c : Type := mkActivity {
  videoInfo : video_info_c;
  videoFrameIsActive : list activity_type_e;
  audioFrameIsActive : list activity_type_e;
  audio : option audio_file_c
}.

Definition set_videoFrameIsActive (this : video_activity_c) (s : list activity_type_e) :=
  {| videoInfo := videoInfo this; videoFrameIsActive := s;
     audioFrameIsActive := audioFrameIsActive this; audio := audio this |}.

Definition set_audioFrameIsActive (this : video_activity_c) (s : list activity_type_e) :=
  {| videoInfo := videoInfo this; videoFrameIsActive := videoFrameIsActive this;
     audioFrameIsActive := s; audio := audio this |}.

Definition set_audio (this : video_activity_c) (a : option audio_file_c) :=
  {| videoInfo := videoInfo this; videoFrameIsActive := videoFrameIsActive this;
     audioFrameIsActive := audioFrameIsActive this; audio := a |}.

(** The constructor, up to the start of the worker threads: both strips are
    sized from the frame count and filled with [Uninitialized]. *)
Definition construct (sourceVideo : video_info_c) : res video_activity_c :=
  if negb (is_valid_video sourceVideo) then
    Ok (mkActivity sourceVideo [] [] None)
  else if num_frames sourceVideo >? 0 then
    let n := Z.to_nat (num_frames sourceVideo) in
    Ok (mkActivity sourceVideo (replicate n Uninitialized) (replicate n Uninitialized) None)
  else Err NoFrames.

(** video_activity_c::is_active_frame_at *)
Definition is_active_frame_at (this : video_activity_c) (offs videoOrAudioOrBoth : Z) : res bool :=
  let video_at := strip_at (videoFrameIsActive this) offs in
  let audio_at := strip_at (audioFrameIsActive this) offs in
  if videoOrAudioOrBoth =? 0 then
    match video_at with
    | Some a => Ok (bool_decide (a = Active))
    | None => Err (IndexOutOfRange offs)
    end
  else if videoOrAudioOrBoth =? 1 then
    match audio_at with
    | Some a => Ok (bool_decide (a = Active))
    | None => Err (IndexOutOfRange offs)
    end
  else if videoOrAudioOrBoth =? 2 then
    match audio_at with
    | Some a =>
        if bool_decide (a = Active) then Ok true
        else match video_at with
             | Some v => Ok (bool_decide (v = Active))
             | None => Err (IndexOutOfRange offs)
             end
    | None => Err (IndexOutOfRange offs)
    end
  else Err UnknownTrack.

(** video_activity_c::has_valid_audio *)
Definition has_valid_audio (this : video_activity_c) : bool :=
  match audio this with
  | Some a => has_valid_audio_data a
  | None => false
  end.

(** video_activity_c::get_start_of_active_segment: the [while] loop, on
    fuel; [None] is fuel exhaustion. *)
Fixpoint segment_search (fuel : nat) (frameActivity : list activity_type_e) (closest : Z)
  : option (res Z) :=
  match fuel with
  | O => None
  | S fuel' =>
      match strip_at frameActivity closest with
      | None => Some (Err (IndexOutOfRange closest))
      | Some a =>
          if bool_decide (a = Active) then
            let closest := u32 (closest - 1) in
            if closest =? 0 then Some (Ok 0)
            else segment_search fuel' frameActivity closest
          else Some (Ok (u32 (closest + 1)))
      end
  end.

Definition get_start_of_active_segment (this : video_activity_c)
    (startFrameIdx videoOrAudio : Z) : option (res Z) :=
  let frameActivity := if videoOrAudio =? 0 then videoFrameIsActive this
                       else audioFrameIsActive this in
  segment_search (S (S (Z.to_nat startFrameIdx))) frameActivity startFrameIdx.

(** video_activity_c::extract_audio. The outcome of the external FFMPEG run
    and of loading its output is an input: [None] when the extraction
    failed, in which case [audio] stays as it was. *)
Definition extract_audio (extracted : option audio_file_c) (this : video_activity_c)
  : video_activity_c :=
  match extracted with
  | Some a => set_audio this (Some a)
  | None => this
  end.

(** ** The scanning loop

    Both scanners run the same loop,
    [for (uint i = i0; i < numFrames; i++) { body; if (((i % 200) == 0) && stop) return; }],
    where the body may move [i] forward. The stop flag is shared with the
    thread that sets it; [shouldStop i] is the value read by the check made
    with counter [i] (the counter only grows, so every check has its own). *)

Inductive exit_e : Set :=
| Completed
| Cancelled (at_frame : Z)
| Faulted (f : fault_e)
| OutOfFuel.

Inductive step (St : Type) : Type :=
| Next (i : Z) (st : St)
| Abort (f : fault_e) (st : St).
Arguments Next {St} i st.
Arguments Abort {St} f st.

Section FrameLoop.
Context {St : Type}.
Variable numFrames : Z.
Variable body : Z -> St -> step St.
Variable shouldStop : Z -> bool.

Fixpoint frame_loop (fuel : nat) (i : Z) (st : St) : exit_e * St :=
  match fuel with
  | O => (OutOfFuel, st)
  | S fuel' =>
      if i <? numFrames then
        match body i st with
        | Abort f st' => (Faulted f, st')
        | Next i' st' =>
            if (i' mod 200 =? 0) && shouldStop i' then (Cancelled i', st')
            else frame_loop fuel' (u32 (i' + 1)) st'
        end
      else (Completed, st)
  end.
End FrameLoop.

(** The length of the coalescing run that starts at frame [i]. *)
Definition numFramesToSkip (numFrames timeGranularity i : Z) : Z :=
  if u32 (i + timeGranularity) >? numFrames then u32 (numFrames - i)
  else timeGranularity.

(** [for (uint p = 0; p < numFramesToSkip; (p++, i++)) strip[i] = Active;]
    with [n] the number of iterations; gives the fault, if any, the final
    [i] and the strip. *)
Fixpoint mark_run (n : nat) (i : Z) (s : list activity_type_e)
  : option fault_e * Z * list activity_type_e :=
  match n with
  | O => (None, i, s)
  | S n' =>
      match strip_set s i Active with
      | None => (Some (IndexOutOfRange i), i, s)
      | Some s' => mark_run n' (u32 (i + 1)) s'
      end
  end.

(** ** The audio scanner *)

(** The scanner's loop state: the strip, and a ghost record of the frames
    the loop evaluated itself, each with its verdict (newest first). The
    record takes no part in the computation. *)
Record scan_st : Type := mkScan {
  strip : list activity_type_e;
  evals : list (Z * bool)
}.

(** The first loop of mark_audio_frame_activity: the [i64] sum of the
    samples and the largest [abs(sample)], a [uint]. *)
Definition amplitude_step (a : audio_file_c) (acc : Z * Z) (i : Z) : Z * Z :=
  match sample_at a i with
  | Some sample =>
      (i64 (fst acc + sample),
       if u32 (Z.abs sample) >? snd acc then u32 (Z.abs sample) else snd acc)
  | None => acc
  end.

Definition amplitude_stats (a : audio_file_c) : Z * Z :=
  fold_left (amplitude_step a) (zrange (num_samples a)) (0, 0).

Section AudioScan.
Context {real : Type} `{RealArith real}.

Definition avgAmplitude (a : audio_file_c) : real :=
  rdiv (of_int (fst (amplitude_stats a))) (of_int (num_samples a)).

Definition thresholdAmplitude (a : audio_file_c) : real :=
  rmul (rsub (of_int (snd (amplitude_stats a))) (avgAmplitude a)) milli.

Definition sampleOffs (a : audio_file_c) (numFrames i : Z) : Z :=
  to_uint (rmul (rdiv (of_int (num_samples a)) (of_int numFrames)) (of_int i)).

Definition loudSample (threshold : real) (sample : Z) : bool :=
  rgt (rabs (of_int sample)) (rabs threshold).

Definition audio_body (a : audio_file_c) (threshold : real)
    (numFrames timeGranularity : Z) (i : Z) (st : scan_st) : step scan_st :=
  match sample_at a (sampleOffs a numFrames i) with
  | None => Abort (SampleOutOfRange (sampleOffs a numFrames i)) st
  | Some sample =>
      let loud := loudSample threshold sample in
      match strip_set (strip st) i (if loud then Active else Inactive) with
      | None => Abort (IndexOutOfRange i) st
      | Some s1 =>
          let ev := (i, loud) :: evals st in
          if loud then
            let n := numFramesToSkip numFrames timeGranularity i in
            match mark_run (Z.to_nat n) i s1 with
            | (Some f, _, s2) => Abort f (mkScan s2 ev)
            | (None, i', s2) => Next i' (mkScan s2 ev)
            end
          else Next i (mkScan s1 ev)
      end
  end.

(** video_activity_c::mark_audio_frame_activity. Gives how the scan ended,
    the object, and the ghost record of directly evaluated frames. *)
Definition mark_audio_frame_activity (extracted : option audio_file_c)
    (shouldStop : Z -> bool) (this : video_activity_c)
  : exit_e * video_activity_c * list (Z * bool) :=
  let numFrames := num_frames (videoInfo this) in
  let timeGranularity := numFrames / TIME_GRANULARITY_DIVISOR in
  let this := extract_audio extracted this in
  match audio this with
  | Some a =>
      if has_valid_audio_data a then
        if numFrames >? 0 then
          let r := frame_loop numFrames
                     (audio_body a (thresholdAmplitude a) numFrames timeGranularity)
                     shouldStop (S (Z.to_nat numFrames)) 0
                     (mkScan (audioFrameIsActive this) []) in
          (fst r, set_audioFrameIsActive this (strip (snd r)), evals (snd r))
        else (Faulted NoFrames, this, [])
      else
        (Completed,
         set_audioFrameIsActive this (replicate (length (audioFrameIsActive this)) NoData),
         [])
  | None =>
      (Completed,
       set_audioFrameIsActive this (replicate (length (audioFrameIsActive this)) NoData),
       [])
  end.
End AudioScan.

(** ** The video scanner *)

Record video_st : Type := mkVideoSt {
  v_scan : scan_st;
  thisFrame : Mat;
  video : VideoCapture
}.

Definition video_body (info : video_info_c) (timeGranularity : Z)
    (i : Z) (st : video_st) : step video_st :=
  let prevFrame := thisFrame st in
  let rd := cap_read (video st) in
  let st1 := mkVideoSt (v_scan st) (fst rd) (snd rd) in
  if negb (channels (fst rd) =? 3) then Abort BadChannelCount st1
  else if negb (channels (fst rd) =? channels prevFrame) then Abort ChannelMismatch st1
  else if negb (total (fst rd) =? width info * height info) then Abort UnexpectedFrameSize st1
  else if negb (total (fst rd) =? total prevFrame) then Abort FrameTotalMismatch st1
  else
    match frames_differ (fst rd) prevFrame 30 with
    | Err f => Abort f st1
    | Ok differ =>
        match strip_set (strip (v_scan st)) i (if differ then Active else Inactive) with
        | None => Abort (IndexOutOfRange i) st1
        | Some s1 =>
            let ev := (i, differ) :: evals (v_scan st) in
            match strip_at s1 i with
            | None => Abort (IndexOutOfRange i) (mkVideoSt (mkScan s1 ev) (fst rd) (snd rd))
            | Some a =>
                if bool_decide (a = Active) then
                  let n := numFramesToSkip (num_frames info) timeGranularity i in
                  match mark_run (Z.to_nat n) i s1 with
                  | (Some f, _, s2) => Abort f (mkVideoSt (mkScan s2 ev) (fst rd) (snd rd))
                  | (None, i', s2) =>
                      match strip_set s2 i' Inactive with
                      | None =>
                          Abort (IndexOutOfRange i') (mkVideoSt (mkScan s2 ev) (fst rd) (snd rd))
                      | Some s3 =>
                          let rd' := cap_read (cap_set_pos (snd rd) i') in
                          Next i' (mkVideoSt (mkScan s3 ev) (fst rd') (snd rd'))
                      end
                  end
                else Next i (mkVideoSt (mkScan s1 ev) (fst rd) (snd rd))
            end
        end
    end.

(** video_activity_c::mark_video_frame_activity, on the capture opened for
    the video's file. *)
Definition mark_video_frame_activity (capture : VideoCapture)
    (shouldStop : Z -> bool) (this : video_activity_c)
  : exit_e * video_activity_c * list (Z * bool) :=
  let info := videoInfo this in
  let timeGranularity := num_frames info / TIME_GRANULARITY_DIVISOR in
  if isOpened capture then
    let rd := cap_read (cap_set_pos capture 0) in
    match strip_set (videoFrameIsActive this) 0 Inactive with
    | None => (Faulted (IndexOutOfRange 0), this, [])
    | Some s0 =>
        let r := frame_loop (num_frames info) (video_body info timeGranularity)
                   shouldStop (S (Z.to_nat (num_frames info))) 1
                   (mkVideoSt (mkScan s0 []) (fst rd) (snd rd)) in
        let this' := set_videoFrameIsActive this (strip (v_scan (snd r))) in
        match fst r with
        | Completed =>
            if Z.of_nat (length (videoFrameIsActive this')) =? num_frames info
            then (Completed, this', evals (v_scan (snd r)))
            else (Faulted FramesSkipped, this', evals (v_scan (snd r)))
        | e => (e, this', evals (v_scan (snd r)))
        end
    end
  else (Faulted VideoNotOpened, this, []).

(** ** Concrete inputs used below *)

Definition never : Z -> bool := fun _ => false.

Definition black : Vec3b := mkVec3b 0 0 0.
Definition grey100 : Vec3b := mkVec3b 100 0 0.

Definition info_of (n : Z) : video_info_c := mkVideoInfo true n 1 1.

Definition fresh (n : Z) : video_activity_c :=
  mkActivity (info_of n) (replicate (Z.to_nat n) Uninitialized)
             (replicate (Z.to_nat n) Uninitialized) None.

(** A clip of [n] one-pixel frames, black except for the frames at and
    after [k], which are brighter. *)
Definition step_clip (n k : Z) : VideoCapture :=
  mkCapture true
    (map (fun i => solid 1 1 (if i <? k then black else grey100)) (zrange n)) 0.

(** [n] samples, silent except for a click of amplitude 1000 at index [k]. *)
Definition click_track (n k : Z) : audio_file_c :=
  mkAudioFile true (map (fun i => if i =? k then 1000 else 0) (zrange n)).

(** The stop flag raised once the counter has reached frame [n]. *)
Definition stop_from (n : Z) : Z -> bool := fun k => n <=? k.

(** ** Reference notions the properties are stated with *)

(** What the type [uint] and [QVector]'s [int] size allow as a frame count. *)
Definition frame_count_ok (n : Z) : Prop := 0 < n < 2 ^ 31.

Definition sum_samples (l : list Z) : Z := fold_right Z.add 0 l.

Definition peak_samples (l : list Z) : Z :=
  fold_right (fun s m => Z.max (Z.abs s) m) 0 l.

Definition int16 (s : Z) : Prop := - 2 ^ 15 <= s < 2 ^ 15.

(** Frames [i + lo .. i + hi], cut at the last frame, are all [Active]. *)
Definition run_active (numFrames : Z) (s : list activity_type_e) (i lo hi : Z) : Prop :=
  forall j, i + lo <= j <= Z.min (i + hi) (numFrames - 1) -> strip_at s j = Some Active.

(** No entry of the strip is [Uninitialized]. *)
Definition populated (s : list activity_type_e) : Prop :=
  forall j a, strip_at s j = Some a -> a <> Uninitialized.

(** Projections of a scanner's result. *)
Definition exit_of (r : exit_e * video_activity_c * list (Z * bool)) : exit_e := fst (fst r).
Definition object_of (r : exit_e * video_activity_c * list (Z * bool)) : video_activity_c :=
  snd (fst r).
Definition evals_of (r : exit_e * video_activity_c * list (Z * bool)) : list (Z * bool) :=
  snd r.



(** What holds of a directly evaluated frame [e = (i, verdict)] of the
    audio scanner once the loop counter has reached [k]: the verdict is the
    comparison of the representative sample with the threshold, the entry
    carries it, and a loud frame starts an [Active] run that ends before
    frame [min (i + timeGranularity) numFrames]. *)
Definition audio_entry {real : Type} `{RealArith real} (a : audio_file_c) (threshold : real)
    (numFrames timeGranularity : Z) (s : list activity_type_e) (k : Z) (e : Z * bool) : Prop :=
  0 <= fst e < k /\
  (exists sample, sample_at a (sampleOffs a numFrames (fst e)) = Some sample /\
                  snd e = loudSample threshold sample) /\
  strip_at s (fst e) = Some (if snd e then Active else Inactive) /\
  (snd e = true ->
   Z.min (fst e + timeGranularity) numFrames <= k /\
   forall j, fst e <= j < Z.min (fst e + timeGranularity) numFrames ->
             strip_at s j = Some Active).

Definition audio_inv {real : Type} `{RealArith real} (a : audio_file_c) (threshold : real)
    (numFrames timeGranularity : Z) (s0 : list activity_type_e) (k : Z) (st : scan_st) : Prop :=
  0 <= k /\
  Z.of_nat (length (strip st)) = numFrames /\
  (forall j, k <= j -> strip_at (strip st) j = strip_at s0 j) /\
  Forall (audio_entry a threshold numFrames timeGranularity (strip st) k) (evals st).

Definition audio_post {real : Type} `{RealArith real} (a : audio_file_c) (threshold : real)
    (numFrames timeGranularity : Z) (s0 : list activity_type_e) (shouldStop : Z -> bool)
    (e : exit_e) (st : scan_st) : Prop :=
  Z.of_nat (length (strip st)) = numFrames /\
  (exists k, Forall (audio_entry a threshold numFrames timeGranularity (strip st) k) (evals st)) /\
  match e with
  | Completed => True
  | Cancelled c =>
      0 <= c <= numFrames /\ c mod 200 = 0 /\ shouldStop c = true /\
      forall j, c < j -> strip_at (strip st) j = strip_at s0 j
  | Faulted f => exists k, f = SampleOutOfRange k
  | OutOfFuel => False
  end.

(** The same for the video scanner: a frame that differs starts an
    [Active] run of [min timeGranularity (numFrames - i)] frames, and the
    frame after the run is the [Inactive] baseline. *)
Definition video_entry (numFrames timeGranularity : Z) (s : list activity_type_e)
    (k : Z) (e : Z * bool) : Prop :=
  1 <= fst e < k /\
  if snd e then
    let i' := fst e + Z.min timeGranularity (numFrames - fst e) in
    i' < numFrames /\ i' < k /\
    (forall j, fst e <= j < i' -> strip_at s j = Some Active) /\
    strip_at s i' = Some Inactive
  else strip_at s (fst e) = Some Inactive.

Definition video_inv (numFrames timeGranularity : Z) (s0 : list activity_type_e)
    (k : Z) (st : video_st) : Prop :=
  1 <= k /\
  Z.of_nat (length (strip (v_scan st))) = numFrames /\
  strip_at (strip (v_scan st)) 0 = Some Inactive /\
  (forall j, k <= j -> strip_at (strip (v_scan st)) j = strip_at s0 j) /\
  (forall j, 0 <= j < k -> j < numFrames ->
             strip_at (strip (v_scan st)) j = Some Inactive \/
             strip_at (strip (v_scan st)) j = Some Active) /\
  Forall (video_entry numFrames timeGranularity (strip (v_scan st)) k) (evals (v_scan st)).

Definition video_post (numFrames timeGranularity : Z) (s0 : list activity_type_e)
    (shouldStop : Z -> bool) (e : exit_e) (st : video_st) : Prop :=
  Z.of_nat (length (strip (v_scan st))) = numFrames /\
  strip_at (strip (v_scan st)) 0 = Some Inactive /\
  match e with
  | Completed =>
      (forall j, 0 <= j < numFrames ->
                 strip_at (strip (v_scan st)) j = Some Inactive \/
                 strip_at (strip (v_scan st)) j = Some Active) /\
      exists k, Forall (video_entry numFrames timeGranularity (strip (v_scan st)) k)
                       (evals (v_scan st))
  | Cancelled c =>
      0 <= c <= numFrames /\ c mod 200 = 0 /\ shouldStop c = true /\
      forall j, c < j -> strip_at (strip (v_scan st)) j = strip_at s0 j
  | Faulted f => True
  | OutOfFuel => False
  end.

(** The product whose conversion to [uint] is the representative sample
    index of frame [i]. *)
Definition sampleProduct {real : Type} `{RealArith real} (a : audio_file_c)
    (numFrames i : Z) : real :=
  rmul (rdiv (of_int (num_samples a)) (of_int numFrames)) (of_int i).

(** The arithmetic of [real] behaves as a floating-point arithmetic in the
    computation of the sample index of frame [i]: with [val] the rational
    value of a [real], the three integers convert exactly, the quotient
    and the product are their exact results up to the relative error [u],
    and the conversion of the product to [uint] truncates. *)
Definition sample_index_rounded {real : Type} `{RealArith real} (val : real -> Q) (u : Q)
    (a : audio_file_c) (numFrames i : Z) : Prop :=
  (val (of_int (num_samples a)) == inject_Z (num_samples a))%Q /\
  (val (of_int numFrames) == inject_Z numFrames)%Q /\
  (val (of_int i) == inject_Z i)%Q /\
  rounds_to u (val (rdiv (of_int (num_samples a)) (of_int numFrames)))
            (val (of_int (num_samples a)) / val (of_int numFrames)) /\
  rounds_to u (val (sampleProduct a numFrames i))
            (val (rdiv (of_int (num_samples a)) (of_int numFrames)) * val (of_int i)) /\
  to_uint (sampleProduct a numFrames i) = Qtrunc (val (sampleProduct a numFrames i)).

(** The same for the computation of the threshold: the sum, the number of
    samples and the peak convert exactly, and the average, the difference,
    the constant [0.001] and the product are their exact results up to the
    relative error [u]. *)
Definition threshold_rounded {real : Type} `{RealArith real} (val : real -> Q) (u : Q)
    (a : audio_file_c) : Prop :=
  (val (of_int (fst (amplitude_stats a))) == inject_Z (fst (amplitude_stats a)))%Q /\
  (val (of_int (num_samples a)) == inject_Z (num_samples a))%Q /\
  (val (of_int (snd (amplitude_stats a))) == inject_Z (snd (amplitude_stats a)))%Q /\
  rounds_to u (val (avgAmplitude a))
            (val (of_int (fst (amplitude_stats a))) / val (of_int (num_samples a))) /\
  rounds_to u (val (rsub (of_int (snd (amplitude_stats a))) (avgAmplitude a)))
            (val (of_int (snd (amplitude_stats a))) - val (avgAmplitude a)) /\
  rounds_to u (val milli) (1 # 1000) /\
  rounds_to u (val (thresholdAmplitude a))
            (val (rsub (of_int (snd (amplitude_stats a))) (avgAmplitude a)) * val milli).

(** The comparison [abs(sample) > abs(threshold)] is exact: the sample
    converts exactly, and neither [abs] nor [>] rounds. *)
Definition magnitudes_compared {real : Type} `{RealArith real} (val : real -> Q)
    (threshold : real) (sample : Z) : Prop :=
  loudSample threshold sample
  = negb (Qle_bool (Qabs (inject_Z sample)) (Qabs (val threshold))).

(** The strip that a track number selects in
    [get_start_of_active_segment]: the video strip for 0, the audio strip
    for everything else. *)
Definition track_strip (this : video_activity_c) (videoOrAudio : Z) : list activity_type_e :=
  if videoOrAudio =? 0 then videoFrameIsActive this else audioFrameIsActive this.

(** Frame [k] of a capture: what a read delivers after a seek to [k]. *)
Definition frame_at (v : VideoCapture) (k : Z) : Mat := fst (cap_read (cap_set_pos v k)).

(** No entry of the strip is [Active]. *)
Definition no_active (s : list activity_type_e) : Prop :=
  forall j, strip_at s j <> Some Active.

(** No channel of [a] is above the same channel of [b]. *)
Definition not_brighter (a b : Vec3b) : Prop :=
  ch0 a <= ch0 b /\ ch1 a <= ch1 b /\ ch2 a <= ch2 b.

(** All frames of a matrix hold bytes. *)
Definition valid_Mat (m : Mat) : Prop := forall y x, valid_pixel (px m y x).

(** Decides, by evaluation, an instance of the rounding assumptions on
    concrete inputs. *)
Ltac check_rounded :=
  unfold sample_index_rounded, threshold_rounded, rounds_to;
  repeat match goal with
         | |- _ /\ _ => split
         | |- (_ == _)%Q => apply Qeq_bool_eq; vm_compute; reflexivity
         | |- (_ <= _)%Q => apply Qle_bool_imp_le; vm_compute; reflexivity
         | |- (_ < _)%Q => apply Qlt_alt; vm_compute; reflexivity
         | |- @eq Z _ _ => vm_compute; reflexivity
         end.

(** * Properties *)

(** ** Machine integers and strip accesses *)

Lemma u32_small z : 0 <= z < 2 ^ 32 -> u32 z = z.
Proof. intros Hz. unfold u32. apply Z.mod_small. exact Hz. Qed.

Lemma in_range_iff (s : list activity_type_e) i :
  in_range s i = true <-> 0 <= i < Z.of_nat (length s).
Proof. unfold in_range. rewrite andb_true_iff, Z.leb_le, Z.ltb_lt. tauto. Qed.

Lemma strip_at_Some (s : list activity_type_e) i a :
  strip_at s i = Some a -> 0 <= i < Z.of_nat (length s).
Proof.
  unfold strip_at. destruct (in_range s i) eqn:E; [|discriminate].
  intros _. now apply in_range_iff.
Qed.

Lemma strip_at_in_range (s : list activity_type_e) i :
  0 <= i < Z.of_nat (length s) -> exists a, strip_at s i = Some a.
Proof.
  intros Hi. unfold strip_at. rewrite (proj2 (in_range_iff s i) Hi).
  destruct (lookup_lt_is_Some_2 s (Z.to_nat i)) as [a Ha]; [lia|]. eauto.
Qed.

Lemma strip_at_None (s : list activity_type_e) i :
  ~ (0 <= i < Z.of_nat (length s)) -> strip_at s i = None.
Proof.
  intros Hi. unfold strip_at. destruct (in_range s i) eqn:E; [|reflexivity].
  apply in_range_iff in E. contradiction.
Qed.

Lemma strip_set_Some (s s' : list activity_type_e) i v :
  strip_set s i v = Some s' ->
  0 <= i < Z.of_nat (length s) /\ length s' = length s /\
  forall j, strip_at s' j = if j =? i then Some v else strip_at s j.
Proof.
  unfold strip_set. destruct (in_range s i) eqn:E; [|discriminate].
  intros [= <-]. apply in_range_iff in E. split; [exact E|].
  split; [apply length_insert|].
  intros j. unfold strip_at, in_range. rewrite length_insert.
  destruct (Z.eqb_spec j i) as [->|Hne].
  - rewrite (proj2 (Z.leb_le _ _)), (proj2 (Z.ltb_lt _ _)) by lia. cbn.
    apply list_lookup_insert_eq. lia.
  - destruct ((0 <=? j) && (j <? Z.of_nat (length s))) eqn:Ej; [|reflexivity].
    apply andb_true_iff in Ej. destruct Ej as [Ej1 Ej2].
    apply Z.leb_le in Ej1. apply list_lookup_insert_ne. lia.
Qed.

Lemma strip_set_None (s : list activity_type_e) i v :
  strip_set s i v = None -> ~ (0 <= i < Z.of_nat (length s)).
Proof.
  unfold strip_set. destruct (in_range s i) eqn:E; [discriminate|].
  intros _ Hi. apply in_range_iff in Hi. congruence.
Qed.

Lemma strip_set_in_range (s : list activity_type_e) i v :
  0 <= i < Z.of_nat (length s) -> exists s', strip_set s i v = Some s'.
Proof.
  intros Hi. unfold strip_set. rewrite (proj2 (in_range_iff s i) Hi). eauto.
Qed.

Lemma strip_at_replicate n (v : activity_type_e) j :
  0 <= j < Z.of_nat n -> strip_at (replicate n v) j = Some v.
Proof.
  intros Hj. unfold strip_at, in_range. rewrite length_replicate.
  rewrite (proj2 (Z.leb_le _ _)), (proj2 (Z.ltb_lt _ _)) by lia. cbn.
  apply lookup_replicate_2. lia.
Qed.

Lemma numFramesToSkip_min n g i :
  0 <= i < n -> 0 <= g -> n + g < 2 ^ 32 ->
  numFramesToSkip n g i = Z.min g (n - i).
Proof.
  intros Hi Hg Hn. unfold numFramesToSkip.
  rewrite !u32_small by lia.
  destruct (Z.gtb_spec (i + g) n); lia.
Qed.

(** The coalescing loop writes [Active] from [i] on, one entry after the
    other, and stops at the first index outside the strip. *)
Lemma mark_run_spec n : forall i (s : list activity_type_e) f i' s',
  0 <= i <= Z.of_nat (length s) -> Z.of_nat (length s) < 2 ^ 32 ->
  mark_run n i s = (f, i', s') ->
  length s' = length s /\ i <= i' <= Z.of_nat (length s) /\ i' <= i + Z.of_nat n /\
  (forall j, strip_at s' j = if (i <=? j) && (j <? i') then Some Active else strip_at s j) /\
  match f with
  | None => i' = i + Z.of_nat n
  | Some e => e = IndexOutOfRange i' /\ i' = Z.of_nat (length s) /\ i' < i + Z.of_nat n
  end.
Proof.
  induction n as [|n IH]; intros i s f i' s' Hi Hlen Hrun; cbn [mark_run] in Hrun.
  - injection Hrun as <- <- <-. repeat split; try lia.
    intros j. destruct (Z.leb_spec i j), (Z.ltb_spec j i); cbn; solve [reflexivity | lia].
  - destruct (strip_set s i Active) as [s1|] eqn:Hset.
    + apply strip_set_Some in Hset. destruct Hset as (Hin & Hl1 & Hat1).
      apply IH in Hrun; rewrite ?Hl1, ?u32_small in *; try lia.
      destruct Hrun as (Hl & Hb & Hub & Hat & Hf).
      split; [exact Hl|]. split; [lia|]. split; [lia|]. split.
      * intros j. rewrite Hat, Hat1.
        destruct (Z.leb_spec (i + 1) j), (Z.ltb_spec j i'), (Z.leb_spec i j),
          (Z.eqb_spec j i); cbn; solve [reflexivity | lia].
      * destruct f; [|lia]. destruct Hf as (He & Hi' & Hlt). repeat split; [exact He|lia|lia].
    + apply strip_set_None in Hset. injection Hrun as <- <- <-.
      repeat split; try lia.
      intros j. destruct (Z.leb_spec i j), (Z.ltb_spec j i); cbn; solve [reflexivity | lia].
Qed.

(** ** The scanning loop *)

Section FrameLoopFacts.
Context {St : Type}.
Variable numFrames : Z.
Variable body : Z -> St -> step St.


Section Rule.
Variable shouldStop : Z -> bool.
Variable Inv : Z -> St -> Prop.
Variable Post : exit_e -> St -> Prop.

Hypothesis Hdone : forall i st, Inv i st -> numFrames <= i -> Post Completed st.
Hypothesis Habort : forall i st f st',
  Inv i st -> i < numFrames -> body i st = Abort f st' -> Post (Faulted f) st'.
Hypothesis Hnext : forall i st i' st',
  Inv i st -> i < numFrames -> body i st = Next i' st' ->
  (i' mod 200 = 0 -> shouldStop i' = true -> Post (Cancelled i') st') /\
  ((i' mod 200 =? 0) && shouldStop i' = false ->
   Inv (u32 (i' + 1)) st' /\ i < u32 (i' + 1)).

(** Invariant rule: with fuel beyond the frames left, the loop ends in
    a state that satisfies [Post], and never for want of fuel. *)
Lemma frame_loop_rule : forall fuel i st,
  Inv i st -> (Z.to_nat (numFrames - i) < fuel)%nat ->
  Post (fst (frame_loop numFrames body shouldStop fuel i st))
       (snd (frame_loop numFrames body shouldStop fuel i st)).
Proof.
  induction fuel as [|fuel IH]; intros i st HI Hfuel; [lia|].
  cbn [frame_loop]. destruct (Z.ltb_spec i numFrames) as [Hlt|Hge].
  - destruct (body i st) as [i' st'|f st'] eqn:Hb.
    + destruct (Hnext _ _ _ _ HI Hlt Hb) as [Hc Hn].
      destruct ((i' mod 200 =? 0) && shouldStop i') eqn:Hstop.
      * apply andb_true_iff in Hstop. destruct Hstop as [Hm Hs].
        apply Z.eqb_eq in Hm. cbn. exact (Hc Hm Hs).
      * destruct (Hn eq_refl) as [HI' Hprog]. apply IH; [exact HI' | lia].
    + cbn. exact (Habort _ _ _ _ HI Hlt Hb).
  - cbn. exact (Hdone _ _ HI Hge).
Qed.
End Rule.
End FrameLoopFacts.

(** ** One iteration of the audio scanner *)

Section AudioBodyFacts.
Context {real : Type} `{RealArith real}.
Variables (a : audio_file_c) (threshold : real) (numFrames timeGranularity : Z).
Hypothesis Hn : numFrames + timeGranularity < 2 ^ 32.
Hypothesis Hg : 0 <= timeGranularity.

Lemma audio_body_Next i st i' st' :
  0 <= i < numFrames -> Z.of_nat (length (strip st)) = numFrames ->
  audio_body a threshold numFrames timeGranularity i st = Next i' st' ->
  exists sample,
    sample_at a (sampleOffs a numFrames i) = Some sample /\
    evals st' = (i, loudSample threshold sample) :: evals st /\
    length (strip st') = length (strip st) /\
    i' = (if loudSample threshold sample
          then i + Z.min timeGranularity (numFrames - i) else i) /\
    forall j, strip_at (strip st') j =
              if (j =? i) || (loudSample threshold sample && (i <=? j) && (j <? i'))
              then Some (if loudSample threshold sample then Active else Inactive)
              else strip_at (strip st) j.
Proof.
  intros Hi Hlen Hb. unfold audio_body in Hb.
  destruct (sample_at a (sampleOffs a numFrames i)) as [sample|]; [|discriminate].
  exists sample. split; [reflexivity|].
  destruct (strip_set (strip st) i _) as [s1|] eqn:Hset; [|discriminate].
  apply strip_set_Some in Hset. destruct Hset as (_ & Hl1 & Hat1).
  destruct (loudSample threshold sample) eqn:Hloud.
  - destruct (mark_run _ i s1) as [[f i2] s2] eqn:Hrun.
    apply mark_run_spec in Hrun; [|lia|lia].
    rewrite numFramesToSkip_min, Z2Nat.id in Hrun by lia.
    destruct Hrun as (Hl2 & Hb2 & _ & Hat2 & Hf).
    destruct f as [e|]; [discriminate|]. injection Hb as <- <-. cbn.
    repeat split; try congruence.
    intros j. rewrite Hat2, Hat1.
    destruct (Z.eqb_spec j i), (Z.leb_spec i j), (Z.ltb_spec j i2); cbn;
      solve [reflexivity | lia].
  - injection Hb as <- <-. cbn. repeat split; try congruence.
    intros j. rewrite Hat1. destruct (j =? i); reflexivity.
Qed.

(** The only fault of an iteration is a sample index past the samples:
    every strip write of the audio scanner is inside the strip. *)
Lemma audio_body_Abort i st f st' :
  0 <= i < numFrames -> Z.of_nat (length (strip st)) = numFrames ->
  audio_body a threshold numFrames timeGranularity i st = Abort f st' ->
  f = SampleOutOfRange (sampleOffs a numFrames i) /\ st' = st.
Proof.
  intros Hi Hlen Hb. unfold audio_body in Hb.
  destruct (sample_at a (sampleOffs a numFrames i)) as [sample|].
  2:{ injection Hb as <- <-. split; reflexivity. }
  destruct (strip_set (strip st) i _) as [s1|] eqn:Hset.
  2:{ apply strip_set_None in Hset. lia. }
  apply strip_set_Some in Hset. destruct Hset as (_ & Hl1 & Hat1).
  destruct (loudSample threshold sample); [|discriminate].
  destruct (mark_run _ i s1) as [[f2 i2] s2] eqn:Hrun.
  apply mark_run_spec in Hrun; [|lia|lia].
  rewrite numFramesToSkip_min, Z2Nat.id in Hrun by lia.
  destruct Hrun as (_ & _ & _ & _ & Hf).
  destruct f2 as [e|]; [lia | discriminate].
Qed.
End AudioBodyFacts.

(** ** One iteration of the video scanner *)

Section VideoBodyFacts.
Variables (info : video_info_c) (timeGranularity : Z).
Hypothesis Hn : num_frames info + timeGranularity < 2 ^ 32.
Hypothesis Hg : 0 <= timeGranularity.

Lemma video_body_Next i st i' st' :
  0 <= i < num_frames info ->
  Z.of_nat (length (strip (v_scan st))) = num_frames info ->
  video_body info timeGranularity i st = Next i' st' ->
  exists differ,
    frames_differ (fst (cap_read (video st))) (thisFrame st) 30 = Ok differ /\
    evals (v_scan st') = (i, differ) :: evals (v_scan st) /\
    length (strip (v_scan st')) = length (strip (v_scan st)) /\
    i' = (if differ then i + Z.min timeGranularity (num_frames info - i) else i) /\
    i' < num_frames info /\
    forall j, strip_at (strip (v_scan st')) j =
              if differ && (i <=? j) && (j <? i') then Some Active
              else if j =? i' then Some Inactive
              else strip_at (strip (v_scan st)) j.
Proof.
  intros Hi Hlen Hb. unfold video_body in Hb.
  repeat match type of Hb with
         | (if negb ?c then _ else _) = _ => destruct c; cbn [negb] in Hb; [|discriminate]
         end.
  destruct (frames_differ _ _ 30) as [differ|]; [|discriminate].
  exists differ. split; [reflexivity|].
  destruct (strip_set (strip (v_scan st)) i _) as [s1|] eqn:Hset; [|discriminate].
  apply strip_set_Some in Hset. destruct Hset as (_ & Hl1 & Hat1).
  rewrite Hat1, Z.eqb_refl in Hb.
  destruct differ; cbn in Hb.
  - destruct (mark_run _ i s1) as [[f i2] s2] eqn:Hrun.
    apply mark_run_spec in Hrun; [|lia|lia].
    rewrite numFramesToSkip_min, Z2Nat.id in Hrun by lia.
    destruct Hrun as (Hl2 & Hb2 & _ & Hat2 & Hf).
    destruct f as [e|]; [discriminate|].
    destruct (strip_set s2 i2 Inactive) as [s3|] eqn:Hset3; [|discriminate].
    apply strip_set_Some in Hset3. destruct Hset3 as (Hin3 & Hl3 & Hat3).
    injection Hb as <- <-. cbn.
    repeat split; try congruence; try lia.
    intros j. rewrite Hat3, Hat2, Hat1.
    destruct (Z.eqb_spec j i2), (Z.eqb_spec j i), (Z.leb_spec i j), (Z.ltb_spec j i2);
      cbn; solve [reflexivity | lia].
  - injection Hb as <- <-. cbn. repeat split; try congruence; try lia.
    intros j. rewrite Hat1. destruct (j =? i); reflexivity.
Qed.

(** A faulted iteration leaves the entries below [i] as they were. *)
Lemma video_body_Abort i st f st' :
  0 <= i < num_frames info ->
  Z.of_nat (length (strip (v_scan st))) = num_frames info ->
  video_body info timeGranularity i st = Abort f st' ->
  length (strip (v_scan st')) = length (strip (v_scan st)) /\
  forall j, j < i -> strip_at (strip (v_scan st')) j = strip_at (strip (v_scan st)) j.
Proof.
  intros Hi Hlen Hb. unfold video_body in Hb.
  repeat match type of Hb with
         | (if negb ?c then _ else _) = _ =>
             destruct c; cbn [negb] in Hb;
             [|injection Hb as <- <-; cbn; split; [reflexivity | intros; reflexivity]]
         end.
  destruct (frames_differ _ _ 30) as [differ|].
  2:{ injection Hb as <- <-. cbn. split; [reflexivity | intros; reflexivity]. }
  destruct (strip_set (strip (v_scan st)) i _) as [s1|] eqn:Hset.
  2:{ injection Hb as <- <-. cbn. split; [reflexivity | intros; reflexivity]. }
  apply strip_set_Some in Hset. destruct Hset as (_ & Hl1 & Hat1).
  rewrite Hat1, Z.eqb_refl in Hb.
  destruct differ; cbn in Hb; [|discriminate].
  destruct (mark_run _ i s1) as [[f2 i2] s2] eqn:Hrun.
  apply mark_run_spec in Hrun; [|lia|lia].
  destruct Hrun as (Hl2 & Hb2 & _ & Hat2 & Hf).
  assert (Hlow : forall j, j < i -> strip_at s2 j = strip_at (strip (v_scan st)) j).
  { intros j Hj. rewrite Hat2, Hat1.
    destruct (Z.leb_spec i j), (Z.eqb_spec j i); cbn; solve [reflexivity | lia]. }
  destruct f2 as [e|].
  - injection Hb as <- <-. cbn. split; [congruence | exact Hlow].
  - destruct (strip_set s2 i2 Inactive) as [s3|] eqn:Hset3; [discriminate|].
    injection Hb as <- <-. cbn. split; [congruence | exact Hlow].
Qed.
End VideoBodyFacts.

(** ** The audio scan as a whole *)

Section AudioScanFacts.
Context {real : Type} `{RealArith real}.
Variables (a : audio_file_c) (threshold : real) (numFrames timeGranularity : Z).
Variables (s0 : list activity_type_e) (shouldStop : Z -> bool).
Hypothesis Hn : numFrames + timeGranularity + 1 < 2 ^ 32.
Hypothesis Hg : 0 <= timeGranularity.
Hypothesis Hlen0 : Z.of_nat (length s0) = numFrames.

Lemma audio_entry_later s s' k k' e :
  audio_entry a threshold numFrames timeGranularity s k e ->
  k <= k' -> (forall j, j < k -> strip_at s' j = strip_at s j) ->
  audio_entry a threshold numFrames timeGranularity s' k' e.
Proof.
  intros (Hi & Hs & Hat & Hrun) Hk Hsame. split; [lia|]. split; [exact Hs|].
  split; [rewrite Hsame by lia; exact Hat|].
  intros Hb. destruct (Hrun Hb) as [Hm Hact]. split; [lia|].
  intros j Hj. rewrite Hsame by lia. apply Hact, Hj.
Qed.

Lemma audio_loop_spec fuel :
  (Z.to_nat numFrames < fuel)%nat ->
  let r := frame_loop numFrames (audio_body a threshold numFrames timeGranularity)
             shouldStop fuel 0 (mkScan s0 []) in
  audio_post a threshold numFrames timeGranularity s0 shouldStop (fst r) (snd r).
Proof.
  intros Hfuel r. subst r.
  apply (frame_loop_rule numFrames _ shouldStop
           (audio_inv a threshold numFrames timeGranularity s0)).
  - (* the loop condition fails *)
    intros i st (Hi & Hl & _ & Hev) _. split; [exact Hl|]. split; [eauto | exact I].
  - (* a faulted iteration *)
    intros i st f st' (Hi & Hl & _ & Hev) Hlt Hb.
    apply audio_body_Abort in Hb; [|lia..|exact Hl]. destruct Hb as [-> ->].
    split; [exact Hl|]. split; eauto.
  - (* an iteration that goes through *)
    intros i st i' st' (Hi & Hl & Hrest & Hev) Hlt Hb.
    apply audio_body_Next in Hb; [|lia..|exact Hl].
    destruct Hb as (sample & Hsmp & Hev' & Hl' & Hi' & Hat').
    assert (Hbound : i <= i' <= numFrames)
      by (destruct (loudSample threshold sample); lia).
    assert (Hlow : forall j, j < i -> strip_at (strip st') j = strip_at (strip st) j).
    { intros j Hj. rewrite Hat'.
      destruct (Z.eqb_spec j i), (Z.leb_spec i j); cbn;
        rewrite ?andb_false_r; cbn; solve [reflexivity | lia]. }
    assert (Hhigh : forall j, i' < j -> strip_at (strip st') j = strip_at s0 j).
    { intros j Hj. rewrite Hat', <- Hrest by lia.
      destruct (Z.eqb_spec j i), (Z.ltb_spec j i'); cbn;
        rewrite ?andb_false_r; cbn; solve [reflexivity | lia]. }
    assert (Hentries :
              Forall (audio_entry a threshold numFrames timeGranularity (strip st') (i' + 1))
                     (evals st')).
    { rewrite Hev'. constructor.
      - split; [cbn; lia|]. split; [exists sample; split; [exact Hsmp | reflexivity]|].
        cbn [fst snd]. split.
        + rewrite Hat', Z.eqb_refl. reflexivity.
        + intros Hloud. rewrite Hloud in *. split; [lia|].
          intros j Hj. rewrite Hat'.
          destruct (Z.eqb_spec j i), (Z.leb_spec i j), (Z.ltb_spec j i'); cbn;
            solve [reflexivity | lia].
      - eapply Forall_impl; [exact Hev|]. intros e He.
        eapply audio_entry_later; [exact He | lia | exact Hlow]. }
    split.
    + intros Hm Hs. split; [congruence|]. split; [eauto|]. split; [lia|].
      split; [exact Hm|]. split; [exact Hs | exact Hhigh].
    + intros _. rewrite u32_small by lia. split; [|lia].
      split; [lia|]. split; [congruence|]. split; [|exact Hentries].
      intros j Hj. apply Hhigh. lia.
  - (* the state before the first iteration *)
    split; [lia|]. split; [exact Hlen0|]. split; [reflexivity | constructor].
  - lia.
Qed.
End AudioScanFacts.

(** ** The video scan as a whole *)

Section VideoScanFacts.
Variables (info : video_info_c) (timeGranularity : Z).
Variables (s0 : list activity_type_e) (shouldStop : Z -> bool).
Hypothesis Hn : num_frames info + timeGranularity + 1 < 2 ^ 32.
Hypothesis Hg : 0 <= timeGranularity.

Lemma video_entry_later s s' k k' e :
  video_entry (num_frames info) timeGranularity s k e ->
  k <= k' -> (forall j, j < k -> strip_at s' j = strip_at s j) ->
  video_entry (num_frames info) timeGranularity s' k' e.
Proof.
  unfold video_entry. intros (Hi & He) Hk Hsame. split; [lia|].
  destruct (snd e).
  - destruct He as (H1 & H2 & Hact & Hbase).
    split; [exact H1|]. split; [lia|]. split.
    + intros j Hj. rewrite Hsame by lia. apply Hact, Hj.
    + rewrite Hsame by lia. exact Hbase.
  - rewrite Hsame by lia. exact He.
Qed.

Lemma video_loop_spec fuel st0 :
  (Z.to_nat (num_frames info) <= fuel)%nat ->
  0 < num_frames info ->
  Z.of_nat (length (strip (v_scan st0))) = num_frames info ->
  strip_at (strip (v_scan st0)) 0 = Some Inactive ->
  (forall j, 1 <= j -> strip_at (strip (v_scan st0)) j = strip_at s0 j) ->
  evals (v_scan st0) = [] ->
  let r := frame_loop (num_frames info) (video_body info timeGranularity)
             shouldStop fuel 1 st0 in
  video_post (num_frames info) timeGranularity s0 shouldStop (fst r) (snd r).
Proof.
  intros Hfuel Hpos Hlen0 Hzero0 Hrest0 Hev0 r. subst r.
  apply (frame_loop_rule (num_frames info) _ shouldStop
           (video_inv (num_frames info) timeGranularity s0)).
  - (* the loop condition fails *)
    intros i st (Hi & Hl & Hz & _ & Hpop & Hev) Hge.
    split; [exact Hl|]. split; [exact Hz|]. split; [|eauto].
    intros j Hj. apply Hpop; lia.
  - (* a faulted iteration *)
    intros i st f st' (Hi & Hl & Hz & _) Hlt Hb.
    apply video_body_Abort in Hb; [|lia..|exact Hl]. destruct Hb as [Hl' Hlow].
    split; [congruence|]. split; [rewrite Hlow by lia; exact Hz | exact I].
  - (* an iteration that goes through *)
    intros i st i' st' (Hi & Hl & Hz & Hrest & Hpop & Hev) Hlt Hb.
    apply video_body_Next in Hb; [|lia..|exact Hl].
    destruct Hb as (differ & _ & Hev' & Hl' & Hi' & Hlt' & Hat').
    assert (Hbound : i <= i') by (destruct differ; lia).
    assert (Hlow : forall j, j < i -> strip_at (strip (v_scan st')) j
                                      = strip_at (strip (v_scan st)) j).
    { intros j Hj. rewrite Hat'.
      destruct differ, (Z.eqb_spec j i'), (Z.leb_spec i j); cbn;
        solve [reflexivity | lia]. }
    assert (Hhigh : forall j, i' < j -> strip_at (strip (v_scan st')) j = strip_at s0 j).
    { intros j Hj. rewrite Hat', <- Hrest by lia.
      destruct differ, (Z.eqb_spec j i'), (Z.ltb_spec j i'); cbn;
        rewrite ?andb_false_r; cbn; solve [reflexivity | lia]. }
    assert (Hzero : strip_at (strip (v_scan st')) 0 = Some Inactive).
    { rewrite Hlow by lia. exact Hz. }
    assert (Hwritten : forall j, 0 <= j < i' + 1 -> j < num_frames info ->
              strip_at (strip (v_scan st')) j = Some Inactive \/
              strip_at (strip (v_scan st')) j = Some Active).
    { intros j Hj HjN. destruct (Z.ltb_spec j i) as [Hji|Hji].
      - rewrite Hlow by lia. apply Hpop; lia.
      - rewrite Hat'.
        destruct differ, (Z.eqb_spec j i'), (Z.leb_spec i j), (Z.ltb_spec j i'); cbn;
          solve [left; reflexivity | right; reflexivity | lia]. }
    assert (Hentries :
              Forall (video_entry (num_frames info) timeGranularity
                                  (strip (v_scan st')) (i' + 1))
                     (evals (v_scan st'))).
    { rewrite Hev'. constructor.
      - unfold video_entry. cbn [fst snd]. split; [lia|].
        destruct differ.
        + rewrite <- Hi'. split; [exact Hlt'|]. split; [lia|]. split.
          * intros j Hj. rewrite Hat'.
            destruct (Z.leb_spec i j), (Z.ltb_spec j i'); cbn; solve [reflexivity | lia].
          * rewrite Hat', Z.eqb_refl.
            destruct (Z.ltb_spec i' i'); rewrite ?andb_false_r; cbn;
              solve [reflexivity | lia].
        + rewrite Hat'. subst i'. rewrite Z.eqb_refl. reflexivity.
      - eapply Forall_impl; [exact Hev|]. intros e He.
        eapply video_entry_later; [exact He | lia | exact Hlow]. }
    split.
    + intros Hm Hs. split; [congruence|]. split; [exact Hzero|]. split; [lia|].
      split; [exact Hm|]. split; [exact Hs | exact Hhigh].
    + intros _. rewrite u32_small by lia. split; [|lia].
      split; [lia|]. split; [congruence|]. split; [exact Hzero|].
      split; [intros j Hj; apply Hhigh; lia|]. split; [exact Hwritten | exact Hentries].
  - (* the state before the first iteration *)
    split; [lia|]. split; [exact Hlen0|]. split; [exact Hzero0|].
    split; [exact Hrest0|]. split.
    + intros j Hj _. assert (j = 0) as -> by lia. left. exact Hzero0.
    + rewrite Hev0. constructor.
  - lia.
Qed.
End VideoScanFacts.

(** ** Cancelled and uninterrupted runs of the loop

    For a body that keeps the strip's length and the entries below its
    frame, what a cancelled run has written is what the uninterrupted run
    writes there. [proj] is the strip of the loop state. *)

Section CancelledPrefix.
Context {St : Type}.
Variables (numFrames : Z) (body : Z -> St -> step St).
Variable proj : St -> list activity_type_e.
Hypothesis Hn : numFrames + 1 < 2 ^ 32.
Hypothesis Hframe : forall i st,
  0 <= i < numFrames -> Z.of_nat (length (proj st)) = numFrames ->
  match body i st with
  | Next i' st' =>
      i <= i' <= numFrames /\ Z.of_nat (length (proj st')) = numFrames /\
      forall j, j < i -> strip_at (proj st') j = strip_at (proj st) j
  | Abort _ st' =>
      Z.of_nat (length (proj st')) = numFrames /\
      forall j, j < i -> strip_at (proj st') j = strip_at (proj st) j
  end.


End CancelledPrefix.

(** ** The two entry points *)

Lemma granularity_bounds n :
  frame_count_ok n ->
  0 <= n / TIME_GRANULARITY_DIVISOR /\ n + n / TIME_GRANULARITY_DIVISOR + 1 < 2 ^ 32.
Proof.
  unfold frame_count_ok, TIME_GRANULARITY_DIVISOR. intros Hn.
  assert (0 <= n / 50 <= n).
  { split; [apply Z.div_pos; lia|]. apply Z.div_le_upper_bound; lia. }
  lia.
Qed.

Lemma audio_body_frame {real : Type} `{RealArith real} (a : audio_file_c) (threshold : real)
    (numFrames timeGranularity : Z) i st :
  numFrames + timeGranularity < 2 ^ 32 -> 0 <= timeGranularity ->
  0 <= i < numFrames -> Z.of_nat (length (strip st)) = numFrames ->
  match audio_body a threshold numFrames timeGranularity i st with
  | Next i' st' =>
      i <= i' <= numFrames /\ Z.of_nat (length (strip st')) = numFrames /\
      forall j, j < i -> strip_at (strip st') j = strip_at (strip st) j
  | Abort _ st' =>
      Z.of_nat (length (strip st')) = numFrames /\
      forall j, j < i -> strip_at (strip st') j = strip_at (strip st) j
  end.
Proof.
  intros Hn Hg Hi Hl.
  destruct (audio_body a threshold numFrames timeGranularity i st) as [i' st'|f st'] eqn:Hb.
  - apply audio_body_Next in Hb; [|lia..|exact Hl].
    destruct Hb as (sample & _ & _ & Hl' & Hi' & Hat').
    split; [destruct (loudSample threshold sample); lia|]. split; [congruence|].
    intros j Hj. rewrite Hat'.
    destruct (Z.eqb_spec j i), (Z.leb_spec i j); cbn;
      rewrite ?andb_false_r; cbn; solve [reflexivity | lia].
  - apply audio_body_Abort in Hb; [|lia..|exact Hl]. destruct Hb as [_ ->].
    split; [exact Hl | reflexivity].
Qed.

Lemma video_body_frame (info : video_info_c) (timeGranularity : Z) i st :
  num_frames info + timeGranularity < 2 ^ 32 -> 0 <= timeGranularity ->
  0 <= i < num_frames info -> Z.of_nat (length (strip (v_scan st))) = num_frames info ->
  match video_body info timeGranularity i st with
  | Next i' st' =>
      i <= i' <= num_frames info /\
      Z.of_nat (length (strip (v_scan st'))) = num_frames info /\
      forall j, j < i -> strip_at (strip (v_scan st')) j = strip_at (strip (v_scan st)) j
  | Abort _ st' =>
      Z.of_nat (length (strip (v_scan st'))) = num_frames info /\
      forall j, j < i -> strip_at (strip (v_scan st')) j = strip_at (strip (v_scan st)) j
  end.
Proof.
  intros Hn Hg Hi Hl.
  destruct (video_body info timeGranularity i st) as [i' st'|f st'] eqn:Hb.
  - apply video_body_Next in Hb; [|lia..|exact Hl].
    destruct Hb as (differ & _ & _ & Hl' & Hi' & Hlt' & Hat').
    split; [destruct differ; lia|]. split; [congruence|].
    intros j Hj. rewrite Hat'.
    destruct differ, (Z.eqb_spec j i'), (Z.leb_spec i j); cbn; solve [reflexivity | lia].
  - apply video_body_Abort in Hb; [|lia..|exact Hl]. destruct Hb as [Hl' Hlow].
    split; [congruence | exact Hlow].
Qed.

(** The video scanner, once the capture is open, is the loop started after
    the write of frame 0. *)
Lemma mark_video_eq capture shouldStop this :
  isOpened capture = true ->
  frame_count_ok (num_frames (videoInfo this)) ->
  Z.of_nat (length (videoFrameIsActive this)) = num_frames (videoInfo this) ->
  exists s1 r,
    strip_set (videoFrameIsActive this) 0 Inactive = Some s1 /\
    r = frame_loop (num_frames (videoInfo this))
          (video_body (videoInfo this) (num_frames (videoInfo this) / TIME_GRANULARITY_DIVISOR))
          shouldStop (S (Z.to_nat (num_frames (videoInfo this)))) 1
          (mkVideoSt (mkScan s1 []) (fst (cap_read (cap_set_pos capture 0)))
                     (snd (cap_read (cap_set_pos capture 0)))) /\
    mark_video_frame_activity capture shouldStop this
    = (fst r, set_videoFrameIsActive this (strip (v_scan (snd r))), evals (v_scan (snd r))) /\
    video_post (num_frames (videoInfo this))
               (num_frames (videoInfo this) / TIME_GRANULARITY_DIVISOR)
               (videoFrameIsActive this) shouldStop (fst r) (snd r).
Proof.
  intros Hopen Hn Hl. destruct (granularity_bounds _ Hn) as [Hg Hb].
  destruct (strip_set_in_range (videoFrameIsActive this) 0 Inactive) as [s1 Hs1];
    [unfold frame_count_ok in Hn; lia|].
  exists s1. eexists. split; [exact Hs1|]. split; [reflexivity|].
  pose proof Hs1 as Hs1'. apply strip_set_Some in Hs1'. destruct Hs1' as (_ & Hl1 & Hat1).
  match goal with
  | |- _ /\ video_post _ _ _ _ (fst ?r) _ =>
      assert (Hpost : video_post (num_frames (videoInfo this))
                (num_frames (videoInfo this) / TIME_GRANULARITY_DIVISOR)
                (videoFrameIsActive this) shouldStop (fst r) (snd r))
  end.
  { apply video_loop_spec; cbn; try lia.
    - unfold frame_count_ok in Hn. lia.
    - rewrite Hat1. reflexivity.
    - intros j Hj. rewrite Hat1. destruct (Z.eqb_spec j 0); [lia | reflexivity].
    - reflexivity. }
  split; [|exact Hpost].
  unfold mark_video_frame_activity. rewrite Hopen, Hs1. cbv zeta.
  destruct Hpost as (Hlen & _).
  match goal with
  | |- match fst ?r with _ => _ end = _ => destruct (fst r); try reflexivity
  end.
  cbn [videoFrameIsActive set_videoFrameIsActive]. rewrite Hlen, Z.eqb_refl. reflexivity.
Qed.

(** The audio scanner, with valid audio [a], is the loop over the frames. *)
Lemma mark_audio_eq {real : Type} `{RealArith real} extracted shouldStop this a :
  audio (extract_audio extracted this) = Some a ->
  has_valid_audio_data a = true ->
  frame_count_ok (num_frames (videoInfo this)) ->
  Z.of_nat (length (audioFrameIsActive this)) = num_frames (videoInfo this) ->
  exists r,
    r = frame_loop (num_frames (videoInfo this))
          (audio_body a (thresholdAmplitude a) (num_frames (videoInfo this))
                      (num_frames (videoInfo this) / TIME_GRANULARITY_DIVISOR))
          shouldStop (S (Z.to_nat (num_frames (videoInfo this)))) 0
          (mkScan (audioFrameIsActive this) []) /\
    mark_audio_frame_activity extracted shouldStop this
    = (fst r, set_audioFrameIsActive (extract_audio extracted this) (strip (snd r)),
       evals (snd r)) /\
    audio_post a (thresholdAmplitude a) (num_frames (videoInfo this))
               (num_frames (videoInfo this) / TIME_GRANULARITY_DIVISOR)
               (audioFrameIsActive this) shouldStop (fst r) (snd r).
Proof.
  intros Ha Hvalid Hn Hl. destruct (granularity_bounds _ Hn) as [Hg Hb].
  eexists. split; [reflexivity|]. split.
  - unfold mark_audio_frame_activity.
    assert (Hinfo : videoInfo (extract_audio extracted this) = videoInfo this)
      by (destruct extracted; reflexivity).
    assert (Hstrip : audioFrameIsActive (extract_audio extracted this)
                     = audioFrameIsActive this)
      by (destruct extracted; reflexivity).
    rewrite Ha, Hvalid, Hstrip.
    unfold frame_count_ok in Hn.
    destruct (Z.gtb_spec (num_frames (videoInfo this)) 0); [reflexivity | lia].
  - apply audio_loop_spec; lia.
Qed.

Lemma extract_audio_strips extracted this :
  videoInfo (extract_audio extracted this) = videoInfo this /\
  videoFrameIsActive (extract_audio extracted this) = videoFrameIsActive this /\
  audioFrameIsActive (extract_audio extracted this) = audioFrameIsActive this.
Proof. destruct extracted; repeat split; reflexivity. Qed.

Lemma has_valid_audio_true this :
  has_valid_audio this = true ->
  exists a, audio this = Some a /\ has_valid_audio_data a = true.
Proof.
  unfold has_valid_audio. destruct (audio this) as [a|]; [|discriminate]. eauto.
Qed.

(** Without valid audio the scanner fills the strip and returns. *)
Lemma mark_audio_no_audio {real : Type} `{RealArith real} extracted shouldStop this :
  has_valid_audio (extract_audio extracted this) = false ->
  mark_audio_frame_activity extracted shouldStop this
  = (Completed,
     set_audioFrameIsActive (extract_audio extracted this)
       (replicate (length (audioFrameIsActive this)) NoData),
     []).
Proof.
  intros Hv. unfold mark_audio_frame_activity.
  destruct (extract_audio_strips extracted this) as (_ & _ & ->).
  unfold has_valid_audio in Hv.
  destruct (audio (extract_audio extracted this)) as [a|]; [|reflexivity].
  rewrite Hv. reflexivity.
Qed.


(** ** Termination

    The fuel the entry points supply is never used up. *)

Lemma mark_video_terminates capture shouldStop this :
  frame_count_ok (num_frames (videoInfo this)) ->
  Z.of_nat (length (videoFrameIsActive this)) = num_frames (videoInfo this) ->
  exit_of (mark_video_frame_activity capture shouldStop this) <> OutOfFuel.
Proof.
  intros Hn Hl. destruct (isOpened capture) eqn:Hopen.
  - destruct (mark_video_eq capture shouldStop this Hopen Hn Hl)
      as (s1 & r & _ & _ & -> & Hpost).
    cbn [exit_of fst]. destruct Hpost as (_ & _ & Hcase). intros He.
    rewrite He in Hcase. exact Hcase.
  - unfold mark_video_frame_activity. rewrite Hopen. discriminate.
Qed.

Lemma mark_audio_terminates {real : Type} `{RealArith real} extracted shouldStop this :
  frame_count_ok (num_frames (videoInfo this)) ->
  Z.of_nat (length (audioFrameIsActive this)) = num_frames (videoInfo this) ->
  exit_of (mark_audio_frame_activity extracted shouldStop this) <> OutOfFuel.
Proof.
  intros Hn Hl. destruct (has_valid_audio (extract_audio extracted this)) eqn:Hv.
  - apply has_valid_audio_true in Hv. destruct Hv as (a & Ha & Hvd).
    destruct (mark_audio_eq extracted shouldStop this a Ha Hvd Hn Hl)
      as (r & _ & -> & Hpost).
    cbn [exit_of fst]. destruct Hpost as (_ & _ & Hcase). intros He.
    rewrite He in Hcase. exact Hcase.
  - rewrite (mark_audio_no_audio extracted shouldStop this Hv). discriminate.
Qed.

Lemma segment_search_terminates (s : list activity_type_e) :
  Z.of_nat (length s) < 2 ^ 32 ->
  forall fuel closest,
    0 <= closest -> (Z.to_nat closest + 2 <= fuel)%nat ->
    segment_search fuel s closest <> None.
Proof.
  intros Hlen. induction fuel as [|fuel IH]; intros closest Hc Hfuel; [lia|].
  cbn [segment_search].
  destruct (strip_at s closest) as [a|] eqn:Hat; [|discriminate].
  destruct (bool_decide (a = Active)); [|discriminate].
  destruct (Z.eqb_spec (u32 (closest - 1)) 0) as [|Hnz]; [discriminate|].
  destruct (Z.eq_dec closest 0) as [->|Hpos].
  - destruct fuel as [|fuel]; [lia|]. cbn [segment_search].
    change (u32 (0 - 1)) with 4294967295.
    rewrite strip_at_None by lia. discriminate.
  - rewrite u32_small by (apply strip_at_Some in Hat; lia). apply IH; lia.
Qed.

Lemma get_start_of_active_segment_terminates this startFrameIdx videoOrAudio :
  0 <= startFrameIdx ->
  Z.of_nat (length (videoFrameIsActive this)) < 2 ^ 32 ->
  Z.of_nat (length (audioFrameIsActive this)) < 2 ^ 32 ->
  get_start_of_active_segment this startFrameIdx videoOrAudio <> None.
Proof.
  intros Hs Hv Ha. unfold get_start_of_active_segment.
  apply segment_search_terminates; [destruct (videoOrAudio =? 0); assumption | lia | lia].
Qed.

(** ** Frame 0 of the video strip *)

(** C10: for every video that opens, however the scan ends (completed,
    cancelled or faulted), the video scanner has set entry 0 of the video
    strip to [Inactive]; it is never [Active]. *)
Theorem video_frame0_inactive capture shouldStop this :
  isOpened capture = true ->
  frame_count_ok (num_frames (videoInfo this)) ->
  Z.of_nat (length (videoFrameIsActive this)) = num_frames (videoInfo this) ->
  strip_at (videoFrameIsActive (object_of (mark_video_frame_activity capture shouldStop this))) 0
  = Some Inactive.
Proof.
  intros Hopen Hn Hl.
  destruct (mark_video_eq capture shouldStop this Hopen Hn Hl)
    as (s1 & r & _ & _ & -> & Hpost).
  destruct Hpost as (_ & Hzero & _). exact Hzero.
Qed.

Lemma video_frame0_inactive_witness :
  isOpened (step_clip 50 1) = true /\
  frame_count_ok (num_frames (videoInfo (fresh 50))) /\
  strip_at (videoFrameIsActive
              (object_of (mark_video_frame_activity (step_clip 50 1) never (fresh 50)))) 0
  = Some Inactive.
Proof.
  assert (Hn : frame_count_ok (num_frames (videoInfo (fresh 50))))
    by (unfold frame_count_ok; cbn; lia).
  split; [reflexivity|]. split; [exact Hn|].
  apply (video_frame0_inactive (step_clip 50 1) never (fresh 50));
    [reflexivity | exact Hn | reflexivity].
Defined.

(** ** Coalescing *)

(** C2 (as amended): with [G = numFrames / 50 > 0], in a scan that ran to
    completion every frame [i] that the loop itself evaluated as active
    heads a run of [G] active frames, [i .. i + G - 1] cut at the last
    frame; in the video strip the frame after the run, [i + G] when there
    is one, is the [Inactive] baseline. *)
Theorem coalescing_run_from_trigger {real : Type} `{RealArith real}
    extracted capture shouldStop this :
  frame_count_ok (num_frames (videoInfo this)) ->
  0 < num_frames (videoInfo this) / TIME_GRANULARITY_DIVISOR ->
  Z.of_nat (length (audioFrameIsActive this)) = num_frames (videoInfo this) ->
  Z.of_nat (length (videoFrameIsActive this)) = num_frames (videoInfo this) ->
  (exit_of (mark_audio_frame_activity extracted shouldStop this) = Completed ->
   forall i, In (i, true) (evals_of (mark_audio_frame_activity extracted shouldStop this)) ->
     run_active (num_frames (videoInfo this))
       (audioFrameIsActive (object_of (mark_audio_frame_activity extracted shouldStop this)))
       i 0 (num_frames (videoInfo this) / TIME_GRANULARITY_DIVISOR - 1)) /\
  (exit_of (mark_video_frame_activity capture shouldStop this) = Completed ->
   forall i, In (i, true) (evals_of (mark_video_frame_activity capture shouldStop this)) ->
     run_active (num_frames (videoInfo this))
       (videoFrameIsActive (object_of (mark_video_frame_activity capture shouldStop this)))
       i 0 (num_frames (videoInfo this) / TIME_GRANULARITY_DIVISOR - 1) /\
     (i + num_frames (videoInfo this) / TIME_GRANULARITY_DIVISOR < num_frames (videoInfo this) ->
      strip_at
        (videoFrameIsActive (object_of (mark_video_frame_activity capture shouldStop this)))
        (i + num_frames (videoInfo this) / TIME_GRANULARITY_DIVISOR)
      = Some Inactive)).
Proof.
  intros Hn Hg Hla Hlv. split.
  - destruct (has_valid_audio (extract_audio extracted this)) eqn:Hv.
    + apply has_valid_audio_true in Hv. destruct Hv as (a & Ha & Hvalid).
      destruct (mark_audio_eq extracted shouldStop this a Ha Hvalid Hn Hla)
        as (r & _ & -> & Hpost).
      intros _ i Hin. destruct Hpost as (_ & (k & Hev) & _).
      cbn [exit_of evals_of object_of fst snd audioFrameIsActive set_audioFrameIsActive] in *.
      rewrite List.Forall_forall in Hev. specialize (Hev _ Hin).
      destruct Hev as (_ & _ & _ & Hrun). destruct (Hrun eq_refl) as [_ Hact].
      intros j Hj. apply Hact. cbn [fst]. lia.
    + rewrite (mark_audio_no_audio extracted shouldStop this Hv).
      intros _ i Hin. destruct Hin.
  - destruct (isOpened capture) eqn:Hopen.
    + destruct (mark_video_eq capture shouldStop this Hopen Hn Hlv)
        as (s1 & r & _ & _ & -> & Hpost).
      cbn [exit_of evals_of object_of fst snd videoFrameIsActive set_videoFrameIsActive].
      intros He i Hin. rewrite He in Hpost. destruct Hpost as (_ & _ & _ & (k & Hev)).
      rewrite List.Forall_forall in Hev. specialize (Hev _ Hin).
      unfold video_entry in Hev. cbn [fst snd] in Hev.
      destruct Hev as (Hi & Hlt & _ & Hact & Hbase).
      assert (Hmin : Z.min (num_frames (videoInfo this) / TIME_GRANULARITY_DIVISOR)
                           (num_frames (videoInfo this) - i)
                     = num_frames (videoInfo this) / TIME_GRANULARITY_DIVISOR) by lia.
      rewrite Hmin in *. split; [|intros _; exact Hbase].
      intros j Hj. apply Hact. lia.
    + unfold mark_video_frame_activity. rewrite Hopen. cbn. discriminate.
Qed.

Lemma coalescing_run_from_trigger_witness :
  frame_count_ok (num_frames (videoInfo (fresh 50))) /\
  0 < num_frames (videoInfo (fresh 50)) / TIME_GRANULARITY_DIVISOR /\
  run_active 50
    (audioFrameIsActive
       (object_of (mark_audio_frame_activity (Some (click_track 50 0)) never (fresh 50))))
    0 0 0 /\
  run_active 50
    (videoFrameIsActive (object_of (mark_video_frame_activity (step_clip 50 1) never (fresh 50))))
    1 0 0 /\
  strip_at
    (videoFrameIsActive (object_of (mark_video_frame_activity (step_clip 50 1) never (fresh 50))))
    2 = Some Inactive.
Proof.
  assert (Hn : frame_count_ok (num_frames (videoInfo (fresh 50))))
    by (unfold frame_count_ok; cbn; lia).
  assert (Hg : 0 < num_frames (videoInfo (fresh 50)) / TIME_GRANULARITY_DIVISOR)
    by (vm_compute; reflexivity).
  destruct (coalescing_run_from_trigger (real := Q) (Some (click_track 50 0))
              (step_clip 50 1) never (fresh 50) Hn Hg eq_refl eq_refl) as [Ha Hv].
  split; [exact Hn|]. split; [exact Hg|]. split.
  - apply Ha; [vm_compute; reflexivity|].
    vm_compute. repeat (first [left; reflexivity | right]).
  - assert (Hin : In (1, true)
                     (evals_of (mark_video_frame_activity (step_clip 50 1) never (fresh 50))))
      by (vm_compute; repeat (first [left; reflexivity | right])).
    destruct (Hv ltac:(vm_compute; reflexivity) 1 Hin) as (Hrun & Hbase).
    split; [exact Hrun | apply Hbase; vm_compute; reflexivity].
Defined.

(** C2 as stated fails: in a 50-frame clip ([G = 1]) whose frame 1 is
    brighter than frame 0, frame 1 is evaluated as active, yet frame
    [1 + G = 2] is not [Active] at the end of the completed scan. *)
Lemma coalescing_claim_fails :
  let r := mark_video_frame_activity (step_clip 50 1) never (fresh 50) in
  exit_of r = Completed /\
  0 < 50 / TIME_GRANULARITY_DIVISOR /\
  In (1, true) (evals_of r) /\
  ~ run_active 50 (videoFrameIsActive (object_of r)) 1 1 (50 / TIME_GRANULARITY_DIVISOR).
Proof.
  cbv zeta. split; [vm_compute; reflexivity|]. split; [vm_compute; reflexivity|]. split.
  - vm_compute. repeat (first [left; reflexivity | right]).
  - intros Hrun. specialize (Hrun 2). vm_compute in Hrun.
    assert (Habs : Some Inactive = Some Active).
    { apply Hrun. split; intros Hc; discriminate Hc. }
    discriminate Habs.
Qed.

(** ** The stop check acts on the flag

    Every iteration that goes through ends with the stop check, made with
    the counter [check_counter] of the frame it evaluated. *)






(** ** Cancellation *)



(** ** Audio that is not available *)

(** The video scanner looks at the video information and the video strip
    only. *)
Lemma mark_video_same_inputs capture shouldStop this this' :
  videoInfo this' = videoInfo this ->
  videoFrameIsActive this' = videoFrameIsActive this ->
  exit_of (mark_video_frame_activity capture shouldStop this')
  = exit_of (mark_video_frame_activity capture shouldStop this) /\
  videoFrameIsActive (object_of (mark_video_frame_activity capture shouldStop this'))
  = videoFrameIsActive (object_of (mark_video_frame_activity capture shouldStop this)) /\
  evals_of (mark_video_frame_activity capture shouldStop this')
  = evals_of (mark_video_frame_activity capture shouldStop this).
Proof.
  intros Hi Hs. unfold mark_video_frame_activity. rewrite Hi, Hs.
  destruct (isOpened capture); [|repeat split; try reflexivity; exact Hs].
  destruct (strip_set (videoFrameIsActive this) 0 Inactive) as [s1|];
    [|repeat split; try reflexivity; exact Hs].
  cbv zeta.
  match goal with
  | |- context [fst ?r] => destruct (fst r)
  end; cbn [exit_of object_of evals_of fst snd videoFrameIsActive set_videoFrameIsActive];
    try (repeat split; reflexivity).
  destruct (_ =? _); repeat split; reflexivity.
Qed.

(** C8: when no valid audio is available, the audio scan ends normally
    with every entry of the audio strip [NoData]; [has_valid_audio] is
    false; the video strip is untouched and the video scan gives what it
    gives without the audio scan. *)
Theorem no_audio_degraded_mode {real : Type} `{RealArith real}
    extracted shouldStop this capture videoStop :
  has_valid_audio (extract_audio extracted this) = false ->
  exit_of (mark_audio_frame_activity extracted shouldStop this) = Completed /\
  length (audioFrameIsActive (object_of (mark_audio_frame_activity extracted shouldStop this)))
  = length (audioFrameIsActive this) /\
  (forall j a,
     strip_at (audioFrameIsActive
                 (object_of (mark_audio_frame_activity extracted shouldStop this))) j = Some a ->
     a = NoData) /\
  has_valid_audio (object_of (mark_audio_frame_activity extracted shouldStop this)) = false /\
  videoFrameIsActive (object_of (mark_audio_frame_activity extracted shouldStop this))
  = videoFrameIsActive this /\
  exit_of (mark_video_frame_activity capture videoStop
             (object_of (mark_audio_frame_activity extracted shouldStop this)))
  = exit_of (mark_video_frame_activity capture videoStop this) /\
  videoFrameIsActive
    (object_of (mark_video_frame_activity capture videoStop
                  (object_of (mark_audio_frame_activity extracted shouldStop this))))
  = videoFrameIsActive (object_of (mark_video_frame_activity capture videoStop this)).
Proof.
  intros Hv. rewrite (mark_audio_no_audio extracted shouldStop this Hv).
  cbn [exit_of object_of fst snd].
  destruct (extract_audio_strips extracted this) as (Hi & Hs & _).
  split; [reflexivity|]. split; [cbn; apply length_replicate|]. split.
  - cbn [audioFrameIsActive set_audioFrameIsActive]. intros j a Hj.
    pose proof (strip_at_Some _ _ _ Hj) as Hr. rewrite length_replicate in Hr.
    rewrite strip_at_replicate in Hj by lia. congruence.
  - split; [exact Hv|]. split; [exact Hs|].
    destruct (mark_video_same_inputs capture videoStop this
                (set_audioFrameIsActive (extract_audio extracted this)
                   (replicate (length (audioFrameIsActive this)) NoData)))
      as (He & Hst & _); [exact Hi | exact Hs |].
    split; [exact He | exact Hst].
Qed.

Lemma no_audio_degraded_mode_witness :
  has_valid_audio (extract_audio None (fresh 5)) = false /\
  audioFrameIsActive (object_of (mark_audio_frame_activity None never (fresh 5)))
  = [NoData; NoData; NoData; NoData; NoData] /\
  exit_of (mark_audio_frame_activity None never (fresh 5)) = Completed /\
  has_valid_audio (object_of (mark_audio_frame_activity None never (fresh 5))) = false.
Proof.
  destruct (no_audio_degraded_mode (real := Q) None never (fresh 5) (step_clip 5 1) never
              eq_refl) as (He & _ & _ & Hv & _).
  split; [reflexivity|]. split; [vm_compute; reflexivity|].
  split; [exact He | exact Hv].
Defined.

(** ** Amplitude statistics and the threshold *)

Lemma sum_samples_snoc l x : sum_samples (l ++ [x]) = sum_samples l + x.
Proof. unfold sum_samples. induction l as [|y l IH]; cbn in *; lia. Qed.

Lemma peak_samples_snoc l x :
  peak_samples (l ++ [x]) = Z.max (peak_samples l) (Z.abs x).
Proof. unfold peak_samples. induction l as [|y l IH]; cbn in *; lia. Qed.

Lemma samples_bounds l :
  Forall int16 l ->
  - (Z.of_nat (length l) * 2 ^ 15) <= sum_samples l <= Z.of_nat (length l) * 2 ^ 15 /\
  0 <= peak_samples l <= 2 ^ 15.
Proof.
  unfold sum_samples, peak_samples, int16.
  induction 1 as [|x l Hx Hl IH]; cbn [fold_right length]; lia.
Qed.

Lemma i64_small z : - 2 ^ 63 <= z < 2 ^ 63 -> i64 z = z.
Proof. intros Hz. unfold i64. rewrite Z.mod_small; lia. Qed.

(** The accumulation loop over the first [k] samples. *)
Lemma amplitude_prefix a k :
  Forall int16 (samples a) -> num_samples a < 2 ^ 32 ->
  (k <= length (samples a))%nat ->
  fold_left (amplitude_step a) (map Z.of_nat (seq 0 k)) (0, 0)
  = (sum_samples (take k (samples a)), peak_samples (take k (samples a))).
Proof.
  intros H16 Hlen. unfold num_samples in Hlen.
  induction k as [|k IH]; intros Hk; [reflexivity|].
  rewrite seq_S, map_app, fold_left_app, IH by lia. cbn [map fold_left Nat.add].
  destruct (lookup_lt_is_Some_2 (samples a) k) as [x Hx]; [lia|].
  rewrite (take_S_r _ _ _ Hx), sum_samples_snoc, peak_samples_snoc.
  unfold amplitude_step, sample_at, num_samples.
  rewrite (proj2 (Z.leb_le _ _)), (proj2 (Z.ltb_lt _ _)) by lia.
  cbn [andb fst snd]. rewrite Nat2Z.id, Hx.
  assert (Hx16 : int16 x).
  { rewrite List.Forall_forall in H16. apply H16.
    apply list_elem_of_In. eapply list_elem_of_lookup_2. exact Hx. }
  assert (Htake : Forall int16 (take k (samples a))) by (apply Forall_take; exact H16).
  apply samples_bounds in Htake. rewrite length_take in Htake.
  unfold int16 in Hx16.
  rewrite i64_small, u32_small by lia.
  destruct (Z.gtb_spec (Z.abs x) (peak_samples (take k (samples a)))); f_equal; lia.
Qed.

Lemma amplitude_stats_spec a :
  Forall int16 (samples a) -> num_samples a < 2 ^ 32 ->
  amplitude_stats a = (sum_samples (samples a), peak_samples (samples a)).
Proof.
  intros H16 Hlen. unfold amplitude_stats, zrange, num_samples. rewrite Nat2Z.id.
  rewrite amplitude_prefix by (assumption || lia).
  rewrite firstn_all. reflexivity.
Qed.


Lemma click_track_int16 n k : Forall int16 (samples (click_track n k)).
Proof.
  unfold click_track. cbn [samples]. apply List.Forall_forall. intros x Hin.
  apply in_map_iff in Hin. destruct Hin as (i & <- & _).
  unfold int16. destruct (i =? k); lia.
Qed.


(** ** The representative sample *)

(** Rounded values of non-negative numbers. *)
Lemma rounds_to_nonneg u r x :
  (0 <= x)%Q -> rounds_to u r x -> (x * (1 - u) <= r /\ r <= x * (1 + u))%Q.
Proof.
  unfold rounds_to. intros Hx Hr. rewrite (Qabs_pos x Hx) in Hr.
  apply Qabs_Qle_condition in Hr. destruct Hr as [H1 H2]. split; lra.
Qed.

(** A rounded quotient multiplied, with rounding, by [i]: two relative
    errors. *)
Lemma rounded_product_bounds (u ns nf i d p : Q) :
  (0 <= u)%Q -> (u <= 1)%Q -> (0 <= ns)%Q -> (0 < nf)%Q -> (0 <= i)%Q ->
  rounds_to u d (ns / nf) -> rounds_to u p (d * i) ->
  (i * ns / nf * (1 - u) * (1 - u) <= p /\ p <= i * ns / nf * (1 + u) * (1 + u))%Q.
Proof.
  intros Hu0 Hu1 Hns Hnf Hi Hd Hp.
  assert (Hr : (0 <= ns / nf)%Q) by (apply Qle_shift_div_l; [exact Hnf | lra]).
  set (r := (ns / nf)%Q) in *.
  assert (Hq : (i * ns / nf == r * i)%Q) by (subst r; unfold Qdiv; ring).
  rewrite Hq.
  destruct (rounds_to_nonneg _ _ _ Hr Hd) as [Hd1 Hd2].
  assert (Hd0 : (0 <= d)%Q).
  { assert (0 <= r * (1 - u))%Q by (apply Qmult_le_0_compat; lra). lra. }
  assert (Hdi : (0 <= d * i)%Q) by (apply Qmult_le_0_compat; assumption).
  destruct (rounds_to_nonneg _ _ _ Hdi Hp) as [Hp1 Hp2].
  split.
  - assert (H1 : (r * (1 - u) * (i * (1 - u)) <= d * (i * (1 - u)))%Q).
    { apply Qmult_le_compat_r; [exact Hd1|]. apply Qmult_le_0_compat; lra. }
    assert (E1 : (r * i * (1 - u) * (1 - u) == r * (1 - u) * (i * (1 - u)))%Q) by ring.
    assert (E2 : (d * i * (1 - u) == d * (i * (1 - u)))%Q) by ring.
    rewrite E1. rewrite E2 in Hp1. lra.
  - assert (H1 : (d * (i * (1 + u)) <= r * (1 + u) * (i * (1 + u)))%Q).
    { apply Qmult_le_compat_r; [exact Hd2|]. apply Qmult_le_0_compat; lra. }
    assert (E1 : (r * i * (1 + u) * (1 + u) == r * (1 + u) * (i * (1 + u)))%Q) by ring.
    assert (E2 : (d * i * (1 + u) == d * (i * (1 + u)))%Q) by ring.
    rewrite E1. rewrite E2 in Hp2. lra.
Qed.

Lemma Qtrunc_nonneg_floor q : (0 <= q)%Q -> Qtrunc q = Qfloor q.
Proof.
  destruct q as [n d]. unfold Qle, Qtrunc, Qfloor. cbn [Qnum Qden]. intros Hq.
  apply Z.quot_div_nonneg; lia.
Qed.

Lemma Qfloor_lt_succ (x : Q) (k : Z) : (x < inject_Z k + 1)%Q -> Qfloor x <= k.
Proof.
  intros Hx. pose proof (Qfloor_le x) as Hf.
  assert (Hlt : (inject_Z (Qfloor x) < inject_Z (k + 1))%Q).
  { rewrite inject_Z_plus. change (inject_Z 1) with 1%Q. lra. }
  rewrite <- Zlt_Qlt in Hlt. lia.
Qed.

Lemma Qfloor_ratio (ns nf i : Z) :
  0 < nf -> Qfloor (inject_Z i * inject_Z ns / inject_Z nf) = ns * i / nf.
Proof.
  intros Hnf. destruct nf as [|p|p]; try lia.
  unfold Qdiv, Qinv, Qmult, inject_Z, Qfloor. cbn [Qnum Qden].
  rewrite Pos.mul_1_l, Z.mul_1_r, (Z.mul_comm i ns). reflexivity.
Qed.

(** The conversions of the two arithmetics truncate. *)
Lemma exact_real_truncates (q : Q) : @to_uint Q exact_real q = Qtrunc q.
Proof. reflexivity. Qed.

Lemma binary64_truncates (f : PrimFloat.float) :
  @to_uint PrimFloat.float binary64 f = Qtrunc (f64_val f).
Proof.
  cbn [to_uint binary64]. unfold f64_to_uint, f64_val.
  destruct (FloatOps.Prim2SF f) as [sg|sg| |sg m e]; try reflexivity.
  destruct (Z.leb_spec 0 e) as [He|He].
  - destruct sg; unfold Qtrunc; cbn [Qopp Qnum Qden].
    + rewrite Z.quot_1_r. reflexivity.
    + rewrite Z.quot_1_r. reflexivity.
  - assert (Hp : 0 < 2 ^ (- e)) by (apply Z.pow_pos_nonneg; lia).
    destruct sg; unfold Qtrunc; cbn [Qopp Qnum Qden]; rewrite Z2Pos.id by exact Hp.
    + change (- Z.pos m) with (- (Z.pos m)). rewrite Z.quot_opp_l by lia.
      rewrite Z.quot_div_nonneg by lia. reflexivity.
    + rewrite Z.quot_div_nonneg by lia. reflexivity.
Qed.

(** The computed product lies within two relative errors of the exact
    ratio, and the index is its integer part. *)
Lemma sample_index_band {real : Type} `{RealArith real}
    (val : real -> Q) (u : Q) a numFrames i :
  0 < numFrames -> 0 <= i -> (0 <= u)%Q -> (u <= 1)%Q ->
  sample_index_rounded val u a numFrames i ->
  let q := (inject_Z i * inject_Z (num_samples a) / inject_Z numFrames)%Q in
  sampleOffs a numFrames i = Qfloor (val (sampleProduct a numFrames i)) /\
  (0 <= q)%Q /\ (0 <= val (sampleProduct a numFrames i))%Q /\
  (q * (1 - u) * (1 - u) <= val (sampleProduct a numFrames i))%Q /\
  (val (sampleProduct a numFrames i) <= q * (1 + u) * (1 + u))%Q.
Proof.
  intros HN Hi Hu0 Hu1 (Hvns & HvN & Hvi & Hdiv & Hmul & Htr) q.
  change (sampleOffs a numFrames i) with (to_uint (sampleProduct a numFrames i)).
  rewrite Htr.
  assert (Hns : (0 <= inject_Z (num_samples a))%Q).
  { change 0%Q with (inject_Z 0). rewrite <- Zle_Qle. unfold num_samples. lia. }
  assert (HNq : (0 < inject_Z numFrames)%Q).
  { change 0%Q with (inject_Z 0). rewrite <- Zlt_Qlt. exact HN. }
  assert (Hiq : (0 <= inject_Z i)%Q).
  { change 0%Q with (inject_Z 0). rewrite <- Zle_Qle. exact Hi. }
  unfold rounds_to in Hdiv, Hmul. rewrite Hvns, HvN in Hdiv. rewrite Hvi in Hmul.
  destruct (rounded_product_bounds u _ _ _ _ _ Hu0 Hu1 Hns HNq Hiq Hdiv Hmul) as [Hlo Hhi].
  fold q in Hlo, Hhi.
  assert (Hq0 : (0 <= q)%Q).
  { subst q. apply Qle_shift_div_l; [exact HNq|].
    assert (0 <= inject_Z i * inject_Z (num_samples a))%Q
      by (apply Qmult_le_0_compat; assumption). lra. }
  assert (Hp0 : (0 <= val (sampleProduct a numFrames i))%Q).
  { assert (0 <= q * (1 - u) * (1 - u))%Q
      by (apply Qmult_le_0_compat; [apply Qmult_le_0_compat|]; lra). lra. }
  rewrite (Qtrunc_nonneg_floor _ Hp0). repeat split; assumption.
Qed.

(** C6 (as amended): the representative sample index of frame [i] is the
    product [(numSamples / numFrames) * i], computed in the type [real]
    and truncated by the conversion to [uint]; nothing rounds it to the
    nearest integer. For an arithmetic whose operations have a relative
    error of at most [u] (a floating-point [real] with unit roundoff [u];
    [u = 0] is exact arithmetic), with [q = i * numSamples / numFrames]:
    - the index lies between [floor (q (1-u)^2)] and [floor (q (1+u)^2)];
    - without rounding error it is [floor q];
    - whenever the fractional part of [q] is one half or more, so that
      rounding to nearest gives [floor q + 1], and [q (1+u)^2] is still
      below [floor q + 1], the index is below the nearest integer. *)
Theorem sample_index_truncated_product {real : Type} `{RealArith real}
    (val : real -> Q) (u : Q) a numFrames i :
  0 < numFrames -> 0 <= i -> (0 <= u)%Q -> (u <= 1)%Q ->
  sample_index_rounded val u a numFrames i ->
  let q := (inject_Z i * inject_Z (num_samples a) / inject_Z numFrames)%Q in
  Qfloor (q * (1 - u) * (1 - u)) <= sampleOffs a numFrames i
                                 <= Qfloor (q * (1 + u) * (1 + u)) /\
  ((u == 0)%Q -> sampleOffs a numFrames i = num_samples a * i / numFrames) /\
  ((q * (1 + u) * (1 + u) < inject_Z (Qfloor q) + 1)%Q ->
   (inject_Z (Qfloor q) + (1 # 2) <= q)%Q ->
   sampleOffs a numFrames i <= Qfloor q /\
   round_nearest q = Qfloor q + 1 /\
   sampleOffs a numFrames i < round_nearest q).
Proof.
  intros HN Hi Hu0 Hu1 Hmodel q.
  destruct (sample_index_band val u a numFrames i HN Hi Hu0 Hu1 Hmodel)
    as (-> & Hq0 & Hp0 & Hlo & Hhi).
  fold q in Hlo, Hhi.
  assert (Hband : Qfloor (q * (1 - u) * (1 - u)) <= Qfloor (val (sampleProduct a numFrames i))
                  <= Qfloor (q * (1 + u) * (1 + u)))
    by (split; apply Qfloor_resp_le; assumption).
  split; [exact Hband|]. split.
  - intros Hu.
    assert (E1 : (q * (1 - u) * (1 - u) == q)%Q) by (rewrite Hu; ring).
    assert (E2 : (q * (1 + u) * (1 + u) == q)%Q) by (rewrite Hu; ring).
    rewrite E1, E2 in Hband.
    unfold q in Hband. rewrite Qfloor_ratio in Hband by exact HN. lia.
  - intros Hbelow Hhalf.
    pose proof (Qfloor_lt_succ _ _ Hbelow) as Hup.
    assert (Hround : round_nearest q = Qfloor q + 1).
    { unfold round_nearest. apply Z.le_antisymm.
      - apply Qfloor_lt_succ. pose proof (Qlt_floor q) as Hf.
        rewrite inject_Z_plus in Hf |- *. change (inject_Z 1) with 1%Q in *. lra.
      - rewrite <- (Qfloor_Z (Qfloor q + 1)). apply Qfloor_resp_le.
        rewrite inject_Z_plus. change (inject_Z 1) with 1%Q. lra. }
    split; [lia|]. split; [exact Hround | lia].
Qed.

Lemma sample_index_truncated_product_witness :
  let a := mkAudioFile true [0; 1000; 0; 0; 0; 0; 0] in
  let b := mkAudioFile true [0; 0] in
  (* binary64, 7 samples and 4 frames, frame 1: 1.75 gives 1, not 2 *)
  (@sample_index_rounded PrimFloat.float binary64 f64_val f64_u a 4 1 /\
   @sampleOffs PrimFloat.float binary64 a 4 1 <= 1 /\
   round_nearest (inject_Z 1 * inject_Z (num_samples a) / inject_Z 4) = 2 /\
   @sampleOffs PrimFloat.float binary64 a 4 1
   < round_nearest (inject_Z 1 * inject_Z (num_samples a) / inject_Z 4)) /\
  (* binary64, 2 samples and 98 frames, frame 49: inside the band, below the floor *)
  (@sample_index_rounded PrimFloat.float binary64 f64_val f64_u b 98 49 /\
   0 <= @sampleOffs PrimFloat.float binary64 b 98 49 <= 1 /\
   @sampleOffs PrimFloat.float binary64 b 98 49 = 0) /\
  (* exact arithmetic: the floor *)
  (@sample_index_rounded Q exact_real (fun q => q) 0 a 4 1 /\
   @sampleOffs Q exact_real a 4 1 = 7 * 1 / 4).
Proof.
  cbv zeta.
  assert (Hu0 : (0 <= f64_u)%Q) by (apply Qle_bool_imp_le; vm_compute; reflexivity).
  assert (Hu1 : (f64_u <= 1)%Q) by (apply Qle_bool_imp_le; vm_compute; reflexivity).
  assert (Ha : @sample_index_rounded PrimFloat.float binary64 f64_val f64_u
                 (mkAudioFile true [0; 1000; 0; 0; 0; 0; 0]) 4 1) by check_rounded.
  assert (Hb : @sample_index_rounded PrimFloat.float binary64 f64_val f64_u
                 (mkAudioFile true [0; 0]) 98 49) by check_rounded.
  assert (He : @sample_index_rounded Q exact_real (fun q => q) 0
                 (mkAudioFile true [0; 1000; 0; 0; 0; 0; 0]) 4 1) by check_rounded.
  split; [|split].
  - destruct (sample_index_truncated_product (H := binary64) f64_val f64_u
                (mkAudioFile true [0; 1000; 0; 0; 0; 0; 0]) 4 1
                ltac:(lia) ltac:(lia) Hu0 Hu1 Ha) as (_ & _ & Hround).
    destruct Hround as (Hle & Hr & Hlt).
    + apply Qlt_alt. vm_compute. reflexivity.
    + apply Qle_bool_imp_le. vm_compute. reflexivity.
    + split; [exact Ha|]. split; [exact Hle|]. split; [|exact Hlt].
      vm_compute. reflexivity.
  - destruct (sample_index_truncated_product (H := binary64) f64_val f64_u
                (mkAudioFile true [0; 0]) 98 49
                ltac:(lia) ltac:(lia) Hu0 Hu1 Hb) as (Hband & _ & _).
    split; [exact Hb|]. split; [exact Hband|]. vm_compute. reflexivity.
  - destruct (sample_index_truncated_product (H := exact_real) (fun q => q) 0
                (mkAudioFile true [0; 1000; 0; 0; 0; 0; 0]) 4 1
                ltac:(lia) ltac:(lia) ltac:(lra) ltac:(lra) He) as (_ & Hexact & _).
    split; [exact He|]. exact (Hexact (Qeq_refl 0)).
Defined.

(** C6 as stated fails: with 7 samples and 4 frames, frame 1 is evaluated
    on sample [1], while [1 * 7 / 4 = 1.75] rounds to [2]. *)
Lemma sample_index_not_rounded :
  let a := mkAudioFile true [0; 1000; 0; 0; 0; 0; 0] in
  In (1, true) (evals_of (@mark_audio_frame_activity Q exact_real (Some a) never (fresh 4))) /\
  @sampleOffs Q exact_real a 4 1 = 1 /\
  round_nearest (inject_Z 1 * inject_Z (num_samples a) / inject_Z 4) = 2 /\
  @sampleOffs Q exact_real a 4 1
  <> round_nearest (inject_Z 1 * inject_Z (num_samples a) / inject_Z 4).
Proof.
  cbv zeta. split; [vm_compute; repeat (first [left; reflexivity | right])|].
  split; [vm_compute; reflexivity|]. split; [vm_compute; reflexivity|].
  vm_compute. discriminate.
Qed.

(** The same frame in binary64: sample 1 again ([7 / 4] and its product
    with 1 are exact). The truncated binary64 product can even fall below
    the exact floor: with 2 samples and 98 frames, frame 49 is evaluated on
    sample 0, while [49 * 2 / 98 = 1]. *)
Lemma sample_index_binary64 :
  @sampleOffs PrimFloat.float binary64 (mkAudioFile true [0; 1000; 0; 0; 0; 0; 0]) 4 1 = 1 /\
  @sampleOffs PrimFloat.float binary64 (mkAudioFile true [0; 0]) 98 49 = 0 /\
  @sampleOffs Q exact_real (mkAudioFile true [0; 0]) 98 49 = 1.
Proof. repeat split; vm_compute; reflexivity. Qed.

(** ** The frame-difference predicate *)

Lemma in_zrange n x : In x (zrange n) <-> 0 <= x < n.
Proof.
  unfold zrange. rewrite in_map_iff. split.
  - intros (k & <- & Hk). apply in_seq in Hk. lia.
  - intros Hx. exists (Z.to_nat x). split; [lia|]. apply in_seq. lia.
Qed.

Lemma pixel_exceeds_sub t a b :
  valid_pixel a -> valid_pixel b -> 0 <= t ->
  pixel_exceeds t (vec_sub a b) = true <->
  ch0 a - ch0 b > t \/ ch1 a - ch1 b > t \/ ch2 a - ch2 b > t.
Proof.
  unfold valid_pixel, pixel_exceeds, vec_sub, saturate_u8. cbn [ch0 ch1 ch2].
  intros Ha Hb Ht. rewrite !orb_true_iff, !Z.gtb_ltb, !Z.ltb_lt.
  destruct (Z.ltb_spec (ch0 a - ch0 b) 0), (Z.ltb_spec 255 (ch0 a - ch0 b)),
    (Z.ltb_spec (ch1 a - ch1 b) 0), (Z.ltb_spec 255 (ch1 a - ch1 b)),
    (Z.ltb_spec (ch2 a - ch2 b) 0), (Z.ltb_spec 255 (ch2 a - ch2 b)); lia.
Qed.

(** What [frames_differ] computes: some channel of some pixel of [frame1]
    is above the same channel of [frame2] by more than the threshold. A
    channel of [frame1] that is below [frame2]'s, by whatever amount,
    leaves no trace in the saturated difference. *)
Lemma frames_differ_brighter frame1 frame2 t :
  rows frame1 = rows frame2 -> cols frame1 = cols frame2 ->
  (forall y x, valid_pixel (px frame1 y x) /\ valid_pixel (px frame2 y x)) ->
  0 <= t ->
  frames_differ frame1 frame2 t = Ok true <->
  exists y x, 0 <= y < rows frame1 /\ 0 <= x < cols frame1 /\
              (ch0 (px frame1 y x) - ch0 (px frame2 y x) > t \/
               ch1 (px frame1 y x) - ch1 (px frame2 y x) > t \/
               ch2 (px frame1 y x) - ch2 (px frame2 y x) > t).
Proof.
  intros Hr Hc Hpx Ht. unfold frames_differ.
  rewrite (proj2 (Z.eqb_eq _ _) Hr), (proj2 (Z.eqb_eq _ _) Hc). cbn [andb mat_sub px].
  split.
  - intros [= He]. apply existsb_exists in He. destruct He as (y & Hy & He).
    apply existsb_exists in He. destruct He as (x & Hx & He).
    apply in_zrange in Hy. apply in_zrange in Hx.
    apply pixel_exceeds_sub in He; [|apply Hpx..|exact Ht].
    exists y, x. auto.
  - intros (y & x & Hy & Hx & He). f_equal.
    apply existsb_exists. exists y. split; [apply in_zrange; lia|].
    apply existsb_exists. exists x. split; [apply in_zrange; lia|].
    apply pixel_exceeds_sub; [apply Hpx..|exact Ht|exact He].
Qed.

(** C1 (the code departs from it): a pixel that is darker in the first
    frame by 100 in one channel, threshold 30. The absolute difference
    exceeds the threshold, yet [frames_differ] answers [false]; with the
    frames exchanged it answers [true]. *)
Theorem frames_differ_one_sided :
  frames_differ (solid 1 1 black) (solid 1 1 grey100) 30 = Ok false /\
  frames_differ (solid 1 1 grey100) (solid 1 1 black) 30 = Ok true /\
  Z.abs (ch0 black - ch0 grey100) > 30.
Proof. repeat split. Qed.

(** ** The start of an active segment *)

(** When the run of active frames starts at frame 2 or later, the search
    returns its first frame. *)
Lemma segment_search_from_2 (s : list activity_type_e) start : forall n fuel closest,
  closest = start + Z.of_nat n -> (n + 2 <= fuel)%nat -> 2 <= start -> closest < 2 ^ 32 ->
  (forall j, start <= j <= closest -> strip_at s j = Some Active) ->
  (exists a, strip_at s (start - 1) = Some a /\ a <> Active) ->
  segment_search fuel s closest = Some (Ok start).
Proof.
  induction n as [|n IH]; intros fuel closest Hc Hfuel Hs Hlt Hact (a & Ha & Hna).
  - destruct fuel as [|[|fuel]]; try lia. cbn [segment_search].
    rewrite Hact by lia. rewrite bool_decide_eq_true_2 by reflexivity.
    rewrite u32_small by lia.
    destruct (Z.eqb_spec (closest - 1) 0); [lia|].
    replace (closest - 1) with (start - 1) by lia. rewrite Ha.
    rewrite bool_decide_eq_false_2 by exact Hna.
    rewrite u32_small by lia. do 2 f_equal. lia.
  - destruct fuel as [|fuel]; try lia. cbn [segment_search].
    rewrite Hact by lia. rewrite bool_decide_eq_true_2 by reflexivity.
    rewrite u32_small by lia.
    destruct (Z.eqb_spec (closest - 1) 0); [lia|].
    apply IH; try lia; [intros j Hj; apply Hact; lia | eauto].
Qed.

(** When frames [1 .. closest] are all active, the search returns 0,
    whatever frame 0 is: it is never looked at. *)
Lemma segment_search_from_1 (s : list activity_type_e) : forall n fuel closest,
  closest = 1 + Z.of_nat n -> (n + 1 <= fuel)%nat -> closest < 2 ^ 32 ->
  (forall j, 1 <= j <= closest -> strip_at s j = Some Active) ->
  segment_search fuel s closest = Some (Ok 0).
Proof.
  induction n as [|n IH]; intros fuel closest Hc Hfuel Hlt Hact;
    (destruct fuel as [|fuel]; [lia|]); cbn [segment_search];
    rewrite Hact by lia; rewrite bool_decide_eq_true_2 by reflexivity;
    rewrite u32_small by lia.
  - subst closest. reflexivity.
  - destruct (Z.eqb_spec (closest - 1) 0); [lia|].
    apply IH; try lia. intros j Hj. apply Hact. lia.
Qed.

(** C3 (the code departs from it): on the strip
    [Inactive, Active, Active, Active, Inactive] the search from frame 2
    returns 0, not the first frame 1 of the run. *)
Theorem segment_start_run_at_1 :
  get_start_of_active_segment
    (mkActivity (info_of 5) [Inactive; Active; Active; Active; Inactive]
                (replicate 5 Uninitialized) None) 2 0
  = Some (Ok 0).
Proof. reflexivity. Qed.

(** ** Entries that are never written, and writes outside the strip *)

(** X13: a video scan that runs to completion has written every entry of
    the video strip: none is left [Uninitialized]. *)
Lemma video_scan_populated capture shouldStop this :
  frame_count_ok (num_frames (videoInfo this)) ->
  Z.of_nat (length (videoFrameIsActive this)) = num_frames (videoInfo this) ->
  exit_of (mark_video_frame_activity capture shouldStop this) = Completed ->
  populated (videoFrameIsActive (object_of (mark_video_frame_activity capture shouldStop this))).
Proof.
  intros Hn Hl. destruct (isOpened capture) eqn:Hopen.
  - destruct (mark_video_eq capture shouldStop this Hopen Hn Hl)
      as (s1 & r & _ & _ & -> & Hpost).
    cbn [exit_of object_of fst snd videoFrameIsActive set_videoFrameIsActive].
    intros He. rewrite He in Hpost. destruct Hpost as (Hlen & _ & Hw & _).
    intros j a Hj. pose proof (strip_at_Some _ _ _ Hj) as Hr.
    destruct (Hw j ltac:(lia)) as [Hi|Ha]; congruence.
  - unfold mark_video_frame_activity. rewrite Hopen. cbn. discriminate.
Qed.

(** X12: the audio scanner never writes outside its strip: whatever the
    samples, the arithmetic of [real] and the stop flag, the scan does not
    end in a range fault of the strip. *)
Lemma audio_scan_writes_in_bounds {real : Type} `{RealArith real}
    extracted shouldStop this idx :
  frame_count_ok (num_frames (videoInfo this)) ->
  Z.of_nat (length (audioFrameIsActive this)) = num_frames (videoInfo this) ->
  exit_of (mark_audio_frame_activity extracted shouldStop this)
  <> Faulted (IndexOutOfRange idx).
Proof.
  intros Hn Hl. destruct (has_valid_audio (extract_audio extracted this)) eqn:Hv.
  - apply has_valid_audio_true in Hv. destruct Hv as (a & Ha & Hvd).
    destruct (mark_audio_eq extracted shouldStop this a Ha Hvd Hn Hl)
      as (r & _ & -> & Hpost).
    cbn [exit_of fst]. destruct Hpost as (_ & _ & Hcase). intros He.
    rewrite He in Hcase. destruct Hcase as (k & Hk). discriminate.
  - rewrite (mark_audio_no_audio extracted shouldStop this Hv). discriminate.
Qed.

(** C4 (the code departs from it): 50 frames, 50 samples, a click in the
    first sample. Frame 0 is loud, the run of [50 / 50 = 1] frame is frame
    0 itself, and the counter moves on to frame 2: the scan completes with
    entry 1 of the audio strip still [Uninitialized]. *)
Theorem audio_scan_skips_entry :
  exit_of (mark_audio_frame_activity (Some (click_track 50 0)) never (fresh 50)) = Completed /\
  strip_at (audioFrameIsActive
              (object_of (mark_audio_frame_activity (Some (click_track 50 0))
                            never (fresh 50)))) 1
  = Some Uninitialized.
Proof. split; vm_compute; reflexivity. Qed.

(** C5 (the code departs from it): in a 50-frame clip whose last frame is
    brighter than the one before, the baseline write after the run goes to
    index 50 of a 50-entry strip; and the backward search started at an
    active frame 0 (as the audio scan above leaves it) reads index
    [2^32 - 1]. *)
Theorem strip_access_out_of_bounds :
  exit_of (mark_video_frame_activity (step_clip 50 49) never (fresh 50))
  = Faulted (IndexOutOfRange 50) /\
  get_start_of_active_segment
    (object_of (mark_audio_frame_activity (Some (click_track 50 0)) never (fresh 50))) 0 1
  = Some (Err (IndexOutOfRange 4294967295)).
Proof. split; vm_compute; reflexivity. Qed.

(** The two audio findings do not depend on exact arithmetic: in binary64
    the same scan skips entry 1 and leaves entry 0 [Active]. *)
Lemma audio_scan_skips_entry_binary64 :
  exit_of (@mark_audio_frame_activity PrimFloat.float binary64
             (Some (click_track 50 0)) never (fresh 50)) = Completed /\
  strip_at (audioFrameIsActive
              (object_of (@mark_audio_frame_activity PrimFloat.float binary64
                            (Some (click_track 50 0)) never (fresh 50)))) 1
  = Some Uninitialized /\
  strip_at (audioFrameIsActive
              (object_of (@mark_audio_frame_activity PrimFloat.float binary64
                            (Some (click_track 50 0)) never (fresh 50)))) 0
  = Some Active.
Proof. repeat split; vm_compute; reflexivity. Qed.

(** * Further properties of the code *)

Lemma fresh_lengths n :
  0 <= n ->
  Z.of_nat (length (videoFrameIsActive (fresh n))) = n /\
  Z.of_nat (length (audioFrameIsActive (fresh n))) = n.
Proof.
  intros Hn. unfold fresh. cbn [videoFrameIsActive audioFrameIsActive].
  rewrite length_replicate. lia.
Qed.

(** ** frames_differ *)

(** X1: on two frames of the same size, [frames_differ] never faults, and
    it answers [true] exactly when some channel of some pixel of the first
    frame is above the same channel of the second frame by more than the
    threshold. *)
Theorem frames_differ_detects_brightening frame1 frame2 t :
  rows frame1 = rows frame2 -> cols frame1 = cols frame2 ->
  valid_Mat frame1 -> valid_Mat frame2 -> 0 <= t ->
  exists b,
    frames_differ frame1 frame2 t = Ok b /\
    (b = true <->
     exists y x, 0 <= y < rows frame1 /\ 0 <= x < cols frame1 /\
                 (ch0 (px frame1 y x) - ch0 (px frame2 y x) > t \/
                  ch1 (px frame1 y x) - ch1 (px frame2 y x) > t \/
                  ch2 (px frame1 y x) - ch2 (px frame2 y x) > t)).
Proof.
  intros Hr Hc H1 H2 Ht.
  pose proof (frames_differ_brighter frame1 frame2 t Hr Hc
                (fun y x => conj (H1 y x) (H2 y x)) Ht) as Hiff.
  destruct (frames_differ frame1 frame2 t) as [b|f] eqn:Hd.
  - exists b. split; [reflexivity|]. rewrite <- Hiff.
    split; [intros ->; reflexivity | intros [= ->]; reflexivity].
  - unfold frames_differ in Hd.
    rewrite (proj2 (Z.eqb_eq _ _) Hr), (proj2 (Z.eqb_eq _ _) Hc) in Hd. discriminate.
Qed.

Lemma frames_differ_detects_brightening_witness :
  valid_Mat (solid 2 2 grey100) /\ valid_Mat (solid 2 2 black) /\
  exists b,
    frames_differ (solid 2 2 grey100) (solid 2 2 black) 30 = Ok b /\
    (b = true <->
     exists y x, 0 <= y < 2 /\ 0 <= x < 2 /\
                 (ch0 (px (solid 2 2 grey100) y x) - ch0 (px (solid 2 2 black) y x) > 30 \/
                  ch1 (px (solid 2 2 grey100) y x) - ch1 (px (solid 2 2 black) y x) > 30 \/
                  ch2 (px (solid 2 2 grey100) y x) - ch2 (px (solid 2 2 black) y x) > 30)).
Proof.
  assert (Hg : valid_Mat (solid 2 2 grey100))
    by (intros y x; unfold valid_pixel; cbn; lia).
  assert (Hb : valid_Mat (solid 2 2 black))
    by (intros y x; unfold valid_pixel; cbn; lia).
  split; [exact Hg|]. split; [exact Hb|].
  apply (frames_differ_detects_brightening (solid 2 2 grey100) (solid 2 2 black) 30);
    [reflexivity | reflexivity | exact Hg | exact Hb | lia].
Defined.

(** X2: a frame that is nowhere brighter than the other one does not
    differ from it, whatever the non-negative threshold and however much
    darker it is; in particular no frame differs from itself. *)
Theorem frames_differ_not_brighter frame1 frame2 t :
  rows frame1 = rows frame2 -> cols frame1 = cols frame2 ->
  valid_Mat frame1 -> valid_Mat frame2 -> 0 <= t ->
  (forall y x, not_brighter (px frame1 y x) (px frame2 y x)) ->
  frames_differ frame1 frame2 t = Ok false.
Proof.
  intros Hr Hc H1 H2 Ht Hnb.
  pose proof (frames_differ_brighter frame1 frame2 t Hr Hc
                (fun y x => conj (H1 y x) (H2 y x)) Ht) as Hiff.
  unfold frames_differ in *.
  rewrite (proj2 (Z.eqb_eq _ _) Hr), (proj2 (Z.eqb_eq _ _) Hc) in *. cbn [andb] in *.
  match goal with |- Ok ?e = _ => destruct e eqn:He end; [|reflexivity].
  destruct (proj1 Hiff eq_refl) as (y & x & _ & _ & Hex).
  destruct (Hnb y x) as (Hn0 & Hn1 & Hn2). lia.
Qed.

Lemma frames_differ_not_brighter_witness :
  valid_Mat (solid 2 2 black) /\ valid_Mat (solid 2 2 grey100) /\
  (forall y x, not_brighter (px (solid 2 2 black) y x) (px (solid 2 2 grey100) y x)) /\
  frames_differ (solid 2 2 black) (solid 2 2 grey100) 30 = Ok false.
Proof.
  assert (Hg : valid_Mat (solid 2 2 grey100))
    by (intros y x; unfold valid_pixel; cbn; lia).
  assert (Hb : valid_Mat (solid 2 2 black))
    by (intros y x; unfold valid_pixel; cbn; lia).
  assert (Hnb : forall y x, not_brighter (px (solid 2 2 black) y x)
                                         (px (solid 2 2 grey100) y x))
    by (intros y x; unfold not_brighter; cbn; lia).
  split; [exact Hb|]. split; [exact Hg|]. split; [exact Hnb|].
  apply (frames_differ_not_brighter (solid 2 2 black) (solid 2 2 grey100) 30);
    [reflexivity | reflexivity | exact Hb | exact Hg | lia | exact Hnb].
Defined.

(** X3: lowering the threshold never loses a difference: two frames that
    differ under a threshold differ under every smaller non-negative one. *)
Theorem frames_differ_threshold_antitone frame1 frame2 t t' :
  valid_Mat frame1 -> valid_Mat frame2 -> 0 <= t' <= t ->
  frames_differ frame1 frame2 t = Ok true ->
  frames_differ frame1 frame2 t' = Ok true.
Proof.
  intros H1 H2 Ht Hd.
  assert (Hdim : rows frame1 = rows frame2 /\ cols frame1 = cols frame2).
  { unfold frames_differ in Hd.
    destruct (Z.eqb_spec (rows frame1) (rows frame2)),
      (Z.eqb_spec (cols frame1) (cols frame2)); cbn in Hd; try discriminate. auto. }
  destruct Hdim as [Hr Hc].
  apply (frames_differ_brighter frame1 frame2 t Hr Hc
           (fun y x => conj (H1 y x) (H2 y x))) in Hd; [|lia].
  apply (frames_differ_brighter frame1 frame2 t' Hr Hc
           (fun y x => conj (H1 y x) (H2 y x))); [lia|].
  destruct Hd as (y & x & Hy & Hx & He). exists y, x. repeat split; try lia.
Qed.

Lemma frames_differ_threshold_antitone_witness :
  valid_Mat (solid 2 2 grey100) /\ valid_Mat (solid 2 2 black) /\ 0 <= 30 <= 99 /\
  frames_differ (solid 2 2 grey100) (solid 2 2 black) 99 = Ok true /\
  frames_differ (solid 2 2 grey100) (solid 2 2 black) 30 = Ok true.
Proof.
  assert (Hg : valid_Mat (solid 2 2 grey100))
    by (intros y x; unfold valid_pixel; cbn; lia).
  assert (Hb : valid_Mat (solid 2 2 black))
    by (intros y x; unfold valid_pixel; cbn; lia).
  split; [exact Hg|]. split; [exact Hb|]. split; [lia|]. split; [reflexivity|].
  apply (frames_differ_threshold_antitone (solid 2 2 grey100) (solid 2 2 black) 99 30);
    [exact Hg | exact Hb | lia | reflexivity].
Defined.

(** ** The constructor and is_active_frame_at *)

(** X4: for an index inside both strips, [is_active_frame_at] answers on
    every track; the answer for the video (0) or audio (1) track is [true]
    exactly when that strip's entry is [Active], and the answer for track 2
    is the disjunction of the two. *)
Theorem is_active_frame_at_tracks this offs :
  0 <= offs < Z.of_nat (length (videoFrameIsActive this)) ->
  0 <= offs < Z.of_nat (length (audioFrameIsActive this)) ->
  exists v a,
    is_active_frame_at this offs 0 = Ok v /\
    is_active_frame_at this offs 1 = Ok a /\
    is_active_frame_at this offs 2 = Ok (a || v) /\
    (v = true <-> strip_at (videoFrameIsActive this) offs = Some Active) /\
    (a = true <-> strip_at (audioFrameIsActive this) offs = Some Active).
Proof.
  intros Hv Ha.
  destruct (strip_at_in_range _ _ Hv) as [ev Hev].
  destruct (strip_at_in_range _ _ Ha) as [ea Hea].
  exists (bool_decide (ev = Active)), (bool_decide (ea = Active)).
  unfold is_active_frame_at. cbn [Z.eqb]. rewrite Hev, Hea.
  split; [reflexivity|]. split; [reflexivity|]. split.
  - destruct (bool_decide (ea = Active)); reflexivity.
  - rewrite !bool_decide_eq_true. split; split; congruence.
Qed.

Lemma is_active_frame_at_tracks_witness :
  let this := mkActivity (info_of 3) [Inactive; Active; Inactive]
                         [Active; Inactive; Inactive] None in
  0 <= 1 < Z.of_nat (length (videoFrameIsActive this)) /\
  exists v a,
    is_active_frame_at this 1 0 = Ok v /\
    is_active_frame_at this 1 1 = Ok a /\
    is_active_frame_at this 1 2 = Ok (a || v) /\
    (v = true <-> strip_at (videoFrameIsActive this) 1 = Some Active) /\
    (a = true <-> strip_at (audioFrameIsActive this) 1 = Some Active).
Proof.
  cbv zeta. split; [cbn; lia|].
  apply (is_active_frame_at_tracks
           (mkActivity (info_of 3) [Inactive; Active; Inactive]
                       [Active; Inactive; Inactive] None) 1); cbn; lia.
Defined.

(** X5: a track number other than 0, 1 and 2 is the unknown-track fault
    whatever the index and the strips; on track 0 an index outside the
    video strip is a range fault, on tracks 1 and 2 an index outside the
    audio strip is one, and on track 2 so is an index outside the video
    strip whose audio entry is not [Active] (the video strip is read only
    then). *)
Theorem is_active_frame_at_faults this offs track :
  (track <> 0 -> track <> 1 -> track <> 2 ->
   is_active_frame_at this offs track = Err UnknownTrack) /\
  (~ (0 <= offs < Z.of_nat (length (videoFrameIsActive this))) ->
   is_active_frame_at this offs 0 = Err (IndexOutOfRange offs)) /\
  (~ (0 <= offs < Z.of_nat (length (audioFrameIsActive this))) ->
   is_active_frame_at this offs 1 = Err (IndexOutOfRange offs) /\
   is_active_frame_at this offs 2 = Err (IndexOutOfRange offs)) /\
  (~ (0 <= offs < Z.of_nat (length (videoFrameIsActive this))) ->
   strip_at (audioFrameIsActive this) offs <> Some Active ->
   is_active_frame_at this offs 2 = Err (IndexOutOfRange offs)).
Proof.
  unfold is_active_frame_at. split; [|split; [|split]].
  - intros H0 H1 H2.
    destruct (Z.eqb_spec track 0); [contradiction|].
    destruct (Z.eqb_spec track 1); [contradiction|].
    destruct (Z.eqb_spec track 2); [contradiction|]. reflexivity.
  - intros Hv. cbn [Z.eqb]. rewrite (strip_at_None _ _ Hv). reflexivity.
  - intros Ha. cbn [Z.eqb]. rewrite (strip_at_None _ _ Ha). split; reflexivity.
  - intros Hv Ha. cbn [Z.eqb]. rewrite (strip_at_None _ _ Hv).
    destruct (strip_at (audioFrameIsActive this) offs) as [e|]; [|reflexivity].
    destruct (bool_decide (e = Active)) eqn:He; [|reflexivity].
    apply bool_decide_eq_true in He. congruence.
Qed.

Lemma is_active_frame_at_faults_witness :
  let this := mkActivity (info_of 3) [Inactive; Active] [Active; Inactive; Inactive] None in
  is_active_frame_at this 1 3 = Err UnknownTrack /\
  is_active_frame_at this 7 3 = Err UnknownTrack /\
  is_active_frame_at this 2 0 = Err (IndexOutOfRange 2) /\
  is_active_frame_at this 3 1 = Err (IndexOutOfRange 3) /\
  is_active_frame_at this 3 2 = Err (IndexOutOfRange 3) /\
  is_active_frame_at this 2 2 = Err (IndexOutOfRange 2) /\
  is_active_frame_at this 1 2 = Ok true.
Proof.
  cbv zeta.
  pose (this := mkActivity (info_of 3) [Inactive; Active] [Active; Inactive; Inactive] None).
  split; [apply (proj1 (is_active_frame_at_faults this 1 3)); lia|].
  split; [apply (proj1 (is_active_frame_at_faults this 7 3)); lia|].
  split; [apply (proj1 (proj2 (is_active_frame_at_faults this 2 0))); cbn; lia|].
  assert (Ha : ~ (0 <= 3 < Z.of_nat (length (audioFrameIsActive this)))) by (cbn; lia).
  split; [exact (proj1 (proj1 (proj2 (proj2 (is_active_frame_at_faults this 3 1))) Ha))|].
  split; [exact (proj2 (proj1 (proj2 (proj2 (is_active_frame_at_faults this 3 1))) Ha))|].
  split; [|reflexivity].
  apply (proj2 (proj2 (proj2 (is_active_frame_at_faults this 2 0))));
    [cbn; lia | cbn; discriminate].
Defined.

(** X6: for a valid video the constructor fails exactly when the frame
    count is not positive; otherwise it gives an object whose two strips
    have one entry per frame, on which no frame reads as active on any
    track and no audio is registered. *)
Theorem construct_no_activity info :
  is_valid_video info = true ->
  (num_frames info <= 0 -> construct info = Err NoFrames) /\
  (0 < num_frames info ->
   exists this,
     construct info = Ok this /\
     Z.of_nat (length (videoFrameIsActive this)) = num_frames info /\
     Z.of_nat (length (audioFrameIsActive this)) = num_frames info /\
     has_valid_audio this = false /\
     forall offs track,
       0 <= offs < num_frames info -> 0 <= track <= 2 ->
       is_active_frame_at this offs track = Ok false).
Proof.
  intros Hv. split.
  - intros Hn. unfold construct. rewrite Hv. cbn [negb].
    destruct (Z.gtb_spec (num_frames info) 0); [lia | reflexivity].
  - intros Hn. unfold construct. rewrite Hv. cbn [negb].
    destruct (Z.gtb_spec (num_frames info) 0); [|lia].
    eexists. split; [reflexivity|]. cbn [videoFrameIsActive audioFrameIsActive].
    rewrite length_replicate. split; [lia|]. split; [lia|]. split; [reflexivity|].
    intros offs track Ho Ht. unfold is_active_frame_at.
    cbn [videoFrameIsActive audioFrameIsActive].
    rewrite strip_at_replicate by lia.
    assert (track = 0 \/ track = 1 \/ track = 2) as [-> | [-> | ->]] by lia; reflexivity.
Qed.

Lemma construct_no_activity_witness :
  is_valid_video (info_of 5) = true /\ 0 < num_frames (info_of 5) /\
  exists this,
    construct (info_of 5) = Ok this /\
    Z.of_nat (length (videoFrameIsActive this)) = 5 /\
    Z.of_nat (length (audioFrameIsActive this)) = 5 /\
    has_valid_audio this = false /\
    forall offs track,
      0 <= offs < 5 -> 0 <= track <= 2 ->
      is_active_frame_at this offs track = Ok false.
Proof.
  split; [reflexivity|]. split; [cbn; lia|].
  apply (proj2 (construct_no_activity (info_of 5) eq_refl)). cbn. lia.
Defined.

(** ** get_start_of_active_segment *)

Lemma get_start_unfold this startFrameIdx videoOrAudio :
  get_start_of_active_segment this startFrameIdx videoOrAudio
  = segment_search (S (S (Z.to_nat startFrameIdx))) (track_strip this videoOrAudio)
      startFrameIdx.
Proof. reflexivity. Qed.

(** X7: when the run of active frames around frame [i] starts at frame
    [start >= 2] (the frames [start .. i] are active, frame [start - 1] is
    not), the search returns [start]. *)
Theorem segment_start_found this i videoOrAudio start :
  2 <= start <= i -> i < 2 ^ 32 ->
  (forall j, start <= j <= i -> strip_at (track_strip this videoOrAudio) j = Some Active) ->
  (exists a, strip_at (track_strip this videoOrAudio) (start - 1) = Some a /\ a <> Active) ->
  get_start_of_active_segment this i videoOrAudio = Some (Ok start).
Proof.
  intros Hs Hi Hact Hbelow. rewrite get_start_unfold.
  apply (segment_search_from_2 _ start (Z.to_nat (i - start))); try lia; assumption.
Qed.

Lemma segment_start_found_witness :
  let this := mkActivity (info_of 6) [Inactive; Inactive; Active; Active; Active; Inactive]
                         (replicate 6 Uninitialized) None in
  2 <= 2 <= 4 /\ 4 < 2 ^ 32 /\
  get_start_of_active_segment this 4 0 = Some (Ok 2).
Proof.
  cbv zeta. split; [lia|]. split; [lia|].
  apply (segment_start_found
           (mkActivity (info_of 6) [Inactive; Inactive; Active; Active; Active; Inactive]
                       (replicate 6 Uninitialized) None) 4 0 2); try lia.
  - intros j Hj.
    assert (j = 2 \/ j = 3 \/ j = 4) as [-> | [-> | ->]] by lia; reflexivity.
  - exists Inactive. split; [reflexivity | discriminate].
Defined.

(** X8: when the frames [1 .. i] are all active, the search returns 0
    without looking at frame 0, be it active or not. *)
Theorem segment_start_zero this i videoOrAudio :
  1 <= i < 2 ^ 32 ->
  (forall j, 1 <= j <= i -> strip_at (track_strip this videoOrAudio) j = Some Active) ->
  get_start_of_active_segment this i videoOrAudio = Some (Ok 0).
Proof.
  intros Hi Hact. rewrite get_start_unfold.
  apply (segment_search_from_1 _ (Z.to_nat (i - 1))); try lia. exact Hact.
Qed.

Lemma segment_start_zero_witness :
  let this := mkActivity (info_of 4) (replicate 4 Uninitialized)
                         [Active; Active; Active; Inactive] None in
  1 <= 2 < 2 ^ 32 /\ get_start_of_active_segment this 2 1 = Some (Ok 0).
Proof.
  cbv zeta. split; [lia|].
  apply (segment_start_zero
           (mkActivity (info_of 4) (replicate 4 Uninitialized)
                       [Active; Active; Active; Inactive] None) 2 1); [lia|].
  intros j Hj. assert (j = 1 \/ j = 2) as [-> | ->] by lia; reflexivity.
Defined.

(** X9: started at an active frame 0, the search steps below 0, which for
    the unsigned index is [2^32 - 1], and faults on reading that entry. *)
Theorem segment_start_at_frame_0 this videoOrAudio :
  strip_at (track_strip this videoOrAudio) 0 = Some Active ->
  Z.of_nat (length (track_strip this videoOrAudio)) < 2 ^ 32 ->
  get_start_of_active_segment this 0 videoOrAudio
  = Some (Err (IndexOutOfRange (2 ^ 32 - 1))).
Proof.
  intros H0 Hlen. rewrite get_start_unfold. cbn [Z.to_nat segment_search].
  rewrite H0. rewrite bool_decide_eq_true_2 by reflexivity.
  change (u32 (0 - 1)) with 4294967295. cbn [Z.eqb].
  rewrite strip_at_None by lia. reflexivity.
Qed.

Lemma segment_start_at_frame_0_witness :
  let this := mkActivity (info_of 3) (replicate 3 Uninitialized)
                         [Active; Inactive; Inactive] None in
  strip_at (track_strip this 1) 0 = Some Active /\
  get_start_of_active_segment this 0 1 = Some (Err (IndexOutOfRange (2 ^ 32 - 1))).
Proof.
  cbv zeta. split; [reflexivity|].
  apply (segment_start_at_frame_0
           (mkActivity (info_of 3) (replicate 3 Uninitialized)
                       [Active; Inactive; Inactive] None) 1); [reflexivity | cbn; lia].
Defined.

(** X10: the search does not check that the frame it is given is active:
    on a frame that is not, it returns the next index; and an index
    outside the strip is a range fault. *)
Theorem segment_start_inactive_index this i videoOrAudio :
  Z.of_nat (length (track_strip this videoOrAudio)) < 2 ^ 32 ->
  strip_at (track_strip this videoOrAudio) i <> Some Active ->
  get_start_of_active_segment this i videoOrAudio
  = match strip_at (track_strip this videoOrAudio) i with
    | Some _ => Some (Ok (i + 1))
    | None => Some (Err (IndexOutOfRange i))
    end.
Proof.
  intros Hlen Hna. rewrite get_start_unfold. cbn [segment_search].
  destruct (strip_at (track_strip this videoOrAudio) i) as [a|] eqn:Hat; [|reflexivity].
  rewrite bool_decide_eq_false_2 by congruence.
  apply strip_at_Some in Hat. rewrite u32_small by lia. reflexivity.
Qed.

Lemma segment_start_inactive_index_witness :
  let this := mkActivity (info_of 3) [Inactive; Active; Inactive]
                         (replicate 3 Uninitialized) None in
  strip_at (track_strip this 0) 2 <> Some Active /\
  get_start_of_active_segment this 2 0 = Some (Ok 3) /\
  get_start_of_active_segment this 7 0 = Some (Err (IndexOutOfRange 7)).
Proof.
  cbv zeta. split; [discriminate|]. split.
  - apply (segment_start_inactive_index
             (mkActivity (info_of 3) [Inactive; Active; Inactive]
                         (replicate 3 Uninitialized) None) 2 0); [cbn; lia | discriminate].
  - apply (segment_start_inactive_index
             (mkActivity (info_of 3) [Inactive; Active; Inactive]
                         (replicate 3 Uninitialized) None) 7 0); [cbn; lia | discriminate].
Defined.

(** The search below an all-active stretch [closest + 1 .. i]. *)
Lemma segment_search_post (s : list activity_type_e) i r :
  Z.of_nat (length s) < 2 ^ 32 ->
  forall fuel closest,
    0 <= closest <= i ->
    (forall j, closest < j <= i -> strip_at s j = Some Active) ->
    (closest = i -> strip_at s closest = Some Active) ->
    (closest < i -> 1 <= closest) ->
    segment_search fuel s closest = Some (Ok r) ->
    r <> 1 /\ 0 <= r <= i /\
    (forall j, Z.max r 1 <= j <= i -> strip_at s j = Some Active) /\
    (2 <= r -> exists a, strip_at s (r - 1) = Some a /\ a <> Active).
Proof.
  intros Hlen. induction fuel as [|fuel IH]; intros closest Hc Habove Htop Hlow Hrun;
    cbn [segment_search] in Hrun; [discriminate|].
  destruct (strip_at s closest) as [a|] eqn:Hat; [|discriminate].
  destruct (bool_decide (a = Active)) eqn:Ha.
  - apply bool_decide_eq_true in Ha. subst a.
    assert (Hall : forall j, closest <= j <= i -> strip_at s j = Some Active).
    { intros j Hj. destruct (Z.eq_dec j closest) as [->|]; [exact Hat | apply Habove; lia]. }
    destruct (Z.eq_dec closest 0) as [->|Hpos].
    + change (u32 (0 - 1)) with 4294967295 in Hrun. cbn [Z.eqb] in Hrun.
      destruct fuel as [|fuel]; [discriminate|]. cbn [segment_search] in Hrun.
      rewrite strip_at_None in Hrun by lia. discriminate.
    + rewrite u32_small in Hrun by (apply strip_at_Some in Hat; lia).
      destruct (Z.eqb_spec (closest - 1) 0) as [H0|H0].
      * injection Hrun as <-. split; [lia|]. split; [lia|]. split; [|lia].
        intros j Hj. apply Hall. lia.
      * apply IH in Hrun; try lia; [exact Hrun|].
        intros j Hj. apply Hall. lia.
  - apply bool_decide_eq_false in Ha.
    assert (Hci : closest < i).
    { destruct (Z.eq_dec closest i) as [He|]; [|lia].
      pose proof (Htop He) as Ht. congruence. }
    rewrite u32_small in Hrun by (apply strip_at_Some in Hat; lia).
    injection Hrun as <-. specialize (Hlow Hci).
    split; [lia|]. split; [lia|]. split.
    + intros j Hj. apply Habove. lia.
    + intros _. replace (closest + 1 - 1) with closest by lia. eauto.
Qed.

(** X11: what a returned start [r] is worth, for an active frame [i]: the
    search always ends; [r] is at most [i] and never 1; the frames from
    [max r 1] to [i] are all active; and when [r >= 2], frame [r - 1] is
    not active. *)
Theorem segment_start_result this i videoOrAudio :
  Z.of_nat (length (videoFrameIsActive this)) < 2 ^ 32 ->
  Z.of_nat (length (audioFrameIsActive this)) < 2 ^ 32 ->
  strip_at (track_strip this videoOrAudio) i = Some Active ->
  get_start_of_active_segment this i videoOrAudio <> None /\
  forall r, get_start_of_active_segment this i videoOrAudio = Some (Ok r) ->
    r <> 1 /\ 0 <= r <= i /\
    (forall j, Z.max r 1 <= j <= i ->
               strip_at (track_strip this videoOrAudio) j = Some Active) /\
    (2 <= r -> exists a, strip_at (track_strip this videoOrAudio) (r - 1) = Some a /\
                         a <> Active).
Proof.
  intros Hv Ha Hact. pose proof (strip_at_Some _ _ _ Hact) as Hi. split.
  - apply get_start_of_active_segment_terminates; [lia | exact Hv | exact Ha].
  - intros r Hr. rewrite get_start_unfold in Hr.
    assert (Hlen : Z.of_nat (length (track_strip this videoOrAudio)) < 2 ^ 32)
      by (unfold track_strip; destruct (videoOrAudio =? 0); assumption).
    apply (segment_search_post _ i r Hlen _ i) in Hr; try lia; [exact Hr | auto].
Qed.

Lemma segment_start_result_witness :
  let this := mkActivity (info_of 6) [Inactive; Inactive; Active; Active; Active; Inactive]
                         (replicate 6 Uninitialized) None in
  strip_at (track_strip this 0) 3 = Some Active /\
  get_start_of_active_segment this 3 0 <> None /\
  forall r, get_start_of_active_segment this 3 0 = Some (Ok r) ->
    r <> 1 /\ 0 <= r <= 3 /\
    (forall j, Z.max r 1 <= j <= 3 -> strip_at (track_strip this 0) j = Some Active) /\
    (2 <= r -> exists a, strip_at (track_strip this 0) (r - 1) = Some a /\ a <> Active).
Proof.
  cbv zeta. split; [reflexivity|].
  apply (segment_start_result
           (mkActivity (info_of 6) [Inactive; Inactive; Active; Active; Active; Inactive]
                       (replicate 6 Uninitialized) None) 3 0);
    [cbn; lia | cbn; lia | reflexivity].
Defined.

(** ** The scanners *)

Lemma audio_scan_writes_in_bounds_witness :
  frame_count_ok (num_frames (videoInfo (fresh 50))) /\
  exit_of (@mark_audio_frame_activity Q exact_real (Some (click_track 50 49)) never (fresh 50))
  <> Faulted (IndexOutOfRange 50).
Proof.
  assert (Hn : frame_count_ok (num_frames (videoInfo (fresh 50))))
    by (unfold frame_count_ok; cbn; lia).
  split; [exact Hn|].
  apply (audio_scan_writes_in_bounds (real := Q) (Some (click_track 50 49)) never
           (fresh 50) 50 Hn).
  apply (fresh_lengths 50). lia.
Defined.

Lemma video_scan_populated_witness :
  frame_count_ok (num_frames (videoInfo (fresh 50))) /\
  exit_of (mark_video_frame_activity (step_clip 50 1) never (fresh 50)) = Completed /\
  populated (videoFrameIsActive
               (object_of (mark_video_frame_activity (step_clip 50 1) never (fresh 50)))).
Proof.
  assert (Hn : frame_count_ok (num_frames (videoInfo (fresh 50))))
    by (unfold frame_count_ok; cbn; lia).
  assert (He : exit_of (mark_video_frame_activity (step_clip 50 1) never (fresh 50))
               = Completed) by (vm_compute; reflexivity).
  split; [exact Hn|]. split; [exact He|].
  apply (video_scan_populated (step_clip 50 1) never (fresh 50) Hn);
    [apply (fresh_lengths 50); lia | exact He].
Defined.

(** X14: both scans end: with the frame count in range, neither loop, whose
    counter the coalescing run moves inside the body, goes on forever. *)
Theorem scans_terminate {real : Type} `{RealArith real}
    extracted capture shouldStop this :
  frame_count_ok (num_frames (videoInfo this)) ->
  Z.of_nat (length (audioFrameIsActive this)) = num_frames (videoInfo this) ->
  Z.of_nat (length (videoFrameIsActive this)) = num_frames (videoInfo this) ->
  exit_of (mark_audio_frame_activity extracted shouldStop this) <> OutOfFuel /\
  exit_of (mark_video_frame_activity capture shouldStop this) <> OutOfFuel.
Proof.
  intros Hn Hla Hlv. split.
  - apply mark_audio_terminates; assumption.
  - apply mark_video_terminates; assumption.
Qed.

Lemma scans_terminate_witness :
  frame_count_ok (num_frames (videoInfo (fresh 50))) /\
  exit_of (@mark_audio_frame_activity Q exact_real (Some (click_track 50 0)) never (fresh 50))
  <> OutOfFuel /\
  exit_of (mark_video_frame_activity (step_clip 50 1) never (fresh 50)) <> OutOfFuel.
Proof.
  assert (Hn : frame_count_ok (num_frames (videoInfo (fresh 50))))
    by (unfold frame_count_ok; cbn; lia).
  split; [exact Hn|].
  apply (scans_terminate (real := Q) (Some (click_track 50 0)) (step_clip 50 1) never
           (fresh 50) Hn); apply (fresh_lengths 50); lia.
Defined.

(** X15: each scanner writes its own strip only and keeps its length: the
    audio scan leaves the video strip as it was, the video scan leaves the
    audio strip and the registered audio as they were, and both strips
    still have one entry per frame afterwards. *)
Theorem scanners_keep_to_their_strip {real : Type} `{RealArith real}
    extracted capture shouldStop this :
  frame_count_ok (num_frames (videoInfo this)) ->
  Z.of_nat (length (audioFrameIsActive this)) = num_frames (videoInfo this) ->
  Z.of_nat (length (videoFrameIsActive this)) = num_frames (videoInfo this) ->
  videoFrameIsActive (object_of (mark_audio_frame_activity extracted shouldStop this))
  = videoFrameIsActive this /\
  Z.of_nat (length (audioFrameIsActive
                      (object_of (mark_audio_frame_activity extracted shouldStop this))))
  = num_frames (videoInfo this) /\
  audioFrameIsActive (object_of (mark_video_frame_activity capture shouldStop this))
  = audioFrameIsActive this /\
  audio (object_of (mark_video_frame_activity capture shouldStop this)) = audio this /\
  Z.of_nat (length (videoFrameIsActive
                      (object_of (mark_video_frame_activity capture shouldStop this))))
  = num_frames (videoInfo this).
Proof.
  intros Hn Hla Hlv.
  destruct (extract_audio_strips extracted this) as (_ & Hsv & _).
  assert (Haudio :
    videoFrameIsActive (object_of (mark_audio_frame_activity extracted shouldStop this))
    = videoFrameIsActive this /\
    Z.of_nat (length (audioFrameIsActive
                        (object_of (mark_audio_frame_activity extracted shouldStop this))))
    = num_frames (videoInfo this)).
  { destruct (has_valid_audio (extract_audio extracted this)) eqn:Hv.
    - apply has_valid_audio_true in Hv. destruct Hv as (a & Ha & Hvd).
      destruct (mark_audio_eq extracted shouldStop this a Ha Hvd Hn Hla)
        as (r & _ & -> & Hpost).
      cbn [object_of fst snd videoFrameIsActive audioFrameIsActive set_audioFrameIsActive].
      split; [exact Hsv | apply Hpost].
    - rewrite (mark_audio_no_audio extracted shouldStop this Hv).
      cbn [object_of fst snd videoFrameIsActive audioFrameIsActive set_audioFrameIsActive].
      split; [exact Hsv | rewrite length_replicate; exact Hla]. }
  destruct Haudio as [Ha1 Ha2]. split; [exact Ha1|]. split; [exact Ha2|].
  destruct (isOpened capture) eqn:Hopen.
  - destruct (mark_video_eq capture shouldStop this Hopen Hn Hlv)
      as (s1 & r & _ & _ & -> & Hpost).
    cbn [object_of fst snd videoFrameIsActive audioFrameIsActive audio
         set_videoFrameIsActive].
    split; [reflexivity|]. split; [reflexivity | apply Hpost].
  - unfold mark_video_frame_activity. rewrite Hopen.
    cbn [object_of fst snd]. split; [reflexivity|]. split; [reflexivity | exact Hlv].
Qed.

Lemma scanners_keep_to_their_strip_witness :
  frame_count_ok (num_frames (videoInfo (fresh 50))) /\
  videoFrameIsActive
    (object_of (@mark_audio_frame_activity Q exact_real (Some (click_track 50 0))
                  never (fresh 50)))
  = videoFrameIsActive (fresh 50) /\
  audioFrameIsActive (object_of (mark_video_frame_activity (step_clip 50 1) never (fresh 50)))
  = audioFrameIsActive (fresh 50).
Proof.
  assert (Hn : frame_count_ok (num_frames (videoInfo (fresh 50))))
    by (unfold frame_count_ok; cbn; lia).
  destruct (scanners_keep_to_their_strip (real := Q) (Some (click_track 50 0))
              (step_clip 50 1) never (fresh 50) Hn
              (proj2 (fresh_lengths 50 ltac:(lia))) (proj1 (fresh_lengths 50 ltac:(lia))))
    as (H1 & _ & H3 & _).
  split; [exact Hn|]. split; [exact H1 | exact H3].
Defined.

(** ** What an iteration of the video scanner records and marks *)

Lemma frame_at_frames v v' k :
  cap_frames v' = cap_frames v -> frame_at v' k = frame_at v k.
Proof. intros Hf. unfold frame_at, cap_read, cap_set_pos. cbn. rewrite Hf. reflexivity. Qed.

Lemma cap_read_frame_at v :
  fst (cap_read v) = frame_at v (cap_pos v) /\
  cap_frames (snd (cap_read v)) = cap_frames v /\
  cap_pos (snd (cap_read v)) = cap_pos v + 1.
Proof. unfold frame_at, cap_read, cap_set_pos. cbn. repeat split. Qed.

Section VideoBodyTrace.
Variables (info : video_info_c) (timeGranularity : Z).
Hypothesis Hn : num_frames info + timeGranularity < 2 ^ 32.
Hypothesis Hg : 0 <= timeGranularity.

(** Whether the iteration goes through or faults: either it has recorded
    nothing and written nothing, or it has recorded the verdict of
    [frames_differ] on the frame just read and the frame read before, and
    every new [Active] entry lies in the run that verdict started. *)
Lemma video_body_trace i st :
  0 <= i < num_frames info ->
  Z.of_nat (length (strip (v_scan st))) = num_frames info ->
  forall st',
    (exists i', video_body info timeGranularity i st = Next i' st') \/
    (exists f, video_body info timeGranularity i st = Abort f st') ->
    v_scan st' = v_scan st \/
    exists differ,
      frames_differ (fst (cap_read (video st))) (thisFrame st) 30 = Ok differ /\
      evals (v_scan st') = (i, differ) :: evals (v_scan st) /\
      forall j, strip_at (strip (v_scan st')) j = Some Active ->
                strip_at (strip (v_scan st)) j = Some Active \/
                (differ = true /\ i <= j < i + timeGranularity).
Proof.
  intros Hi Hl st' [[i' Hb] | [f Hb]].
  - right. apply video_body_Next in Hb; [|lia..|exact Hl].
    destruct Hb as (differ & Hd & Hev & _ & Hi' & _ & Hat).
    exists differ. split; [exact Hd|]. split; [exact Hev|].
    intros j Hj. rewrite Hat in Hj.
    destruct differ; cbn [andb] in Hj.
    + destruct (Z.leb_spec i j), (Z.ltb_spec j i'); cbn [andb] in Hj;
        try (right; split; [reflexivity | lia]);
        (destruct (j =? i'); [discriminate | left; exact Hj]).
    + destruct (j =? i'); [discriminate | left; exact Hj].
  - unfold video_body in Hb.
    repeat match type of Hb with
           | (if negb ?c then _ else _) = _ =>
               destruct c; cbn [negb] in Hb; [|injection Hb as <- <-; left; reflexivity]
           end.
    destruct (frames_differ _ _ 30) as [differ|] eqn:Hd.
    2:{ injection Hb as <- <-. left. reflexivity. }
    destruct (strip_set (strip (v_scan st)) i _) as [s1|] eqn:Hset.
    2:{ injection Hb as <- <-. left. reflexivity. }
    apply strip_set_Some in Hset. destruct Hset as (_ & Hl1 & Hat1).
    rewrite Hat1, Z.eqb_refl in Hb.
    destruct differ; cbn in Hb; [|discriminate].
    destruct (mark_run _ i s1) as [[f2 i2] s2] eqn:Hrun.
    apply mark_run_spec in Hrun; [|lia|lia].
    rewrite numFramesToSkip_min, Z2Nat.id in Hrun by lia.
    destruct Hrun as (Hl2 & Hb2 & Hub & Hat2 & Hf).
    assert (Hsound : 1 <= timeGranularity ->
              forall j, strip_at s2 j = Some Active ->
              strip_at (strip (v_scan st)) j = Some Active \/
              (true = true /\ i <= j < i + timeGranularity)).
    { intros Hg1 j Hj. rewrite Hat2, Hat1 in Hj.
      destruct (Z.leb_spec i j), (Z.ltb_spec j i2); cbn [andb] in Hj;
        try (right; split; [reflexivity | lia]);
        (destruct (Z.eqb_spec j i); [right; split; [reflexivity | lia] | left; exact Hj]). }
    right. exists true. split; [reflexivity|].
    destruct f2 as [e|].
    + injection Hb as <- <-. cbn. split; [reflexivity | apply Hsound; lia].
    + destruct (strip_set s2 i2 Inactive) as [s3|] eqn:Hset3; [discriminate|].
      apply strip_set_None in Hset3.
      injection Hb as <- <-. cbn. split; [reflexivity | apply Hsound; lia].
Qed.

(** After an iteration that goes through, the capture stands behind the
    frame the counter is on, and that frame is the one kept for the next
    comparison. *)
Lemma video_body_capture i st i' st' :
  0 <= i < num_frames info ->
  Z.of_nat (length (strip (v_scan st))) = num_frames info ->
  cap_pos (video st) = i ->
  video_body info timeGranularity i st = Next i' st' ->
  cap_frames (video st') = cap_frames (video st) /\
  cap_pos (video st') = i' + 1 /\
  thisFrame st' = frame_at (video st) i'.
Proof.
  intros Hi Hl Hpos Hb. unfold video_body in Hb.
  repeat match type of Hb with
         | (if negb ?c then _ else _) = _ => destruct c; cbn [negb] in Hb; [|discriminate]
         end.
  destruct (frames_differ _ _ 30) as [differ|]; [|discriminate].
  destruct (strip_set (strip (v_scan st)) i _) as [s1|] eqn:Hset; [|discriminate].
  apply strip_set_Some in Hset. destruct Hset as (_ & Hl1 & Hat1).
  rewrite Hat1, Z.eqb_refl in Hb.
  destruct (cap_read_frame_at (video st)) as (Hrf & Hrfr & Hrp).
  destruct differ; cbn in Hb.
  - destruct (mark_run _ i s1) as [[f i2] s2] eqn:Hrun.
    destruct f as [e|]; [discriminate|].
    destruct (strip_set s2 i2 Inactive) as [s3|]; [|discriminate].
    injection Hb as <- <-. cbn [video thisFrame].
    unfold frame_at, cap_read, cap_set_pos. cbn. repeat split.
  - injection Hb as <- <-. cbn [video thisFrame].
    split; [exact Hrfr|]. split; [cbn; rewrite Hpos; reflexivity|].
    rewrite <- Hpos. exact Hrf.
Qed.
End VideoBodyTrace.

Section VideoLoopTrace.
Variables (capture : VideoCapture) (info : video_info_c) (timeGranularity : Z).
Variables (s1 : list activity_type_e) (shouldStop : Z -> bool).
Hypothesis Hn : num_frames info + timeGranularity + 1 < 2 ^ 32.
Hypothesis Hg : 0 <= timeGranularity.
Hypothesis Hpos : 0 < num_frames info.
Hypothesis Hlen1 : Z.of_nat (length s1) = num_frames info.

(** However the loop ends: every [Active] entry was there before or lies in
    the run of a frame recorded as differing, and every recorded verdict is
    that of
    [frames_differ] on the clip's frame of that index and the one before. *)
Lemma video_loop_trace fuel :
  (Z.to_nat (num_frames info) <= fuel)%nat ->
  let r := frame_loop (num_frames info) (video_body info timeGranularity) shouldStop fuel 1
             (mkVideoSt (mkScan s1 []) (fst (cap_read (cap_set_pos capture 0)))
                        (snd (cap_read (cap_set_pos capture 0)))) in
  (forall j, strip_at (strip (v_scan (snd r))) j = Some Active ->
             strip_at s1 j = Some Active \/
             exists i, In (i, true) (evals (v_scan (snd r))) /\ i <= j < i + timeGranularity) /\
  Forall (fun e => 1 <= fst e < num_frames info /\
                   frames_differ (frame_at capture (fst e)) (frame_at capture (fst e - 1)) 30
                   = Ok (snd e))
         (evals (v_scan (snd r))).
Proof.
  intros Hfuel r. subst r.
  apply (frame_loop_rule (num_frames info) _ shouldStop
           (fun k st =>
              1 <= k /\
              Z.of_nat (length (strip (v_scan st))) = num_frames info /\
              cap_frames (video st) = cap_frames capture /\
              cap_pos (video st) = k /\
              thisFrame st = frame_at capture (k - 1) /\
              (forall j, strip_at (strip (v_scan st)) j = Some Active ->
                         strip_at s1 j = Some Active \/
                         exists i, In (i, true) (evals (v_scan st)) /\
                                   i <= j < i + timeGranularity) /\
              Forall (fun e => 1 <= fst e < num_frames info /\
                               frames_differ (frame_at capture (fst e))
                                             (frame_at capture (fst e - 1)) 30
                               = Ok (snd e))
                     (evals (v_scan st)))
           (fun _ st =>
              (forall j, strip_at (strip (v_scan st)) j = Some Active ->
                         strip_at s1 j = Some Active \/
                         exists i, In (i, true) (evals (v_scan st)) /\
                                   i <= j < i + timeGranularity) /\
              Forall (fun e => 1 <= fst e < num_frames info /\
                               frames_differ (frame_at capture (fst e))
                                             (frame_at capture (fst e - 1)) 30
                               = Ok (snd e))
                     (evals (v_scan st)))).
  - intros i st (_ & _ & _ & _ & _ & Hs & Ht) _. split; assumption.
  - intros i st f st' (Hi & Hl & Hfr & Hp & Hthis & Hs & Ht) Hlt Hb.
    destruct (video_body_trace info timeGranularity ltac:(lia) Hg i st ltac:(lia) Hl st'
                (or_intror (ex_intro _ f Hb))) as [Hsame | (differ & Hd & Hev & Hact)].
    + rewrite Hsame. split; assumption.
    + split.
      * intros j Hj. destruct (Hact j Hj) as [Hold | [-> Hrange]].
        -- destruct (Hs j Hold) as [Hinit | (i0 & Hin & Hr)]; [left; exact Hinit|].
           right. exists i0. rewrite Hev. split; [right; exact Hin | exact Hr].
        -- right. exists i. rewrite Hev. split; [left; reflexivity | exact Hrange].
      * rewrite Hev. constructor; [|exact Ht]. cbn [fst snd]. split; [lia|].
        rewrite <- Hthis. destruct (cap_read_frame_at (video st)) as (Hrf & _).
        rewrite <- (frame_at_frames capture (video st) i Hfr), <- Hp, <- Hrf. exact Hd.
  - intros i st i' st' (Hi & Hl & Hfr & Hp & Hthis & Hs & Ht) Hlt Hb.
    pose proof (video_body_frame info timeGranularity i st ltac:(lia) Hg ltac:(lia) Hl)
      as Hframe.
    rewrite Hb in Hframe. destruct Hframe as (Hbound & Hl' & _).
    destruct (video_body_capture info timeGranularity i st i' st'
                ltac:(lia) Hl Hp Hb) as (Hfr' & Hp' & Hthis').
    assert (Hpost :
      (forall j, strip_at (strip (v_scan st')) j = Some Active ->
                 strip_at s1 j = Some Active \/
                 exists i0, In (i0, true) (evals (v_scan st')) /\
                            i0 <= j < i0 + timeGranularity) /\
      Forall (fun e => 1 <= fst e < num_frames info /\
                       frames_differ (frame_at capture (fst e))
                                     (frame_at capture (fst e - 1)) 30
                       = Ok (snd e))
             (evals (v_scan st'))).
    { destruct (video_body_trace info timeGranularity ltac:(lia) Hg i st ltac:(lia) Hl st'
                  (or_introl (ex_intro _ i' Hb))) as [Hsame | (differ & Hd & Hev & Hact)].
      - rewrite Hsame. split; assumption.
      - split.
        + intros j Hj. destruct (Hact j Hj) as [Hold | [-> Hrange]].
          * destruct (Hs j Hold) as [Hinit | (i0 & Hin & Hr)]; [left; exact Hinit|].
            right. exists i0. rewrite Hev. split; [right; exact Hin | exact Hr].
          * right. exists i. rewrite Hev. split; [left; reflexivity | exact Hrange].
        + rewrite Hev. constructor; [|exact Ht]. cbn [fst snd]. split; [lia|].
          rewrite <- Hthis. destruct (cap_read_frame_at (video st)) as (Hrf & _).
          rewrite <- (frame_at_frames capture (video st) i Hfr), <- Hp, <- Hrf. exact Hd. }
    split; [intros _ _; exact Hpost|].
    intros _. rewrite u32_small by lia. split; [|lia].
    split; [lia|]. split; [exact Hl'|]. split; [congruence|]. split; [exact Hp'|].
    split; [|exact Hpost].
    rewrite Hthis'. replace (i' + 1 - 1) with i' by lia.
    apply frame_at_frames. exact Hfr.
  - split; [lia|]. split; [exact Hlen1|]. cbn [video thisFrame v_scan strip evals].
    destruct (cap_read_frame_at (cap_set_pos capture 0)) as (Hrf & Hrfr & Hrp).
    split; [exact Hrfr|]. split; [exact Hrp|]. split.
    + rewrite Hrf. apply frame_at_frames. reflexivity.
    + split; [|constructor]. intros j Hj. left. exact Hj.
  - lia.
Qed.
End VideoLoopTrace.

Lemma video_strip_after_frame_0 (s s1 : list activity_type_e) :
  strip_set s 0 Inactive = Some s1 -> no_active s ->
  Z.of_nat (length s1) = Z.of_nat (length s) /\ no_active s1.
Proof.
  intros Hset Hq. apply strip_set_Some in Hset. destruct Hset as (_ & Hl & Hat).
  split; [lia|]. intros j Hj. rewrite Hat in Hj.
  destruct (j =? 0); [discriminate | exact (Hq j Hj)].
Qed.

(** X16: the video scanner marks nothing [Active] without cause: on a
    strip that held no [Active] entry, however the scan ends, every
    [Active] entry [j] lies in the run of a frame [i] that the loop itself
    found to differ, [i <= j < i + numFrames / 50]. *)
Theorem video_active_has_trigger capture shouldStop this :
  isOpened capture = true ->
  frame_count_ok (num_frames (videoInfo this)) ->
  Z.of_nat (length (videoFrameIsActive this)) = num_frames (videoInfo this) ->
  no_active (videoFrameIsActive this) ->
  forall j,
    strip_at (videoFrameIsActive (object_of (mark_video_frame_activity capture shouldStop this))) j
    = Some Active ->
    exists i, In (i, true) (evals_of (mark_video_frame_activity capture shouldStop this)) /\
              i <= j < i + num_frames (videoInfo this) / TIME_GRANULARITY_DIVISOR.
Proof.
  intros Hopen Hn Hl Hq. destruct (granularity_bounds _ Hn) as [Hg Hb].
  destruct (mark_video_eq capture shouldStop this Hopen Hn Hl)
    as (s1 & r & Hs1 & Hr & -> & _).
  destruct (video_strip_after_frame_0 _ _ Hs1 Hq) as [Hl1 Hq1].
  cbn [exit_of evals_of object_of fst snd videoFrameIsActive set_videoFrameIsActive].
  rewrite Hr. intros j Hj.
  assert (Hpos : 0 < num_frames (videoInfo this)) by (unfold frame_count_ok in Hn; lia).
  assert (Hlen1 : Z.of_nat (length s1) = num_frames (videoInfo this)) by lia.
  destruct (proj1 (video_loop_trace capture (videoInfo this)
                     (num_frames (videoInfo this) / TIME_GRANULARITY_DIVISOR) s1 shouldStop
                     Hb Hg Hpos Hlen1
                     (S (Z.to_nat (num_frames (videoInfo this)))) ltac:(lia)) j Hj)
    as [Hinit | Htrig]; [exfalso; exact (Hq1 j Hinit) | exact Htrig].
Qed.

Lemma video_active_has_trigger_witness :
  isOpened (step_clip 100 3) = true /\
  frame_count_ok (num_frames (videoInfo (fresh 100))) /\
  no_active (videoFrameIsActive (fresh 100)) /\
  strip_at (videoFrameIsActive
              (object_of (mark_video_frame_activity (step_clip 100 3) never (fresh 100)))) 4
  = Some Active /\
  exists i, In (i, true) (evals_of (mark_video_frame_activity (step_clip 100 3) never
                                      (fresh 100))) /\
            i <= 4 < i + 100 / TIME_GRANULARITY_DIVISOR.
Proof.
  assert (Hn : frame_count_ok (num_frames (videoInfo (fresh 100))))
    by (unfold frame_count_ok; cbn; lia).
  assert (Hq : no_active (videoFrameIsActive (fresh 100))).
  { intros j Hj. pose proof (strip_at_Some _ _ _ Hj) as Hr.
    rewrite (proj1 (fresh_lengths 100 ltac:(lia))) in Hr.
    unfold fresh in Hj. cbn [videoFrameIsActive] in Hj.
    rewrite strip_at_replicate in Hj by lia. discriminate. }
  assert (Ha : strip_at (videoFrameIsActive
                (object_of (mark_video_frame_activity (step_clip 100 3) never (fresh 100)))) 4
               = Some Active) by (vm_compute; reflexivity).
  split; [reflexivity|]. split; [exact Hn|]. split; [exact Hq|]. split; [exact Ha|].
  apply (video_active_has_trigger (step_clip 100 3) never (fresh 100) eq_refl Hn
           (proj1 (fresh_lengths 100 ltac:(lia))) Hq 4 Ha).
Defined.

Lemma fresh_no_active n : 0 <= n -> no_active (videoFrameIsActive (fresh n)).
Proof.
  intros Hn j Hj. pose proof (strip_at_Some _ _ _ Hj) as Hr.
  rewrite (proj1 (fresh_lengths n Hn)) in Hr.
  unfold fresh in Hj. cbn [videoFrameIsActive] in Hj.
  rewrite strip_at_replicate in Hj by lia. discriminate.
Qed.

(** X17: for a clip of fewer than 50 frames the run length
    [numFrames / 50] is 0, and the baseline write that follows the empty
    run lands on the frame that was just found active: however the scan
    ends, the video strip holds no [Active] entry. *)
Theorem video_short_clip_never_active capture shouldStop this :
  frame_count_ok (num_frames (videoInfo this)) ->
  num_frames (videoInfo this) < TIME_GRANULARITY_DIVISOR ->
  Z.of_nat (length (videoFrameIsActive this)) = num_frames (videoInfo this) ->
  no_active (videoFrameIsActive this) ->
  no_active (videoFrameIsActive (object_of (mark_video_frame_activity capture shouldStop this))).
Proof.
  intros Hn Hshort Hl Hq. destruct (granularity_bounds _ Hn) as [Hg Hb].
  destruct (isOpened capture) eqn:Hopen.
  - destruct (mark_video_eq capture shouldStop this Hopen Hn Hl)
      as (s1 & r & Hs1 & Hr & -> & _).
    destruct (video_strip_after_frame_0 _ _ Hs1 Hq) as [Hl1 Hq1].
    cbn [object_of fst snd videoFrameIsActive set_videoFrameIsActive].
    rewrite Hr. intros j Hj.
    assert (Hpos : 0 < num_frames (videoInfo this)) by (unfold frame_count_ok in Hn; lia).
    assert (Hlen1 : Z.of_nat (length s1) = num_frames (videoInfo this)) by lia.
    destruct (proj1 (video_loop_trace capture (videoInfo this)
                       (num_frames (videoInfo this) / TIME_GRANULARITY_DIVISOR) s1 shouldStop
                       Hb Hg Hpos Hlen1
                       (S (Z.to_nat (num_frames (videoInfo this)))) ltac:(lia)) j Hj)
      as [Hinit | (i & _ & Hrange)]; [exact (Hq1 j Hinit)|].
    rewrite Z.div_small in Hrange by lia. lia.
  - unfold mark_video_frame_activity. rewrite Hopen. exact Hq.
Qed.

Lemma video_short_clip_never_active_witness :
  frame_count_ok (num_frames (videoInfo (fresh 10))) /\
  num_frames (videoInfo (fresh 10)) < TIME_GRANULARITY_DIVISOR /\
  In (3, true) (evals_of (mark_video_frame_activity (step_clip 10 3) never (fresh 10))) /\
  no_active (videoFrameIsActive
               (object_of (mark_video_frame_activity (step_clip 10 3) never (fresh 10)))).
Proof.
  assert (Hn : frame_count_ok (num_frames (videoInfo (fresh 10))))
    by (unfold frame_count_ok; cbn; lia).
  assert (Hs : num_frames (videoInfo (fresh 10)) < TIME_GRANULARITY_DIVISOR)
    by (vm_compute; reflexivity).
  split; [exact Hn|]. split; [exact Hs|]. split.
  - vm_compute. repeat (first [left; reflexivity | right]).
  - apply (video_short_clip_never_active (step_clip 10 3) never (fresh 10) Hn Hs
             (proj1 (fresh_lengths 10 ltac:(lia))) (fresh_no_active 10 ltac:(lia))).
Defined.

(** X18: every verdict of the video scanner compares a frame of the clip
    with the frame just before it: a frame [i] the loop evaluates, also the
    first one after a skipped run, is judged by [frames_differ] on the
    clip's frames [i] and [i - 1] with threshold 30. *)
Theorem video_verdicts_compare_neighbours capture shouldStop this :
  frame_count_ok (num_frames (videoInfo this)) ->
  Z.of_nat (length (videoFrameIsActive this)) = num_frames (videoInfo this) ->
  forall i differ,
    In (i, differ) (evals_of (mark_video_frame_activity capture shouldStop this)) ->
    1 <= i < num_frames (videoInfo this) /\
    frames_differ (frame_at capture i) (frame_at capture (i - 1)) 30 = Ok differ.
Proof.
  intros Hn Hl i differ. destruct (granularity_bounds _ Hn) as [Hg Hb].
  destruct (isOpened capture) eqn:Hopen.
  - destruct (mark_video_eq capture shouldStop this Hopen Hn Hl)
      as (s1 & r & Hs1 & Hr & -> & _).
    cbn [evals_of snd]. rewrite Hr. intros Hin.
    assert (Hpos : 0 < num_frames (videoInfo this)) by (unfold frame_count_ok in Hn; lia).
    assert (Hlen1 : Z.of_nat (length s1) = num_frames (videoInfo this))
      by (apply strip_set_Some in Hs1; lia).
    pose proof (proj2 (video_loop_trace capture (videoInfo this)
                         (num_frames (videoInfo this) / TIME_GRANULARITY_DIVISOR) s1
                         shouldStop Hb Hg Hpos Hlen1
                         (S (Z.to_nat (num_frames (videoInfo this)))) ltac:(lia))) as Hall.
    rewrite List.Forall_forall in Hall. exact (Hall _ Hin).
  - unfold mark_video_frame_activity. rewrite Hopen. intros [].
Qed.

Lemma video_verdicts_compare_neighbours_witness :
  frame_count_ok (num_frames (videoInfo (fresh 100))) /\
  In (6, false) (evals_of (mark_video_frame_activity (step_clip 100 3) never (fresh 100))) /\
  frames_differ (frame_at (step_clip 100 3) 6) (frame_at (step_clip 100 3) 5) 30 = Ok false.
Proof.
  assert (Hn : frame_count_ok (num_frames (videoInfo (fresh 100))))
    by (unfold frame_count_ok; cbn; lia).
  assert (Hin : In (6, false)
                   (evals_of (mark_video_frame_activity (step_clip 100 3) never (fresh 100))))
    by (vm_compute; repeat (first [left; reflexivity | right])).
  split; [exact Hn|]. split; [exact Hin|].
  apply (video_verdicts_compare_neighbours (step_clip 100 3) never (fresh 100) Hn
           (proj1 (fresh_lengths 100 ltac:(lia))) 6 false Hin).
Defined.

(** ** What the audio scanner marks *)

Section AudioLoopTrace.
Context {real : Type} `{RealArith real}.
Variables (a : audio_file_c) (threshold : real) (numFrames timeGranularity : Z).
Variables (s0 : list activity_type_e) (shouldStop : Z -> bool).
Hypothesis Hn : numFrames + timeGranularity + 1 < 2 ^ 32.
Hypothesis Hg : 0 <= timeGranularity.
Hypothesis Hlen0 : Z.of_nat (length s0) = numFrames.

(** An iteration whose representative sample exists does not fault. *)
Lemma audio_body_no_fault i st sample :
  0 <= i < numFrames -> Z.of_nat (length (strip st)) = numFrames ->
  sample_at a (sampleOffs a numFrames i) = Some sample ->
  exists i' st', audio_body a threshold numFrames timeGranularity i st = Next i' st'.
Proof.
  intros Hi Hl Hs. unfold audio_body. rewrite Hs. cbv zeta.
  destruct (strip_set_in_range (strip st) i
              (if loudSample threshold sample then Active else Inactive)) as [s1 Hset];
    [lia|].
  rewrite Hset. apply strip_set_Some in Hset. destruct Hset as (_ & Hl1 & _).
  destruct (loudSample threshold sample); [|eauto].
  destruct (mark_run _ i s1) as [[f2 i2] s2] eqn:Hrun.
  apply mark_run_spec in Hrun; [|lia|lia].
  rewrite numFramesToSkip_min, Z2Nat.id in Hrun by lia.
  destruct Hrun as (_ & Hb2 & _ & _ & Hf).
  destruct f2 as [e|]; [lia | eauto].
Qed.

(** However the loop ends, every [Active] entry was there before or lies
    in the run of a frame recorded as loud. *)
Lemma audio_loop_trace fuel :
  (Z.to_nat numFrames < fuel)%nat ->
  let r := frame_loop numFrames (audio_body a threshold numFrames timeGranularity)
             shouldStop fuel 0 (mkScan s0 []) in
  forall j, strip_at (strip (snd r)) j = Some Active ->
            strip_at s0 j = Some Active \/
            exists i, In (i, true) (evals (snd r)) /\
                      i <= j < i + Z.max timeGranularity 1.
Proof.
  intros Hfuel r. subst r.
  apply (frame_loop_rule numFrames _ shouldStop
           (fun k st =>
              0 <= k /\ Z.of_nat (length (strip st)) = numFrames /\
              forall j, strip_at (strip st) j = Some Active ->
                        strip_at s0 j = Some Active \/
                        exists i, In (i, true) (evals st) /\
                                  i <= j < i + Z.max timeGranularity 1)
           (fun _ st =>
              forall j, strip_at (strip st) j = Some Active ->
                        strip_at s0 j = Some Active \/
                        exists i, In (i, true) (evals st) /\
                                  i <= j < i + Z.max timeGranularity 1)).
  - intros i st (_ & _ & Hs) _. exact Hs.
  - intros i st f st' (Hi & Hl & Hs) Hlt Hb.
    apply audio_body_Abort in Hb; [|lia..|exact Hl]. destruct Hb as [_ ->]. exact Hs.
  - intros i st i' st' (Hi & Hl & Hs) Hlt Hb.
    pose proof (audio_body_frame a threshold numFrames timeGranularity i st
                  ltac:(lia) Hg ltac:(lia) Hl) as Hframe.
    rewrite Hb in Hframe. destruct Hframe as (Hbound & Hl' & _).
    apply audio_body_Next in Hb; [|lia..|exact Hl].
    destruct Hb as (sample & _ & Hev & _ & Hi' & Hat).
    assert (Hpost : forall j, strip_at (strip st') j = Some Active ->
              strip_at s0 j = Some Active \/
              exists i0, In (i0, true) (evals st') /\
                         i0 <= j < i0 + Z.max timeGranularity 1).
    { intros j Hj. rewrite Hat in Hj. rewrite Hev.
      destruct ((j =? i) || (loudSample threshold sample && (i <=? j) && (j <? i')))
        eqn:Hnew.
      - destruct (loudSample threshold sample); [|discriminate].
        right. exists i. split; [left; reflexivity|].
        cbn [andb] in Hnew.
        destruct (Z.eqb_spec j i), (Z.leb_spec i j), (Z.ltb_spec j i');
          cbn in Hnew; try discriminate; lia.
      - destruct (Hs j Hj) as [Hinit | (i0 & Hin & Hr)]; [left; exact Hinit|].
        right. exists i0. split; [right; exact Hin | exact Hr]. }
    split; [intros _ _; exact Hpost|].
    intros _. rewrite u32_small by lia. split; [|lia].
    split; [lia|]. split; [exact Hl' | exact Hpost].
  - split; [lia|]. split; [exact Hlen0|]. intros j Hj. left. exact Hj.
  - lia.
Qed.

(** When no run is ever coalesced (the run length is 0, or no frame is
    loud), a completed scan has given every frame its own verdict. *)
Lemma audio_loop_uncoalesced fuel :
  timeGranularity = 0 \/
  (forall i sample, sample_at a (sampleOffs a numFrames i) = Some sample ->
                    loudSample threshold sample = false) ->
  (Z.to_nat numFrames < fuel)%nat ->
  let r := frame_loop numFrames (audio_body a threshold numFrames timeGranularity)
             shouldStop fuel 0 (mkScan s0 []) in
  fst r = Completed ->
  forall j, 0 <= j < numFrames ->
    exists sample,
      sample_at a (sampleOffs a numFrames j) = Some sample /\
      strip_at (strip (snd r)) j
      = Some (if loudSample threshold sample then Active else Inactive).
Proof.
  intros Hplain Hfuel r. subst r.
  apply (frame_loop_rule numFrames _ shouldStop
           (fun k st =>
              0 <= k /\ Z.of_nat (length (strip st)) = numFrames /\
              forall j, 0 <= j < k -> j < numFrames ->
                exists sample,
                  sample_at a (sampleOffs a numFrames j) = Some sample /\
                  strip_at (strip st) j
                  = Some (if loudSample threshold sample then Active else Inactive))
           (fun e st =>
              e = Completed ->
              forall j, 0 <= j < numFrames ->
                exists sample,
                  sample_at a (sampleOffs a numFrames j) = Some sample /\
                  strip_at (strip st) j
                  = Some (if loudSample threshold sample then Active else Inactive))).
  - intros i st (_ & _ & Hs) Hge _ j Hj. apply Hs; lia.
  - intros i st f st' _ _ _ [=].
  - intros i st i' st' (Hi & Hl & Hs) Hlt Hb.
    apply audio_body_Next in Hb; [|lia..|exact Hl].
    destruct Hb as (sample & Hsmp & _ & Hl' & Hi' & Hat).
    assert (Hsame : i' = i).
    { destruct (loudSample threshold sample) eqn:Hloud; [|exact Hi'].
      destruct Hplain as [-> | Hquiet]; [lia|].
      rewrite (Hquiet _ _ Hsmp) in Hloud. discriminate. }
    subst i'. split; [intros _ _ [=]|].
    intros _. rewrite u32_small by lia. split; [|lia].
    split; [lia|]. split; [lia|].
    intros j Hj HjN. rewrite Hat.
    destruct (Z.eqb_spec j i) as [->|Hne]; cbn [orb].
    + exists sample. split; [exact Hsmp | reflexivity].
    + destruct (Z.leb_spec i j), (Z.ltb_spec j i); rewrite ?andb_false_r; cbn [andb orb];
        try lia; apply Hs; lia.
  - split; [lia|]. split; [exact Hlen0|]. intros j Hj. lia.
  - lia.
Qed.

(** When the representative sample of every frame exists, no iteration
    faults. *)
Lemma audio_loop_no_fault fuel :
  (forall i, 0 <= i < numFrames ->
             exists sample, sample_at a (sampleOffs a numFrames i) = Some sample) ->
  (Z.to_nat numFrames < fuel)%nat ->
  forall f,
    fst (frame_loop numFrames (audio_body a threshold numFrames timeGranularity)
           shouldStop fuel 0 (mkScan s0 [])) <> Faulted f.
Proof.
  intros Hsmp Hfuel f.
  apply (frame_loop_rule numFrames _ shouldStop
           (fun k st => 0 <= k /\ Z.of_nat (length (strip st)) = numFrames)
           (fun e _ => e <> Faulted f)).
  - discriminate.
  - intros i st f' st' (Hi & Hl) Hlt Hb. exfalso.
    destruct (Hsmp i ltac:(lia)) as (sample & Hs).
    destruct (audio_body_no_fault i st sample ltac:(lia) Hl Hs) as (i' & st'' & Hnext).
    congruence.
  - intros i st i' st' (Hi & Hl) Hlt Hb.
    pose proof (audio_body_frame a threshold numFrames timeGranularity i st
                  ltac:(lia) Hg ltac:(lia) Hl) as Hframe.
    rewrite Hb in Hframe. destruct Hframe as (Hbound & Hl' & _).
    split; [discriminate|].
    intros _. rewrite u32_small by lia. split; [|lia]. split; [lia | exact Hl'].
  - split; [lia | exact Hlen0].
  - lia.
Qed.
End AudioLoopTrace.

Lemma fresh_audio_no_active n : 0 <= n -> no_active (audioFrameIsActive (fresh n)).
Proof.
  intros Hn j Hj. pose proof (strip_at_Some _ _ _ Hj) as Hr.
  rewrite (proj2 (fresh_lengths n Hn)) in Hr.
  unfold fresh in Hj. cbn [audioFrameIsActive] in Hj.
  rewrite strip_at_replicate in Hj by lia. discriminate.
Qed.

(** X19: the audio scanner marks nothing [Active] without cause: on a
    strip that held no [Active] entry, however the scan ends, every
    [Active] entry [j] is a frame the loop found loud or lies in the run
    of one, [i <= j < i + max (numFrames / 50) 1]. *)
Theorem audio_active_has_trigger {real : Type} `{RealArith real}
    extracted shouldStop this :
  frame_count_ok (num_frames (videoInfo this)) ->
  Z.of_nat (length (audioFrameIsActive this)) = num_frames (videoInfo this) ->
  no_active (audioFrameIsActive this) ->
  forall j,
    strip_at (audioFrameIsActive
                (object_of (mark_audio_frame_activity extracted shouldStop this))) j
    = Some Active ->
    exists i,
      In (i, true) (evals_of (mark_audio_frame_activity extracted shouldStop this)) /\
      i <= j < i + Z.max (num_frames (videoInfo this) / TIME_GRANULARITY_DIVISOR) 1.
Proof.
  intros Hn Hl Hq j. destruct (granularity_bounds _ Hn) as [Hg Hb].
  destruct (has_valid_audio (extract_audio extracted this)) eqn:Hv.
  - apply has_valid_audio_true in Hv. destruct Hv as (a & Ha & Hvd).
    destruct (mark_audio_eq extracted shouldStop this a Ha Hvd Hn Hl)
      as (r & Hr & -> & _).
    cbn [evals_of object_of fst snd audioFrameIsActive set_audioFrameIsActive].
    rewrite Hr. intros Hj.
    destruct (audio_loop_trace a (thresholdAmplitude a) (num_frames (videoInfo this))
                (num_frames (videoInfo this) / TIME_GRANULARITY_DIVISOR)
                (audioFrameIsActive this) shouldStop Hb Hg Hl
                (S (Z.to_nat (num_frames (videoInfo this)))) ltac:(lia) j Hj)
      as [Hinit | Htrig]; [exfalso; exact (Hq j Hinit) | exact Htrig].
  - rewrite (mark_audio_no_audio extracted shouldStop this Hv).
    cbn [object_of fst snd audioFrameIsActive set_audioFrameIsActive]. intros Hj.
    pose proof (strip_at_Some _ _ _ Hj) as Hr. rewrite length_replicate in Hr.
    rewrite strip_at_replicate in Hj by lia. discriminate.
Qed.

Lemma audio_active_has_trigger_witness :
  frame_count_ok (num_frames (videoInfo (fresh 100))) /\
  no_active (audioFrameIsActive (fresh 100)) /\
  strip_at (audioFrameIsActive
              (object_of (@mark_audio_frame_activity Q exact_real (Some (click_track 100 7))
                            never (fresh 100)))) 8
  = Some Active /\
  exists i,
    In (i, true) (evals_of (@mark_audio_frame_activity Q exact_real
                              (Some (click_track 100 7)) never (fresh 100))) /\
    i <= 8 < i + Z.max (100 / TIME_GRANULARITY_DIVISOR) 1.
Proof.
  assert (Hn : frame_count_ok (num_frames (videoInfo (fresh 100))))
    by (unfold frame_count_ok; cbn; lia).
  assert (Hq : no_active (audioFrameIsActive (fresh 100)))
    by (apply fresh_audio_no_active; lia).
  assert (Ha : strip_at (audioFrameIsActive
                 (object_of (@mark_audio_frame_activity Q exact_real
                               (Some (click_track 100 7)) never (fresh 100)))) 8
               = Some Active) by (vm_compute; reflexivity).
  split; [exact Hn|]. split; [exact Hq|]. split; [exact Ha|].
  apply (audio_active_has_trigger (real := Q) (Some (click_track 100 7)) never (fresh 100)
           Hn (proj2 (fresh_lengths 100 ltac:(lia))) Hq 8 Ha).
Defined.

(** X20: for a clip of fewer than 50 frames nothing is coalesced: a
    completed audio scan has given every frame its own verdict, [Active]
    when the absolute value of its representative sample is above the
    absolute value of the threshold and [Inactive] otherwise. *)
Theorem audio_short_clip_verdicts {real : Type} `{RealArith real}
    a extracted shouldStop this :
  audio (extract_audio extracted this) = Some a ->
  has_valid_audio_data a = true ->
  frame_count_ok (num_frames (videoInfo this)) ->
  num_frames (videoInfo this) < TIME_GRANULARITY_DIVISOR ->
  Z.of_nat (length (audioFrameIsActive this)) = num_frames (videoInfo this) ->
  exit_of (mark_audio_frame_activity extracted shouldStop this) = Completed ->
  forall j, 0 <= j < num_frames (videoInfo this) ->
    exists sample,
      sample_at a (sampleOffs a (num_frames (videoInfo this)) j) = Some sample /\
      strip_at (audioFrameIsActive
                  (object_of (mark_audio_frame_activity extracted shouldStop this))) j
      = Some (if rgt (rabs (of_int sample)) (rabs (thresholdAmplitude a))
              then Active else Inactive).
Proof.
  intros Ha Hvd Hn Hshort Hl. destruct (granularity_bounds _ Hn) as [Hg Hb].
  destruct (mark_audio_eq extracted shouldStop this a Ha Hvd Hn Hl) as (r & Hr & -> & _).
  cbn [exit_of evals_of object_of fst snd audioFrameIsActive set_audioFrameIsActive].
  rewrite Hr.
  apply (audio_loop_uncoalesced a (thresholdAmplitude a) (num_frames (videoInfo this))
           (num_frames (videoInfo this) / TIME_GRANULARITY_DIVISOR)
           (audioFrameIsActive this) shouldStop Hb Hg Hl
           (S (Z.to_nat (num_frames (videoInfo this)))));
    [|lia].
  left. apply Z.div_small. unfold frame_count_ok in Hn. lia.
Qed.

Lemma audio_short_clip_verdicts_witness :
  frame_count_ok (num_frames (videoInfo (fresh 4))) /\
  num_frames (videoInfo (fresh 4)) < TIME_GRANULARITY_DIVISOR /\
  exit_of (@mark_audio_frame_activity Q exact_real
             (Some (mkAudioFile true [0; 1000; 0; 0; 0; 0; 0])) never (fresh 4)) = Completed /\
  exists sample,
    sample_at (mkAudioFile true [0; 1000; 0; 0; 0; 0; 0])
      (@sampleOffs Q exact_real (mkAudioFile true [0; 1000; 0; 0; 0; 0; 0]) 4 1)
    = Some sample /\
    strip_at (audioFrameIsActive
                (object_of (@mark_audio_frame_activity Q exact_real
                              (Some (mkAudioFile true [0; 1000; 0; 0; 0; 0; 0]))
                              never (fresh 4)))) 1
    = Some (if rgt (rabs (of_int sample))
                   (rabs (@thresholdAmplitude Q exact_real
                            (mkAudioFile true [0; 1000; 0; 0; 0; 0; 0])))
            then Active else Inactive).
Proof.
  assert (Hn : frame_count_ok (num_frames (videoInfo (fresh 4))))
    by (unfold frame_count_ok; cbn; lia).
  assert (Hs : num_frames (videoInfo (fresh 4)) < TIME_GRANULARITY_DIVISOR)
    by (vm_compute; reflexivity).
  assert (He : exit_of (@mark_audio_frame_activity Q exact_real
                          (Some (mkAudioFile true [0; 1000; 0; 0; 0; 0; 0])) never (fresh 4))
               = Completed) by (vm_compute; reflexivity).
  split; [exact Hn|]. split; [exact Hs|]. split; [exact He|].
  apply (audio_short_clip_verdicts (real := Q) (mkAudioFile true [0; 1000; 0; 0; 0; 0; 0])
           (Some (mkAudioFile true [0; 1000; 0; 0; 0; 0; 0])) never (fresh 4)
           eq_refl eq_refl Hn Hs (proj2 (fresh_lengths 4 ltac:(lia))) He 1).
  cbn. lia.
Defined.

(** ** The audio scanner and the rounding of [real] *)

(** With a relative error small against the frame count, the truncated
    product stays below the number of samples. *)
Lemma sample_exists_rounded {real : Type} `{RealArith real}
    (val : real -> Q) (u : Q) a numFrames i :
  0 < num_samples a -> 0 <= i < numFrames -> (0 <= u)%Q -> (u <= 1)%Q ->
  ((1 + u) * (1 + u) * inject_Z (numFrames - 1) < inject_Z numFrames)%Q ->
  sample_index_rounded val u a numFrames i ->
  exists sample, sample_at a (sampleOffs a numFrames i) = Some sample.
Proof.
  intros Hns Hi Hu0 Hu1 Hsmall Hmodel.
  destruct (sample_index_band val u a numFrames i ltac:(lia) ltac:(lia) Hu0 Hu1 Hmodel)
    as (Hoffs & Hq0 & Hp0 & _ & Hhi).
  cbv zeta in Hhi.
  assert (Hnsq : (0 < inject_Z (num_samples a))%Q).
  { change 0%Q with (inject_Z 0). rewrite <- Zlt_Qlt. exact Hns. }
  assert (HNq : (0 < inject_Z numFrames)%Q).
  { change 0%Q with (inject_Z 0). rewrite <- Zlt_Qlt. lia. }
  assert (Hiq : (inject_Z i <= inject_Z (numFrames - 1))%Q) by (rewrite <- Zle_Qle; lia).
  assert (Hc : ((1 + u) * (1 + u) * inject_Z i < inject_Z numFrames)%Q).
  { assert (((1 + u) * (1 + u)) * inject_Z i
            <= ((1 + u) * (1 + u)) * inject_Z (numFrames - 1))%Q.
    { rewrite !(Qmult_comm ((1 + u) * (1 + u))).
      apply Qmult_le_compat_r; [exact Hiq|]. apply Qmult_le_0_compat; lra. }
    lra. }
  assert (Hlt : (val (sampleProduct a numFrames i) < inject_Z (num_samples a))%Q).
  { eapply Qle_lt_trans; [exact Hhi|].
    assert (E : (inject_Z i * inject_Z (num_samples a) / inject_Z numFrames
                 * (1 + u) * (1 + u)
                 == inject_Z (num_samples a) * ((1 + u) * (1 + u) * inject_Z i)
                    / inject_Z numFrames)%Q) by (unfold Qdiv; ring).
    rewrite E. apply Qlt_shift_div_r; [exact HNq|].
    apply Qmult_lt_l; assumption. }
  assert (Hrange : 0 <= sampleOffs a numFrames i < num_samples a).
  { rewrite Hoffs. split.
    - rewrite <- (Qfloor_Z 0). apply Qfloor_resp_le. exact Hp0.
    - pose proof (Qfloor_le (val (sampleProduct a numFrames i))) as Hf.
      rewrite Zlt_Qlt. lra. }
  unfold sample_at.
  rewrite (proj2 (Z.leb_le _ _)), (proj2 (Z.ltb_lt _ _)) by lia. cbn [andb].
  destruct (lookup_lt_is_Some_2 (samples a) (Z.to_nat (sampleOffs a numFrames i)))
    as [x Hx]; [unfold num_samples in *; lia | eauto].
Qed.

(** The unit roundoff of binary64 is small enough for every frame count. *)
Lemma f64_u_small n :
  frame_count_ok n -> ((1 + f64_u) * (1 + f64_u) * inject_Z (n - 1) < inject_Z n)%Q.
Proof.
  unfold frame_count_ok. intros Hn.
  assert (E : ((1 + f64_u) * (1 + f64_u) == 1 + (18014398509481985 # 2 ^ 106))%Q)
    by (apply Qeq_bool_eq; vm_compute; reflexivity).
  rewrite E.
  assert (Hb : (inject_Z (n - 1) <= inject_Z (2 ^ 31))%Q) by (rewrite <- Zle_Qle; lia).
  assert (Hc : ((18014398509481985 # 2 ^ 106) * inject_Z (2 ^ 31) < 1)%Q)
    by (apply Qlt_alt; vm_compute; reflexivity).
  assert (Hd : ((18014398509481985 # 2 ^ 106) * inject_Z (n - 1)
                <= (18014398509481985 # 2 ^ 106) * inject_Z (2 ^ 31))%Q).
  { rewrite !(Qmult_comm (18014398509481985 # 2 ^ 106)).
    apply Qmult_le_compat_r; [exact Hb|]. apply Qle_bool_imp_le. vm_compute. reflexivity. }
  assert (He : (inject_Z (n - 1) == inject_Z n - 1)%Q).
  { unfold Z.sub. rewrite inject_Z_plus. reflexivity. }
  rewrite He in *. lra.
Qed.

(** X21: in an arithmetic whose rounding error is small against the frame
    count, [(1 + u)^2 (numFrames - 1) < numFrames] (for binary64 every
    frame count qualifies), the representative sample index of every frame
    lies inside a non-empty sample sequence, so the audio scan never
    faults; and with the stop flag never raised it runs to completion. *)
Theorem audio_scan_completes {real : Type} `{RealArith real}
    (val : real -> Q) (u : Q) a extracted shouldStop this :
  audio (extract_audio extracted this) = Some a ->
  has_valid_audio_data a = true ->
  0 < num_samples a ->
  frame_count_ok (num_frames (videoInfo this)) ->
  Z.of_nat (length (audioFrameIsActive this)) = num_frames (videoInfo this) ->
  (0 <= u)%Q -> (u <= 1)%Q ->
  ((1 + u) * (1 + u) * inject_Z (num_frames (videoInfo this) - 1)
   < inject_Z (num_frames (videoInfo this)))%Q ->
  (forall i, 0 <= i < num_frames (videoInfo this) ->
             sample_index_rounded val u a (num_frames (videoInfo this)) i) ->
  (forall f, exit_of (mark_audio_frame_activity extracted shouldStop this) <> Faulted f) /\
  exit_of (mark_audio_frame_activity extracted never this) = Completed.
Proof.
  intros Ha Hvd Hns Hn Hl Hu0 Hu1 Hsmall Hmodel.
  destruct (granularity_bounds _ Hn) as [Hg Hb].
  assert (Hnf : forall stop f,
            exit_of (mark_audio_frame_activity extracted stop this) <> Faulted f).
  { intros stop f.
    destruct (mark_audio_eq extracted stop this a Ha Hvd Hn Hl) as (r & Hr & -> & _).
    cbn [exit_of fst]. rewrite Hr.
    apply (audio_loop_no_fault a (thresholdAmplitude a) (num_frames (videoInfo this))
             (num_frames (videoInfo this) / TIME_GRANULARITY_DIVISOR)
             (audioFrameIsActive this) stop Hb Hg Hl); [|lia].
    intros i Hi. apply (sample_exists_rounded val u); auto. }
  split; [apply Hnf|].
  pose proof (Hnf never) as Hnever.
  destruct (mark_audio_eq extracted never this a Ha Hvd Hn Hl) as (r & _ & Heq & Hpost).
  rewrite Heq in *. cbn [exit_of fst] in *.
  destruct Hpost as (_ & _ & Hcase).
  destruct (fst r) as [|c|f|]; [reflexivity | | | contradiction].
  - destruct Hcase as (_ & _ & Hs & _). discriminate.
  - exfalso. exact (Hnever f eq_refl).
Qed.

Lemma audio_scan_completes_witness :
  0 < num_samples (click_track 3 1) /\
  frame_count_ok (num_frames (videoInfo (fresh 10))) /\
  ((1 + f64_u) * (1 + f64_u) * inject_Z (num_frames (videoInfo (fresh 10)) - 1)
   < inject_Z (num_frames (videoInfo (fresh 10))))%Q /\
  (forall i, 0 <= i < num_frames (videoInfo (fresh 10)) ->
     @sample_index_rounded PrimFloat.float binary64 f64_val f64_u (click_track 3 1)
        (num_frames (videoInfo (fresh 10))) i) /\
  (forall f, exit_of (@mark_audio_frame_activity PrimFloat.float binary64
                        (Some (click_track 3 1)) (stop_from 0) (fresh 10)) <> Faulted f) /\
  exit_of (@mark_audio_frame_activity PrimFloat.float binary64
             (Some (click_track 3 1)) never (fresh 10)) = Completed.
Proof.
  assert (Hns : 0 < num_samples (click_track 3 1)) by (vm_compute; reflexivity).
  assert (Hn : frame_count_ok (num_frames (videoInfo (fresh 10))))
    by (unfold frame_count_ok; cbn; lia).
  assert (Hu0 : (0 <= f64_u)%Q) by (apply Qle_bool_imp_le; vm_compute; reflexivity).
  assert (Hu1 : (f64_u <= 1)%Q) by (apply Qle_bool_imp_le; vm_compute; reflexivity).
  assert (Hsmall : ((1 + f64_u) * (1 + f64_u)
                    * inject_Z (num_frames (videoInfo (fresh 10)) - 1)
                    < inject_Z (num_frames (videoInfo (fresh 10))))%Q)
    by (apply f64_u_small; exact Hn).
  assert (Hmodel : forall i, 0 <= i < num_frames (videoInfo (fresh 10)) ->
            @sample_index_rounded PrimFloat.float binary64 f64_val f64_u (click_track 3 1)
               (num_frames (videoInfo (fresh 10))) i).
  { intros i Hi. apply in_zrange in Hi. vm_compute in Hi.
    repeat (destruct Hi as [<-|Hi]; [check_rounded|]). destruct Hi. }
  split; [exact Hns|]. split; [exact Hn|]. split; [exact Hsmall|]. split; [exact Hmodel|].
  apply (audio_scan_completes (H := binary64) f64_val f64_u (click_track 3 1)
           (Some (click_track 3 1)) (stop_from 0) (fresh 10) eq_refl eq_refl Hns Hn
           (proj2 (fresh_lengths 10 ltac:(lia))) Hu0 Hu1 Hsmall Hmodel).
Defined.

(** A sample of value 0 is never above the threshold when magnitudes are
    compared exactly. *)
Lemma silent_sample_never_loud {real : Type} `{RealArith real} (val : real -> Q)
    (threshold : real) :
  magnitudes_compared val threshold 0 -> loudSample threshold 0 = false.
Proof.
  unfold magnitudes_compared. intros ->.
  apply negb_false_iff. apply Qle_bool_iff. apply Qabs_nonneg.
Qed.

(** X22: a silent track gives no activity: when every sample is 0 and the
    comparison of a zero sample with the threshold is exact, a completed
    audio scan leaves every entry of the audio strip [Inactive]. *)
Theorem silent_track_all_inactive {real : Type} `{RealArith real}
    (val : real -> Q) a extracted shouldStop this :
  audio (extract_audio extracted this) = Some a ->
  has_valid_audio_data a = true ->
  Forall (fun s => s = 0) (samples a) ->
  magnitudes_compared val (thresholdAmplitude a) 0 ->
  frame_count_ok (num_frames (videoInfo this)) ->
  Z.of_nat (length (audioFrameIsActive this)) = num_frames (videoInfo this) ->
  exit_of (mark_audio_frame_activity extracted shouldStop this) = Completed ->
  forall j, 0 <= j < num_frames (videoInfo this) ->
    strip_at (audioFrameIsActive
                (object_of (mark_audio_frame_activity extracted shouldStop this))) j
    = Some Inactive.
Proof.
  intros Ha Hvd Hzero Hcmp Hn Hl. destruct (granularity_bounds _ Hn) as [Hg Hb].
  pose proof (silent_sample_never_loud val _ Hcmp) as Hquiet.
  assert (Hsilent : forall i sample, sample_at a i = Some sample -> sample = 0).
  { intros i sample Hs. unfold sample_at in Hs.
    destruct ((0 <=? i) && (i <? num_samples a)); [|discriminate].
    rewrite List.Forall_forall in Hzero. apply Hzero.
    apply list_elem_of_In. eapply list_elem_of_lookup_2. exact Hs. }
  destruct (mark_audio_eq extracted shouldStop this a Ha Hvd Hn Hl) as (r & Hr & -> & _).
  cbn [exit_of evals_of object_of fst snd audioFrameIsActive set_audioFrameIsActive].
  rewrite Hr. intros He j Hj.
  destruct (audio_loop_uncoalesced a (thresholdAmplitude a) (num_frames (videoInfo this))
              (num_frames (videoInfo this) / TIME_GRANULARITY_DIVISOR)
              (audioFrameIsActive this) shouldStop Hb Hg Hl
              (S (Z.to_nat (num_frames (videoInfo this))))
              (or_intror (fun i sample Hs =>
                 eq_ind_r (fun s => loudSample (thresholdAmplitude a) s = false)
                          Hquiet (Hsilent _ _ Hs)))
              ltac:(lia) He j Hj) as (sample & Hs & Hat).
  rewrite Hat, (Hsilent _ _ Hs), Hquiet. reflexivity.
Qed.

Lemma silent_track_all_inactive_witness :
  Forall (fun s => s = 0) (samples (mkAudioFile true [0; 0; 0])) /\
  @magnitudes_compared PrimFloat.float binary64 f64_val
     (@thresholdAmplitude PrimFloat.float binary64 (mkAudioFile true [0; 0; 0])) 0 /\
  frame_count_ok (num_frames (videoInfo (fresh 100))) /\
  exit_of (@mark_audio_frame_activity PrimFloat.float binary64
             (Some (mkAudioFile true [0; 0; 0])) never (fresh 100)) = Completed /\
  strip_at (audioFrameIsActive
              (object_of (@mark_audio_frame_activity PrimFloat.float binary64
                            (Some (mkAudioFile true [0; 0; 0])) never (fresh 100)))) 99
  = Some Inactive.
Proof.
  assert (Hz : Forall (fun s => s = 0) (samples (mkAudioFile true [0; 0; 0])))
    by (repeat constructor).
  assert (Hcmp : @magnitudes_compared PrimFloat.float binary64 f64_val
                   (@thresholdAmplitude PrimFloat.float binary64
                      (mkAudioFile true [0; 0; 0])) 0)
    by (vm_compute; reflexivity).
  assert (Hn : frame_count_ok (num_frames (videoInfo (fresh 100))))
    by (unfold frame_count_ok; cbn; lia).
  assert (He : exit_of (@mark_audio_frame_activity PrimFloat.float binary64
                          (Some (mkAudioFile true [0; 0; 0])) never (fresh 100))
               = Completed) by (vm_compute; reflexivity).
  split; [exact Hz|]. split; [exact Hcmp|]. split; [exact Hn|]. split; [exact He|].
  apply (silent_track_all_inactive (H := binary64) f64_val (mkAudioFile true [0; 0; 0])
           (Some (mkAudioFile true [0; 0; 0])) never (fresh 100)
           eq_refl eq_refl Hz Hcmp Hn (proj2 (fresh_lengths 100 ltac:(lia))) He 99).
  cbn. lia.
Defined.

Lemma sum_within_peak l :
  - (Z.of_nat (length l) * peak_samples l) <= sum_samples l
  <= Z.of_nat (length l) * peak_samples l.
Proof.
  unfold sum_samples, peak_samples.
  induction l as [|x l IH]; cbn [fold_right length]; [lia|].
  set (p := fold_right (fun s m => Z.max (Z.abs s) m) 0 l) in *.
  set (s := fold_right Z.add 0 l) in *.
  assert (0 <= p) by (subst p; clear; induction l; cbn; lia).
  nia.
Qed.

(** The magnitude of a rounded value. *)
Lemma rounds_to_magnitude u r x :
  (0 <= u)%Q -> (u <= 1)%Q -> rounds_to u r x -> (Qabs r <= 2 * Qabs x)%Q.
Proof.
  unfold rounds_to. intros Hu0 Hu1 Hr.
  pose proof (Qabs_triangle (r - x) x) as Ht.
  assert (E : (r - x + x == r)%Q) by ring. rewrite E in Ht.
  pose proof (Qabs_nonneg x) as Hx.
  assert (Hux : (u * Qabs x <= 1 * Qabs x)%Q) by (apply Qmult_le_compat_r; assumption).
  lra.
Qed.

(** Whatever the rounding, the threshold is small against the peak. *)
Lemma rounded_threshold_bound {real : Type} `{RealArith real} (val : real -> Q) (u : Q) a :
  Forall int16 (samples a) -> num_samples a < 2 ^ 32 -> 0 < num_samples a ->
  (0 <= u)%Q -> (u <= 1)%Q -> threshold_rounded val u a ->
  (Qabs (val (thresholdAmplitude a)) <= inject_Z (peak_samples (samples a)) * (24 # 1000))%Q.
Proof.
  intros H16 Hlen Hns Hu0 Hu1 (Hvs & Hvn & Hvp & Havg & Hsub & Hmilli & Hthr).
  rewrite (amplitude_stats_spec a H16 Hlen) in *. cbn [fst snd] in *.
  pose proof (sum_within_peak (samples a)) as Hsum. fold (num_samples a) in Hsum.
  assert (Hn0 : (0 < inject_Z (num_samples a))%Q)
    by (change 0%Q with (inject_Z 0); rewrite <- Zlt_Qlt; exact Hns).
  set (p := inject_Z (peak_samples (samples a))) in *.
  assert (Hp0 : (0 <= p)%Q).
  { subst p. change 0%Q with (inject_Z 0). rewrite <- Zle_Qle. nia. }
  (* the exact average *)
  assert (Hexact : (Qabs (inject_Z (sum_samples (samples a)) / inject_Z (num_samples a))
                    <= p)%Q).
  { apply Qabs_Qle_condition. split.
    - apply Qle_shift_div_l; [exact Hn0|]. subst p.
      rewrite <- inject_Z_opp, <- inject_Z_mult, <- Zle_Qle. lia.
    - apply Qle_shift_div_r; [exact Hn0|]. subst p.
      rewrite <- inject_Z_mult, <- Zle_Qle. lia. }
  (* the computed average *)
  unfold rounds_to in Havg. rewrite Hvs, Hvn in Havg.
  pose proof (rounds_to_magnitude _ _ _ Hu0 Hu1 Havg) as Hmavg.
  (* the difference *)
  unfold rounds_to in Hsub. rewrite Hvp in Hsub. fold p in Hsub.
  pose proof (rounds_to_magnitude _ _ _ Hu0 Hu1 Hsub) as Hmsub.
  pose proof (Qabs_triangle p (- val (avgAmplitude a))) as Ht.
  rewrite Qabs_opp, (Qabs_pos p Hp0) in Ht.
  assert (E : (p + - val (avgAmplitude a) == p - val (avgAmplitude a))%Q) by ring.
  rewrite E in Ht.
  (* the constant *)
  pose proof (rounds_to_magnitude _ _ _ Hu0 Hu1 Hmilli) as Hmm.
  rewrite (Qabs_pos (1 # 1000)) in Hmm by (apply Qle_bool_imp_le; reflexivity).
  (* the product *)
  pose proof (rounds_to_magnitude _ _ _ Hu0 Hu1 Hthr) as Hmthr.
  rewrite Qabs_Qmult in Hmthr.
  assert (Hprod : (Qabs (val (rsub (of_int (peak_samples (samples a))) (avgAmplitude a)))
                   * Qabs (val milli) <= (6 * p) * (2 # 1000))%Q).
  { apply Qmult_le_compat_nonneg; (split; [apply Qabs_nonneg|]); lra. }
  lra.
Qed.

(** X23: whatever the rounding of [real] (a relative error of at most
    [u <= 1] in each operation), for 16-bit samples the magnitude of the
    threshold is at most 2.4% of the peak, so a sample whose magnitude is
    the peak of a track that is not silent is classified loud when the
    comparison is exact. *)
Theorem loudest_sample_is_loud {real : Type} `{RealArith real}
    (val : real -> Q) (u : Q) a sample :
  Forall int16 (samples a) -> num_samples a < 2 ^ 32 -> 0 < num_samples a ->
  (0 <= u)%Q -> (u <= 1)%Q -> threshold_rounded val u a ->
  (Qabs (val (thresholdAmplitude a))
   <= inject_Z (peak_samples (samples a)) * (24 # 1000))%Q /\
  (0 < peak_samples (samples a) -> Z.abs sample = peak_samples (samples a) ->
   magnitudes_compared val (thresholdAmplitude a) sample ->
   loudSample (thresholdAmplitude a) sample = true).
Proof.
  intros H16 Hlen Hns Hu0 Hu1 Hmodel.
  pose proof (rounded_threshold_bound val u a H16 Hlen Hns Hu0 Hu1 Hmodel) as Hup.
  split; [exact Hup|]. intros Hp Habs Hcmp. rewrite Hcmp.
  apply negb_true_iff. destruct (Qle_bool _ _) eqn:Hle; [|reflexivity]. exfalso.
  apply Qle_bool_iff in Hle.
  assert (Hs : Qabs (inject_Z sample) = inject_Z (peak_samples (samples a)))
    by (rewrite <- Habs; reflexivity).
  rewrite Hs in Hle.
  assert (Hp0 : (0 < inject_Z (peak_samples (samples a)))%Q)
    by (change 0%Q with (inject_Z 0); rewrite <- Zlt_Qlt; exact Hp).
  set (p := inject_Z (peak_samples (samples a))) in *.
  set (t := Qabs (val (thresholdAmplitude a))) in *.
  lra.
Qed.

Lemma loudest_sample_is_loud_witness :
  Forall int16 (samples (click_track 50 7)) /\
  0 < num_samples (click_track 50 7) /\
  @threshold_rounded PrimFloat.float binary64 f64_val f64_u (click_track 50 7) /\
  0 < peak_samples (samples (click_track 50 7)) /\
  Z.abs 1000 = peak_samples (samples (click_track 50 7)) /\
  @magnitudes_compared PrimFloat.float binary64 f64_val
     (@thresholdAmplitude PrimFloat.float binary64 (click_track 50 7)) 1000 /\
  @loudSample PrimFloat.float binary64
     (@thresholdAmplitude PrimFloat.float binary64 (click_track 50 7)) 1000 = true.
Proof.
  assert (Hns : 0 < num_samples (click_track 50 7)) by (vm_compute; reflexivity).
  assert (Hlen : num_samples (click_track 50 7) < 2 ^ 32) by (vm_compute; reflexivity).
  assert (Hu0 : (0 <= f64_u)%Q) by (apply Qle_bool_imp_le; vm_compute; reflexivity).
  assert (Hu1 : (f64_u <= 1)%Q) by (apply Qle_bool_imp_le; vm_compute; reflexivity).
  assert (Hmodel : @threshold_rounded PrimFloat.float binary64 f64_val f64_u
                     (click_track 50 7)) by check_rounded.
  assert (Hp : 0 < peak_samples (samples (click_track 50 7))) by (vm_compute; reflexivity).
  assert (Habs : Z.abs 1000 = peak_samples (samples (click_track 50 7)))
    by (vm_compute; reflexivity).
  assert (Hcmp : @magnitudes_compared PrimFloat.float binary64 f64_val
                   (@thresholdAmplitude PrimFloat.float binary64 (click_track 50 7)) 1000)
    by (vm_compute; reflexivity).
  split; [apply click_track_int16|]. split; [exact Hns|]. split; [exact Hmodel|].
  split; [exact Hp|]. split; [exact Habs|]. split; [exact Hcmp|].
  exact (proj2 (loudest_sample_is_loud (H := binary64) f64_val f64_u (click_track 50 7) 1000
                  (click_track_int16 50 7) Hlen Hns Hu0 Hu1 Hmodel) Hp Habs Hcmp).
Defined.

(** ** Runs of the video strip: where they start, and the overrun *)

Section VideoLoopRuns.
Variables (info : video_info_c) (timeGranularity : Z) (shouldStop : Z -> bool).
Hypothesis Hn : num_frames info + timeGranularity + 1 < 2 ^ 32.
Hypothesis Hg : 0 <= timeGranularity.

(** The only range fault of an iteration is the baseline write after a run
    that reaches the end of the strip; it is at index [numFrames]. *)
Lemma video_body_overrun i st idx st' :
  0 <= i < num_frames info ->
  Z.of_nat (length (strip (v_scan st))) = num_frames info ->
  video_body info timeGranularity i st = Abort (IndexOutOfRange idx) st' ->
  idx = num_frames info /\
  evals (v_scan st') = (i, true) :: evals (v_scan st) /\
  num_frames info <= i + timeGranularity.
Proof.
  intros Hi Hl Hb. unfold video_body in Hb.
  repeat match type of Hb with
         | (if negb ?c then _ else _) = _ => destruct c; cbn [negb] in Hb; [|discriminate]
         end.
  destruct (frames_differ _ _ 30) as [differ|f] eqn:Hd.
  2:{ unfold frames_differ in Hd.
      destruct ((rows _ =? rows _) && (cols _ =? cols _)); [discriminate|].
      injection Hd as <-. discriminate. }
  destruct (strip_set (strip (v_scan st)) i _) as [s1|] eqn:Hset.
  2:{ apply strip_set_None in Hset. lia. }
  apply strip_set_Some in Hset. destruct Hset as (_ & Hl1 & Hat1).
  rewrite Hat1, Z.eqb_refl in Hb.
  destruct differ; cbn in Hb; [|discriminate].
  destruct (mark_run _ i s1) as [[f2 i2] s2] eqn:Hrun.
  apply mark_run_spec in Hrun; [|lia|lia].
  rewrite numFramesToSkip_min, Z2Nat.id in Hrun by lia.
  destruct Hrun as (Hl2 & Hb2 & _ & _ & Hf).
  destruct f2 as [e|]; [lia|].
  destruct (strip_set s2 i2 Inactive) as [s3|] eqn:Hset3; [discriminate|].
  apply strip_set_None in Hset3. injection Hb as <- <-. cbn.
  split; [lia|]. split; [reflexivity | lia].
Qed.

(** However the loop ends: a range fault is the overrun above; and the
    frame before every recorded frame is [Inactive]. *)
Lemma video_loop_runs fuel st0 :
  (Z.to_nat (num_frames info) <= fuel)%nat ->
  0 < num_frames info ->
  Z.of_nat (length (strip (v_scan st0))) = num_frames info ->
  strip_at (strip (v_scan st0)) 0 = Some Inactive ->
  evals (v_scan st0) = [] ->
  let r := frame_loop (num_frames info) (video_body info timeGranularity)
             shouldStop fuel 1 st0 in
  (forall idx, fst r = Faulted (IndexOutOfRange idx) ->
     idx = num_frames info /\
     exists i, In (i, true) (evals (v_scan (snd r))) /\
               num_frames info <= i + timeGranularity) /\
  ((forall f, fst r <> Faulted f) ->
   Forall (fun e => strip_at (strip (v_scan (snd r))) (fst e - 1) = Some Inactive)
          (evals (v_scan (snd r)))).
Proof.
  intros Hfuel Hpos Hl0 Hz0 Hev0 r. subst r.
  apply (frame_loop_rule (num_frames info) _ shouldStop
           (fun k st =>
              1 <= k /\
              Z.of_nat (length (strip (v_scan st))) = num_frames info /\
              strip_at (strip (v_scan st)) (k - 1) = Some Inactive /\
              Forall (fun e => 1 <= fst e < k /\
                               strip_at (strip (v_scan st)) (fst e - 1) = Some Inactive)
                     (evals (v_scan st)))
           (fun e st =>
              (forall idx, e = Faulted (IndexOutOfRange idx) ->
                 idx = num_frames info /\
                 exists i, In (i, true) (evals (v_scan st)) /\
                           num_frames info <= i + timeGranularity) /\
              ((forall f, e <> Faulted f) ->
               Forall (fun e => strip_at (strip (v_scan st)) (fst e - 1) = Some Inactive)
                      (evals (v_scan st))))).
  - intros i st (_ & _ & _ & Hev) _. split; [discriminate|]. intros _.
    eapply Forall_impl; [exact Hev|]. cbn. intros e He. apply He.
  - intros i st f st' (Hi & Hl & _) Hlt Hb. split.
    + intros idx [= ->].
      destruct (video_body_overrun i st idx st' ltac:(lia) Hl Hb) as (Hidx & Hev & Hreach).
      split; [exact Hidx|]. exists i. rewrite Hev. split; [left; reflexivity | exact Hreach].
    + intros Hnf. exfalso. exact (Hnf f eq_refl).
  - intros i st i' st' (Hi & Hl & Hprev & Hev) Hlt Hb.
    pose proof (video_body_frame info timeGranularity i st ltac:(lia) Hg ltac:(lia) Hl)
      as Hframe.
    rewrite Hb in Hframe. destruct Hframe as (Hbound & Hl' & Hlow).
    apply video_body_Next in Hb; [|lia..|exact Hl].
    destruct Hb as (differ & _ & Hev' & _ & _ & Hlt' & Hat').
    assert (Hentries :
      Forall (fun e => 1 <= fst e < i' + 1 /\
                       strip_at (strip (v_scan st')) (fst e - 1) = Some Inactive)
             (evals (v_scan st'))).
    { rewrite Hev'. constructor.
      - cbn [fst]. split; [lia|]. rewrite Hlow by lia. exact Hprev.
      - eapply Forall_impl; [exact Hev|]. cbn. intros e (He1 & He2).
        split; [lia|]. rewrite Hlow by lia. exact He2. }
    split.
    + intros _ _. split; [discriminate|]. intros _.
      eapply Forall_impl; [exact Hentries|]. cbn. intros e He. apply He.
    + intros _. rewrite u32_small by lia. split; [|lia].
      split; [lia|]. split; [exact Hl'|]. split; [|exact Hentries].
      replace (i' + 1 - 1) with i' by lia. rewrite Hat', Z.eqb_refl.
      destruct differ, (Z.leb_spec i i'), (Z.ltb_spec i' i'); cbn;
        solve [reflexivity | lia].
  - split; [lia|]. split; [exact Hl0|]. split; [exact Hz0|]. rewrite Hev0. constructor.
  - lia.
Qed.
End VideoLoopRuns.

(** X24: the backward search finds the frame that started a run of the
    video strip: after a completed video scan, for every frame [i >= 2]
    that the loop found to differ, the search started at any frame of its
    run [i .. i + numFrames / 50 - 1] returns [i]. *)
Theorem segment_start_of_video_run capture shouldStop this i j :
  frame_count_ok (num_frames (videoInfo this)) ->
  Z.of_nat (length (videoFrameIsActive this)) = num_frames (videoInfo this) ->
  exit_of (mark_video_frame_activity capture shouldStop this) = Completed ->
  In (i, true) (evals_of (mark_video_frame_activity capture shouldStop this)) ->
  2 <= i -> i <= j < i + num_frames (videoInfo this) / TIME_GRANULARITY_DIVISOR ->
  get_start_of_active_segment
    (object_of (mark_video_frame_activity capture shouldStop this)) j 0
  = Some (Ok i).
Proof.
  intros Hn Hl. destruct (granularity_bounds _ Hn) as [Hg Hb].
  destruct (isOpened capture) eqn:Hopen.
  2:{ unfold mark_video_frame_activity. rewrite Hopen. discriminate. }
  destruct (mark_video_eq capture shouldStop this Hopen Hn Hl)
    as (s1 & r & Hs1 & Hr & -> & Hpost).
  cbn [exit_of evals_of object_of fst snd].
  intros He Hin Hi Hj. rewrite He in Hpost.
  destruct Hpost as (Hlen & _ & _ & (k & Hentries)).
  rewrite List.Forall_forall in Hentries. specialize (Hentries _ Hin).
  unfold video_entry in Hentries. cbn [fst snd] in Hentries.
  destruct Hentries as (_ & Hlt & _ & Hact & _).
  pose proof Hs1 as Hs1'. apply strip_set_Some in Hs1'. destruct Hs1' as (_ & Hl1 & Hat1).
  assert (Hpred : strip_at (strip (v_scan (snd r))) (i - 1) = Some Inactive).
  { assert (Hnf : forall f, fst r <> Faulted f) by (rewrite He; discriminate).
    pose proof (proj2 (video_loop_runs (videoInfo this)
                         (num_frames (videoInfo this) / TIME_GRANULARITY_DIVISOR)
                         shouldStop Hb Hg
                         (S (Z.to_nat (num_frames (videoInfo this))))
                         (mkVideoSt (mkScan s1 []) (fst (cap_read (cap_set_pos capture 0)))
                                    (snd (cap_read (cap_set_pos capture 0))))
                         ltac:(lia) ltac:(unfold frame_count_ok in Hn; lia)
                         ltac:(cbn; lia)
                         ltac:(cbn; rewrite Hat1; reflexivity) eq_refl)) as Hall.
    cbv zeta in Hall. rewrite <- Hr in Hall. specialize (Hall Hnf).
    rewrite List.Forall_forall in Hall. exact (Hall _ Hin). }
  rewrite get_start_unfold. unfold track_strip.
  cbn [Z.eqb videoFrameIsActive set_videoFrameIsActive].
  unfold frame_count_ok in Hn.
  apply (segment_search_from_2 _ i (Z.to_nat (j - i))); try lia.
  - intros j' Hj'. apply Hact. lia.
  - exists Inactive. split; [exact Hpred | discriminate].
Qed.

Lemma segment_start_of_video_run_witness :
  frame_count_ok (num_frames (videoInfo (fresh 100))) /\
  exit_of (mark_video_frame_activity (step_clip 100 3) never (fresh 100)) = Completed /\
  In (3, true) (evals_of (mark_video_frame_activity (step_clip 100 3) never (fresh 100))) /\
  get_start_of_active_segment
    (object_of (mark_video_frame_activity (step_clip 100 3) never (fresh 100))) 4 0
  = Some (Ok 3).
Proof.
  assert (Hn : frame_count_ok (num_frames (videoInfo (fresh 100))))
    by (unfold frame_count_ok; cbn; lia).
  assert (He : exit_of (mark_video_frame_activity (step_clip 100 3) never (fresh 100))
               = Completed) by (vm_compute; reflexivity).
  assert (Hin : In (3, true)
                   (evals_of (mark_video_frame_activity (step_clip 100 3) never (fresh 100))))
    by (vm_compute; repeat (first [left; reflexivity | right])).
  split; [exact Hn|]. split; [exact He|]. split; [exact Hin|].
  apply (segment_start_of_video_run (step_clip 100 3) never (fresh 100) 3 4 Hn
           (proj1 (fresh_lengths 100 ltac:(lia))) He Hin); [lia|].
  vm_compute. split; [intros Hc; discriminate Hc | reflexivity].
Defined.

(** X25: the one write of the video scanner that can leave the strip: a
    scan ends in a range fault only at index [numFrames], one past the
    last entry, after a frame [i] found to differ whose run reaches the end
    ([i + numFrames / 50 >= numFrames]); and in a scan that runs to
    completion every such run stops short of the end. *)
Theorem video_overrun_is_baseline_write capture shouldStop this :
  frame_count_ok (num_frames (videoInfo this)) ->
  Z.of_nat (length (videoFrameIsActive this)) = num_frames (videoInfo this) ->
  (forall idx,
     exit_of (mark_video_frame_activity capture shouldStop this)
     = Faulted (IndexOutOfRange idx) ->
     idx = num_frames (videoInfo this) /\
     exists i, In (i, true) (evals_of (mark_video_frame_activity capture shouldStop this)) /\
               num_frames (videoInfo this)
               <= i + num_frames (videoInfo this) / TIME_GRANULARITY_DIVISOR) /\
  (exit_of (mark_video_frame_activity capture shouldStop this) = Completed ->
   forall i, In (i, true) (evals_of (mark_video_frame_activity capture shouldStop this)) ->
     i + num_frames (videoInfo this) / TIME_GRANULARITY_DIVISOR
     < num_frames (videoInfo this)).
Proof.
  intros Hn Hl. destruct (granularity_bounds _ Hn) as [Hg Hb].
  destruct (isOpened capture) eqn:Hopen.
  2:{ unfold mark_video_frame_activity. rewrite Hopen.
      split; [intros idx; discriminate | discriminate]. }
  destruct (mark_video_eq capture shouldStop this Hopen Hn Hl)
    as (s1 & r & Hs1 & Hr & -> & Hpost).
  cbn [exit_of evals_of object_of fst snd].
  pose proof Hs1 as Hs1'. apply strip_set_Some in Hs1'. destruct Hs1' as (_ & Hl1 & Hat1).
  split.
  - pose proof (proj1 (video_loop_runs (videoInfo this)
                         (num_frames (videoInfo this) / TIME_GRANULARITY_DIVISOR)
                         shouldStop Hb Hg
                         (S (Z.to_nat (num_frames (videoInfo this))))
                         (mkVideoSt (mkScan s1 []) (fst (cap_read (cap_set_pos capture 0)))
                                    (snd (cap_read (cap_set_pos capture 0))))
                         ltac:(lia) ltac:(unfold frame_count_ok in Hn; lia)
                         ltac:(cbn; lia)
                         ltac:(cbn; rewrite Hat1; reflexivity) eq_refl)) as Hall.
    cbv zeta in Hall. rewrite <- Hr in Hall. exact Hall.
  - intros He i Hin. rewrite He in Hpost.
    destruct Hpost as (_ & _ & _ & (k & Hentries)).
    rewrite List.Forall_forall in Hentries. specialize (Hentries _ Hin).
    unfold video_entry in Hentries. cbn [fst snd] in Hentries. lia.
Qed.

Lemma video_overrun_is_baseline_write_witness :
  frame_count_ok (num_frames (videoInfo (fresh 50))) /\
  exit_of (mark_video_frame_activity (step_clip 50 49) never (fresh 50))
  = Faulted (IndexOutOfRange 50) /\
  exists i, In (i, true) (evals_of (mark_video_frame_activity (step_clip 50 49) never
                                      (fresh 50))) /\
            50 <= i + 50 / TIME_GRANULARITY_DIVISOR.
Proof.
  assert (Hn : frame_count_ok (num_frames (videoInfo (fresh 50))))
    by (unfold frame_count_ok; cbn; lia).
  assert (He : exit_of (mark_video_frame_activity (step_clip 50 49) never (fresh 50))
               = Faulted (IndexOutOfRange 50)) by (vm_compute; reflexivity).
  split; [exact Hn|]. split; [exact He|].
  apply (proj1 (video_overrun_is_baseline_write (step_clip 50 49) never (fresh 50) Hn
                  (proj1 (fresh_lengths 50 ltac:(lia)))) 50 He).
Defined.
